(** * A shallow embedding of the Phase4 distributed file system

    The development follows the C++ sources under [Phase4/src]:
    - [common/erasure_coding.cpp]  (module [ErasureCoding]),
    - [common/crypto.cpp]          (module [Crypto]),
    - [chunkserver/chunk_storage.cpp], [chunkserver/chunk_server.cpp]
                                   (modules [ChunkStorage], [ChunkServer]),
    - [master/metadata_manager.cpp], [master/chunk_allocator.cpp],
      [master/master_server.cpp]   (modules [MetadataManager],
                                    [ChunkAllocator], [MasterServer]),
    - [client/client.cpp]          (module [Client]).

    Conventions.  A [uint8_t] is a [Z] in [0, 256); a byte vector is a
    [list Z]; [std::string] is [string]; [std::unordered_map] and
    [std::unordered_set] are [gmap] and [gset]; a function that throws
    returns [result]; functions that touch the disk, the clock or the
    random generator take the outcome of that interaction as an argument. *)

From Stdlib Require Import ZArith List Ascii String Floats Uint63 Permutation.
From stdpp Require Import gmap strings list fin_maps pretty.

#[global] Set Warnings "-inexact-float,-clear-no-such-hyp".

Abbreviation bytes := (list Z).

(** ** Exceptions

    Every [throw std::runtime_error(...)] of the sources, by message. *)

Inductive runtime_error : Type :=
  | DivisionByZero        (* "Division by zero in GF(256)" *)
  | MatrixNotSquare       (* "Matrix must be square for inversion" *)
  | MatrixNotInvertible   (* "Matrix is not invertible" *)
  | DimensionMismatch     (* "Matrix-vector dimension mismatch" *)
  | InvalidVectorSize     (* "Invalid block or availability vector size" *)
  | NotEnoughBlocks       (* "Not enough blocks available for decoding" *)
  | NoBlocksAvailable.    (* "No blocks available for decoding" *)

Inductive result (A : Type) : Type :=
  | Ok (a : A)
  | Throw (e : runtime_error).
Arguments Ok {A} a.
Arguments Throw {A} e.

#[global] Instance result_ret : MRet result := fun A a => Ok a.
#[global] Instance result_bind : MBind result := fun A B f r =>
  match r with
  | Ok a => f a
  | Throw e => Throw e
  end.

Definition is_Throw {A} (r : result A) : Prop :=
  match r with Throw _ => True | Ok _ => False end.

(** Monadic traversal of a list, left to right, stopping at the first
    exception; and a left fold of a fallible step. *)
Fixpoint mapR {A B} (f : A → result B) (l : list A) : result (list B) :=
  match l with
  | [] => Ok []
  | a :: l' => b ← f a; bs ← mapR f l'; Ok (b :: bs)
  end.

Fixpoint foldR {A S} (f : S → A → result S) (s : S) (l : list A) : result S :=
  match l with
  | [] => Ok s
  | a :: l' => s' ← f s a; foldR f s' l'
  end.

(** ** The hash function

    [Utils::calculateSHA256] calls OpenSSL and prints the digest in hex.
    OpenSSL is not part of the repository: the function is an interface
    that the development is parametric in. *)

Class HashOracle := { calculateSHA256 : bytes → string }.

(** * common/erasure_coding.cpp *)

Module ErasureCoding.

#[local] Open Scope Z_scope.

(** [ErasureCoding::initializeTables].  The two static arrays start out
    zeroed; [x] is the running power of the generator. *)
Definition table_step (st : Z * list Z * list Z) (i : nat) : Z * list Z * list Z :=
  let '(x, exp_t, log_t) := st in
  let x := Z.shiftl x 1 in
  let x := if Z.eqb (Z.land x 0x100) 0 then x else Z.lxor x 0x11D in
  (x, <[i := x]> exp_t, <[Z.to_nat x := Z.of_nat i]> log_t).

Definition initializeTables : list Z * list Z :=
  let exp0 := <[0%nat := 1]> (replicate 256 0) in
  let log0 := <[0%nat := 0]> (replicate 256 0) in
  let '(_, exp_t, log_t) := fold_left table_step (seq 1 254) (1, exp0, log0) in
  (<[255%nat := nth 0 exp_t 0]> exp_t, <[1%nat := 0]> log_t).

Definition gf_exp_table_ : list Z := Eval vm_compute in fst initializeTables.
Definition gf_log_table_ : list Z := Eval vm_compute in snd initializeTables.

Definition exp_at (i : Z) : Z := nth (Z.to_nat i) gf_exp_table_ 0.
Definition log_at (a : Z) : Z := nth (Z.to_nat a) gf_log_table_ 0.

Definition gf_add (a b : Z) : Z := Z.lxor a b.

Definition gf_multiply (a b : Z) : Z :=
  if (a =? 0) || (b =? 0) then 0
  else exp_at (Z.rem (log_at a + log_at b) 255).

Definition gf_divide (a b : Z) : result Z :=
  if a =? 0 then Ok 0
  else if b =? 0 then Throw DivisionByZero
  else Ok (exp_at (Z.rem (log_at a - log_at b + 255) 255)).

Definition gf_power (base : Z) (exp : Z) : Z :=
  if base =? 0 then 0
  else if exp =? 0 then 1
  else exp_at (Z.rem (log_at base * exp) 255).

(** Matrices are row lists; [get] reads [matrix[r][c]]. *)
Definition get (matrix : list (list Z)) (r c : nat) : Z :=
  nth c (nth r matrix []) 0.

(** [createVandermondeMatrix]: the argument [i + 1] of [gf_power] is
    converted to [uint8_t]. *)
Definition createVandermondeMatrix (rows cols : nat) : list (list Z) :=
  map (fun i => map (fun j => gf_power ((Z.of_nat i + 1) mod 256) (Z.of_nat j))
                    (seq 0%nat cols))
      (seq 0%nat rows).

(** One round of the Gauss-Jordan loop of [invertMatrix], for column [i]
    of the [n] x [2n] augmented matrix. *)
Definition find_pivot (augmented : list (list Z)) (n i : nat) : nat :=
  match find (fun k => negb (get augmented k i =? 0)) (seq (S i) (n - S i)) with
  | Some k => k
  | None => i
  end.

Definition swap_rows (augmented : list (list Z)) (i p : nat) : list (list Z) :=
  <[p := nth i augmented []]> (<[i := nth p augmented []]> augmented).

Definition eliminate_step (n : nat) (augmented : list (list Z)) (i : nat)
  : result (list (list Z)) :=
  let pivot := find_pivot augmented n i in
  if get augmented pivot i =? 0 then Throw MatrixNotInvertible else
  let augmented := if decide (pivot = i) then augmented
                   else swap_rows augmented i pivot in
  let diagonal := get augmented i i in
  row_i ← mapR (fun x => if x =? 0 then Ok x else gf_divide x diagonal)
               (nth i augmented []);
  let augmented := <[i := row_i]> augmented in
  Ok (imap (fun k row =>
              let factor := nth i row 0 in
              if negb (k =? i)%nat && negb (factor =? 0)
              then zip_with (fun a b => gf_add a (gf_multiply factor b)) row row_i
              else row)
           augmented).

Definition invertMatrix (matrix : list (list Z)) : result (list (list Z)) :=
  let n := length matrix in
  if (n =? 0)%nat || negb (length (nth 0 matrix []) =? n)%nat
  then Throw MatrixNotSquare else
  let augmented :=
    map (fun i => map (fun j => get matrix i j) (seq 0 n)
                  ++ map (fun j => if (i =? j)%nat then 1 else 0) (seq 0 n))
        (seq 0 n) in
  augmented ← foldR (eliminate_step n) augmented (seq 0 n);
  Ok (map (fun row => map (fun j => nth (j + n) row 0) (seq 0 n)) augmented).

Definition matrixVectorMultiply (matrix : list (list Z)) (vector : list Z)
  : result (list Z) :=
  let cols := length (nth 0 matrix []) in
  if negb (cols =? length vector)%nat then Throw DimensionMismatch else
  Ok (map (fun row =>
             fold_left (fun acc j => gf_add acc (gf_multiply (nth j row 0) (nth j vector 0)))
                       (seq 0 cols) 0)
          matrix).

(** The counting loop of [canDecode] (and of [decode]): the number of
    available blocks. *)
Definition count_available (availability : list bool) : nat :=
  length (List.filter (fun avail => avail) availability).

Section Codec.
(** The two fields of an [ErasureCoding] object; [data_blocks_] is
    positive in every use (the encoder divides by it). *)
Variables data_blocks_ parity_blocks_ : nat.

Definition encode (data : list Z) : result (list (list Z)) :=
  if bool_decide (data = []) then Ok [] else
  let block_size := ((length data + data_blocks_ - 1) / data_blocks_)%nat in
  let padded_data := data ++ replicate (data_blocks_ * block_size - length data) 0 in
  let data_blocks :=
    map (fun i => take block_size (drop (i * block_size) padded_data))
        (seq 0 data_blocks_) in
  let encoding_matrix :=
    createVandermondeMatrix (data_blocks_ + parity_blocks_) data_blocks_ in
  parity ← mapR (fun i =>
              mapR (fun j =>
                let column := map (fun k => get data_blocks k j) (seq 0 data_blocks_) in
                encoded_column ← matrixVectorMultiply [nth i encoding_matrix []] column;
                Ok (nth 0 encoded_column 0))
                (seq 0 block_size))
            (seq data_blocks_ parity_blocks_);
  Ok (data_blocks ++ parity).

Definition decode (blocks : list (list Z)) (availability : list bool)
  : result (list Z) :=
  if negb (length blocks =? data_blocks_ + parity_blocks_)%nat
     || negb (length availability =? data_blocks_ + parity_blocks_)%nat
  then Throw InvalidVectorSize else
  let available_indices :=
    List.filter (fun i => nth i availability false) (seq 0 (length availability)) in
  let available_count := length available_indices in
  if (available_count <? data_blocks_)%nat then Throw NotEnoughBlocks else
  let have_all_data := forallb (fun i => nth i availability false) (seq 0 data_blocks_) in
  if have_all_data
  then Ok (concat (map (fun i => nth i blocks []) (seq 0 data_blocks_)))
  else
    let available_indices := take data_blocks_ available_indices in
    let encoding_matrix :=
      createVandermondeMatrix (data_blocks_ + parity_blocks_) data_blocks_ in
    let decoding_matrix := map (fun idx => nth idx encoding_matrix []) available_indices in
    inverse_matrix ← invertMatrix decoding_matrix;
    let block_size := length (nth (nth 0 available_indices 0%nat) blocks []) in
    decoded_columns ← mapR (fun j =>
        matrixVectorMultiply inverse_matrix
          (map (fun idx => get blocks idx j) available_indices))
      (seq 0 block_size);
    let decoded_blocks :=
      map (fun i => map (fun col => nth i col 0) decoded_columns) (seq 0 data_blocks_) in
    Ok (concat decoded_blocks).

Definition canDecode (availability : list bool) : bool :=
  (data_blocks_ <=? count_available availability)%nat.
End Codec.

(** *** [ErasureCodedChunkManager] *)

Record CodedChunk := {
  cc_chunk_id : string;
  block_index : Z;
  is_parity : bool;
  cc_data : list Z;
  cc_checksum : string;
}.

Record CodeGroup := {
  group_id : string;
  blocks : list CodedChunk;
  data_blocks : nat;
  parity_blocks : nat;
  original_size : Z;
}.

(** [std::sort] by [block_index], as an insertion sort. *)
Fixpoint insert_by_index (c : CodedChunk) (l : list CodedChunk) : list CodedChunk :=
  match l with
  | [] => [c]
  | d :: l' => if block_index d <? block_index c
               then d :: insert_by_index c l' else c :: d :: l'
  end.
Definition sort_by_index (l : list CodedChunk) : list CodedChunk :=
  fold_right insert_by_index [] l.

Definition removePadding (data : list Z) (originalSize : Z) : list Z :=
  if (originalSize <? 0) || (Z.of_nat (length data) <? originalSize) then data
  else take (Z.to_nat originalSize) data.

Section Manager.
Context `{HashOracle}.
(** The [erasure_coder_] member. *)
Variables dataBlocks parityBlocks : nat.

Definition encodeChunk (chunkId : string) (data : list Z) : result CodeGroup :=
  encoded_blocks ← encode dataBlocks parityBlocks data;
  Ok {| group_id := chunkId +:+ "_group";
        blocks := imap (fun i b =>
                    {| cc_chunk_id := chunkId +:+ "_block_" +:+ pretty i;
                       block_index := Z.of_nat i;
                       is_parity := (dataBlocks <=? i)%nat;
                       cc_data := b;
                       cc_checksum := calculateSHA256 b |})
                    encoded_blocks;
        data_blocks := dataBlocks;
        parity_blocks := parityBlocks;
        original_size := Z.of_nat (length data) |}.

Definition place_block (total_blocks : nat) (st : list (list Z) * list bool)
    (chunk : CodedChunk) : list (list Z) * list bool :=
  if (0 <=? block_index chunk) && (block_index chunk <? Z.of_nat total_blocks)
  then (<[Z.to_nat (block_index chunk) := cc_data chunk]> (fst st),
        <[Z.to_nat (block_index chunk) := true]> (snd st))
  else st.

Definition decodeChunk (group : CodeGroup) : result (list Z) :=
  if bool_decide (blocks group = []) then Throw NoBlocksAvailable else
  let sorted_blocks := sort_by_index (blocks group) in
  let total_blocks := (data_blocks group + parity_blocks group)%nat in
  let '(blks, availability) :=
    fold_left (place_block total_blocks) sorted_blocks
              (replicate total_blocks [], replicate total_blocks false) in
  decoded_data ← decode dataBlocks parityBlocks blks availability;
  Ok (removePadding decoded_data (original_size group)).

Definition canDecodeChunk (group : CodeGroup) : bool :=
  let total := (data_blocks group + parity_blocks group)%nat in
  canDecode dataBlocks
    (fold_left (fun av chunk =>
                  if (0 <=? block_index chunk) && (block_index chunk <? Z.of_nat total)
                  then <[Z.to_nat (block_index chunk) := true]> av else av)
               (blocks group) (replicate total false)).
(** [repairMissingBlocks]: the group is decoded and encoded again, under
    the name [group.group_id]. *)
Definition repairMissingBlocks (group : CodeGroup) (missingIndices : list Z)
  : result (list CodedChunk) :=
  original_data ← decodeChunk group;
  full_group ← encodeChunk (group_id group) original_data;
  Ok (omap (fun index =>
              if (0 <=? index) && (index <? Z.of_nat (length (blocks full_group)))
              then blocks full_group !! Z.to_nat index else None)
           missingIndices).

End Manager.

(** A group that lost the block of index [i]. *)
Definition lose_block (i : Z) (group : CodeGroup) : CodeGroup :=
  {| group_id := group_id group;
     blocks := List.filter (fun c => negb (block_index c =? i)) (blocks group);
     data_blocks := data_blocks group; parity_blocks := parity_blocks group;
     original_size := original_size group |}.

End ErasureCoding.


(** * common/crypto.cpp *)

(** OpenSSL's AES-256-GCM ([EVP_aes_256_gcm]) is an external library: an
    interface with the contract of authenticated encryption.  [gcm_seal]
    stands for the [EVP_Encrypt*] calls followed by [EVP_CTRL_GCM_GET_TAG]
    ([None]: one of the calls did not return 1); [gcm_open] for the
    [EVP_Decrypt*] calls ([None]: a call failed or the tag did not verify). *)
Class AesGcm := {
  gcm_seal : string → list Z → list Z → option (list Z * list Z);
  gcm_open : string → list Z → list Z → list Z → option (list Z);
  gcm_tag_length : ∀ key iv pt ct tag,
    gcm_seal key iv pt = Some (ct, tag) → length tag = 16%nat;
  gcm_open_seal : ∀ key iv pt ct tag,
    gcm_seal key iv pt = Some (ct, tag) → gcm_open key iv ct tag = Some pt;
}.

Module Crypto.

Definition KEY_SIZE : nat := 32.
Definition IV_SIZE : nat := 12.
Definition TAG_SIZE : nat := 16.
Definition SALT_SIZE : nat := 16.

(** [ss << std::hex << std::setfill('0') << std::setw(2) << int(byte)] for
    every byte of a vector. *)
Definition hex_digit (n : Z) : ascii :=
  nth (Z.to_nat n) (list_ascii_of_string "0123456789abcdef") "0"%char.

Definition to_hex (data : list Z) : string :=
  fold_right (fun b s => String (hex_digit (b / 16)%Z) (String (hex_digit (b mod 16)%Z) s))
             EmptyString data.

(** A vector of [n] bytes handed to [RAND_bytes]: whatever the generator
    delivers, the vector keeps its [n] entries. *)
Definition rand_vector (n : nat) (entropy : list Z) : list Z :=
  take n (entropy ++ replicate n 0%Z).

(** [Crypto::generateRandomKey]; [rand] is what [RAND_bytes] wrote, [None]
    when it did not return 1. *)
Definition generateRandomKey (rand : option (list Z)) : string :=
  match rand with
  | None => EmptyString
  | Some entropy => to_hex (rand_vector KEY_SIZE entropy)
  end.

(** [Crypto::generateRandomIV]: a failure of [RAND_bytes] is logged, the
    vector is returned all the same. *)
Definition generateRandomIV (entropy : list Z) : list Z :=
  rand_vector IV_SIZE entropy.

Section Cipher.
Context `{AesGcm}.

(** [Crypto::encrypt]; the empty vector is the failure value. *)
Definition encrypt (iv_entropy : list Z) (plaintext : list Z) (key : string) : list Z :=
  if negb (String.length key =? KEY_SIZE) then [] else
  let iv := generateRandomIV iv_entropy in
  match gcm_seal key iv plaintext with
  | None => []
  | Some (ciphertext, tag) => iv ++ ciphertext ++ tag
  end.

Definition decrypt (ciphertext : list Z) (key : string) : list Z :=
  if negb (String.length key =? KEY_SIZE) || (length ciphertext <? IV_SIZE + TAG_SIZE)
  then [] else
  let iv := take IV_SIZE ciphertext in
  let encrypted := take (length ciphertext - IV_SIZE - TAG_SIZE) (drop IV_SIZE ciphertext) in
  let tag := drop (length ciphertext - TAG_SIZE) ciphertext in
  match gcm_open key iv encrypted tag with
  | None => []
  | Some plaintext => plaintext
  end.

(** *** [KeyManager]: the process-wide [keys_] map. *)

Definition generateKey (rand : option (list Z)) : string := generateRandomKey rand.

Definition storeKey (keys_ : gmap string string) (keyId key : string) : gmap string string :=
  <[keyId := key]> keys_.

Definition getKey (keys_ : gmap string string) (keyId : string) : string :=
  default EmptyString (keys_ !! keyId).

Definition hasKey (keys_ : gmap string string) (keyId : string) : bool :=
  bool_decide (is_Some (keys_ !! keyId)).

Definition encryptChunk (keys_ : gmap string string) (iv_entropy : list Z)
    (chunkData : list Z) (keyId : string) : list Z :=
  let key := getKey keys_ keyId in
  if bool_decide (key = EmptyString) then [] else encrypt iv_entropy chunkData key.

Definition decryptChunk (keys_ : gmap string string)
    (encryptedData : list Z) (keyId : string) : list Z :=
  let key := getKey keys_ keyId in
  if bool_decide (key = EmptyString) then [] else decrypt encryptedData key.
End Cipher.

End Crypto.

(** ** Stand-ins for the two external libraries

    Used to run the model on concrete inputs: a "hash" that prints its
    input in hex, and a "cipher" that copies the plaintext and appends a
    tag of sixteen zero bytes.  Both satisfy the interfaces above. *)

Definition hex_print_hash : HashOracle := {| calculateSHA256 := Crypto.to_hex |}.

Lemma copy_cipher_tag_length (key : string) (iv pt ct tag : list Z) :
  Some (pt, replicate 16 0%Z) = Some (ct, tag) → length tag = 16%nat.
Proof. intros [= _ <-]. reflexivity. Qed.

Lemma copy_cipher_open_seal (key : string) (iv pt ct tag : list Z) :
  Some (pt, replicate 16 0%Z) = Some (ct, tag) → Some ct = Some pt.
Proof. intros [= <- _]. reflexivity. Qed.

Definition copy_cipher : AesGcm :=
  {| gcm_seal := fun _ _ pt => Some (pt, replicate 16 0%Z);
     gcm_open := fun _ _ ct _ => Some ct;
     gcm_tag_length := copy_cipher_tag_length;
     gcm_open_seal := copy_cipher_open_seal |}.

(** * common/utils.cpp: string helpers *)

Module Utils.

(** The loop of [splitString]: [std::getline] with a delimiter.  [token]
    holds the characters read since the last delimiter.  At the end of the
    stream a call that extracted nothing fails and ends the loop, so a
    last token that is empty is not returned. *)
Fixpoint getline_loop (s : string) (delimiter : ascii) (token : string) : list string :=
  match s with
  | EmptyString => if bool_decide (token = EmptyString) then [] else [token]
  | String c s' =>
      if bool_decide (c = delimiter)
      then token :: getline_loop s' delimiter EmptyString
      else getline_loop s' delimiter (token +:+ String c EmptyString)
  end.

Definition splitString (str : string) (delimiter : ascii) : list string :=
  getline_loop str delimiter EmptyString.

Definition joinStrings (strings : list string) (delimiter : string) : string :=
  match strings with
  | [] => EmptyString
  | first :: rest =>
      fold_left (fun result s => result +:+ (delimiter +:+ s)) rest first
  end.

End Utils.

(** * chunkserver/chunk_storage.cpp *)

Module ChunkStorage.

(** What [loadChunkMetadata] reads back from a sidecar file
    [<chunk_id>.meta]. *)
Record ChunkMeta := {
  meta_checksum : string;
  meta_is_encrypted : bool;
  meta_is_erasure_coded : bool;
  meta_created_time : Z;
}.

(** The storage directory and the two in-memory indices.  Data files and
    sidecars are kept apart, each keyed by chunk id: chunk ids carry no
    [.meta] suffix and are not [checksums.json] (the names the directory
    scan itself skips).  A sidecar that holds [None] is a file that does
    not parse as JSON.  [checksum_index_file] is [checksums.json]. *)
Record t := {
  data_files : gmap string (list Z);
  meta_files : gmap string (option ChunkMeta);
  checksum_index_file : option (gmap string string);
  chunk_checksums_ : gmap string string;
  stored_chunks_ : gset string;
}.

(** How one call of [Utils::writeFile] ends: the stream opened and took
    every byte; it did not open; or it opened (truncating the file) and
    went bad after [written] bytes. *)
Inductive write_outcome :=
  | WriteOk
  | OpenFailed
  | WriteFailed (written : nat).

(** The disk's behaviour during one [writeChunk]: the data write, the
    sidecar write ([saveChunkMetadata], with the time it stamps), and
    whether [unlink] succeeds. *)
Record disk_io := {
  data_write : write_outcome;
  meta_write : write_outcome;
  meta_time : Z;
  unlink_ok : bool;
}.

Definition no_fault : disk_io :=
  {| data_write := WriteOk; meta_write := WriteOk; meta_time := 0; unlink_ok := true |}.

(** [Utils::writeFile] on the data file of [chunk_id]. *)
Definition writeFile (files : gmap string (list Z)) (chunk_id : string)
    (data : list Z) (o : write_outcome) : bool * gmap string (list Z) :=
  match o with
  | WriteOk => (true, <[chunk_id := data]> files)
  | OpenFailed => (false, files)
  | WriteFailed n => (false, <[chunk_id := take n data]> files)
  end.

(** [Utils::deleteFile]. *)
Definition deleteFile {A} (files : gmap string A) (chunk_id : string) (ok : bool)
  : bool * gmap string A :=
  if ok && bool_decide (is_Some (files !! chunk_id))
  then (true, delete chunk_id files) else (false, files).

(** [Utils::readFile]: the empty vector when the file cannot be opened. *)
Definition readFile (files : gmap string (list Z)) (chunk_id : string) : list Z :=
  default [] (files !! chunk_id).

Definition saveChunkMetadata (metas : gmap string (option ChunkMeta))
    (chunk_id checksum : string) (is_encrypted is_erasure_coded : bool)
    (now : Z) (o : write_outcome) : bool * gmap string (option ChunkMeta) :=
  match o with
  | WriteOk => (true, <[chunk_id := Some {| meta_checksum := checksum;
                                            meta_is_encrypted := is_encrypted;
                                            meta_is_erasure_coded := is_erasure_coded;
                                            meta_created_time := now |}]> metas)
  | OpenFailed => (false, metas)
  | WriteFailed _ => (false, <[chunk_id := None]> metas)
  end.

Definition loadChunkMetadata (metas : gmap string (option ChunkMeta))
    (chunk_id : string) : option ChunkMeta :=
  mjoin (metas !! chunk_id).

Section Storage.
Context `{HashOracle}.

Definition writeChunk (st : t) (chunk_id : string) (data : list Z)
    (is_encrypted is_erasure_coded : bool) (io : disk_io) : bool * t :=
  let checksum := calculateSHA256 data in
  let '(written, files) := writeFile (data_files st) chunk_id data (data_write io) in
  if negb written
  then (false, {| data_files := files; meta_files := meta_files st;
                  checksum_index_file := checksum_index_file st;
                  chunk_checksums_ := chunk_checksums_ st;
                  stored_chunks_ := stored_chunks_ st |})
  else
    let '(saved, metas) :=
      saveChunkMetadata (meta_files st) chunk_id checksum is_encrypted is_erasure_coded
                        (meta_time io) (meta_write io) in
    if negb saved
    then (false, {| data_files := snd (deleteFile files chunk_id (unlink_ok io));
                    meta_files := metas;
                    checksum_index_file := checksum_index_file st;
                    chunk_checksums_ := chunk_checksums_ st;
                    stored_chunks_ := stored_chunks_ st |})
    else (true, {| data_files := files; meta_files := metas;
                   checksum_index_file := checksum_index_file st;
                   chunk_checksums_ := <[chunk_id := checksum]> (chunk_checksums_ st);
                   stored_chunks_ := {[chunk_id]} ∪ stored_chunks_ st |}).

(** The checksum a read is checked against: the in-memory index first,
    the sidecar otherwise. *)
Definition expected_checksum (st : t) (chunk_id : string) : option string :=
  match chunk_checksums_ st !! chunk_id with
  | Some c => Some c
  | None => meta_checksum <$> loadChunkMetadata (meta_files st) chunk_id
  end.

(** [ChunkStorage::readChunk]; the empty vector is the failure value. *)
Definition readChunk (st : t) (chunk_id : string) : list Z :=
  if negb (bool_decide (chunk_id ∈ stored_chunks_ st)) then [] else
  let data := readFile (data_files st) chunk_id in
  if bool_decide (data = []) then [] else
  match expected_checksum st chunk_id with
  | None => data
  | Some expected =>
      if bool_decide (calculateSHA256 data = expected) then data else []
  end.

Definition verifyChunkIntegrity (st : t) (chunk_id : string) : bool :=
  if negb (bool_decide (chunk_id ∈ stored_chunks_ st)) then false else
  let data := readFile (data_files st) chunk_id in
  if bool_decide (data = []) then false else
  let actual_checksum := calculateSHA256 data in
  match chunk_checksums_ st !! chunk_id with
  | None =>
      match loadChunkMetadata (meta_files st) chunk_id with
      | None => false
      | Some m => bool_decide (actual_checksum = meta_checksum m)
      end
  | Some c => bool_decide (actual_checksum = c)
  end.
End Storage.

Definition getChunkChecksum (st : t) (chunk_id : string) : string :=
  match chunk_checksums_ st !! chunk_id with
  | Some c => c
  | None =>
      match loadChunkMetadata (meta_files st) chunk_id with
      | Some m => meta_checksum m
      | None => EmptyString
      end
  end.

Definition chunkExists (st : t) (chunk_id : string) : bool :=
  bool_decide (chunk_id ∈ stored_chunks_ st).

Definition getAllChunkIds (st : t) : list string := elements (stored_chunks_ st).


(** [ChunkStorage::deleteChunk]; the two [unlink] outcomes are arguments. *)
Definition deleteChunk (st : t) (chunk_id : string) (data_ok meta_ok : bool) : bool * t :=
  if negb (bool_decide (chunk_id ∈ stored_chunks_ st)) then (false, st) else
  let '(data_deleted, files) := deleteFile (data_files st) chunk_id data_ok in
  let '(metadata_deleted, metas) := deleteFile (meta_files st) chunk_id meta_ok in
  if negb data_deleted || negb metadata_deleted
  then (false, {| data_files := files; meta_files := metas;
                  checksum_index_file := checksum_index_file st;
                  chunk_checksums_ := chunk_checksums_ st;
                  stored_chunks_ := stored_chunks_ st |})
  else (true, {| data_files := files; meta_files := metas;
                 checksum_index_file := checksum_index_file st;
                 chunk_checksums_ := delete chunk_id (chunk_checksums_ st);
                 stored_chunks_ := stored_chunks_ st ∖ {[chunk_id]} |}).



Definition empty : t :=
  {| data_files := ∅; meta_files := ∅; checksum_index_file := None;
     chunk_checksums_ := ∅; stored_chunks_ := ∅ |}.



Section Rebuild.
Context `{HashOracle}.


End Rebuild.

End ChunkStorage.

(** * common/crypto.cpp: the key file of [KeyManager] *)

Module KeyFile.
Import Crypto.


Definition string_of_bytes (l : list Z) : string :=
  string_of_list_ascii (map (fun b => ascii_of_nat (Z.to_nat b)) l).



(** [Crypto::deriveKeyFromPassword].  [kdf] stands for OpenSSL's
    [PKCS5_PBKDF2_HMAC] (10000 rounds of SHA-256): the bytes it wrote to
    the key vector, [None] when it did not return 1. *)
Definition deriveKeyFromPassword (kdf : string → list Z → option (list Z))
    (password : string) (salt : list Z) : string :=
  match kdf password salt with
  | None => EmptyString
  | Some derived => to_hex (rand_vector KEY_SIZE derived)
  end.


Section Cipher.
Context `{AesGcm}.


(** [json.find] of a double quote, from [pos] on. *)
Fixpoint find_quote (json : string) (pos : nat) : option nat :=
  match json, pos with
  | EmptyString, _ => None
  | String c rest, O =>
      if bool_decide (c = ascii_of_nat 34) then Some 0%nat
      else S <$> find_quote rest 0
  | String _ rest, S pos' => S <$> find_quote rest pos'
  end.

(** The parsing loop of [loadKeysFromFile]; every round moves [pos]
    forward, so [length json] rounds are enough. *)
Fixpoint parse_loop (rounds : nat) (json : string) (pos : nat)
    (keys_ : gmap string string) : gmap string string :=
  match rounds with
  | O => keys_
  | S rounds' =>
      match find_quote json pos with
      | None => keys_
      | Some pos =>
          let keyStart := (pos + 1)%nat in
          match find_quote json keyStart with
          | None => keys_
          | Some keyEnd =>
              let key := substring keyStart (keyEnd - keyStart) json in
              match find_quote json (keyEnd + 1) with
              | None => keys_
              | Some pos =>
                  let valueStart := (pos + 1)%nat in
                  match find_quote json valueStart with
                  | None => keys_
                  | Some valueEnd =>
                      let value := substring valueStart (valueEnd - valueStart) json in
                      parse_loop rounds' json (valueEnd + 1) (<[key := value]> keys_)
                  end
              end
          end
      end
  end.

(** How [loadKeysFromFile] ends: it returns, or the vector for the
    encrypted bytes cannot be allocated and [std::length_error] leaves
    the function. *)
Inductive load_outcome :=
  | Loaded (ok : bool) (keys_ : gmap string string)
  | LengthError.

(** [KeyManager::loadKeysFromFile].  On a file of fewer than [SALT_SIZE]
    bytes the first [read] sets the fail bit, [tellg] returns -1, and
    [totalSize - SALT_SIZE] is close to 2^64. *)
Definition loadKeysFromFile (keys_ : gmap string string) (masterPassword : string)
    (kdf : string → list Z → option (list Z)) (file : option (list Z)) : load_outcome :=
  match file with
  | None => Loaded false keys_
  | Some content =>
      let salt := take SALT_SIZE content in
      if (length content <? SALT_SIZE)%nat then LengthError else
      let encrypted := drop SALT_SIZE content in
      let derivedKey := deriveKeyFromPassword kdf masterPassword salt in
      let decrypted := decrypt encrypted derivedKey in
      if bool_decide (decrypted = []) then Loaded false keys_ else
      let json := string_of_bytes decrypted in
      Loaded true (parse_loop (String.length json) json 0 ∅)
  end.
End Cipher.

End KeyFile.

(** * chunkserver/chunk_server.cpp *)

Module ChunkServer.

Record WriteChunkRequest := {
  w_chunk_id : string;
  w_data : list Z;
  w_checksum : string;
  w_is_encrypted : bool;
  w_is_erasure_coded : bool;
}.

Record WriteChunkResponse := {
  w_success : bool;
  w_stored_checksum : string;
  w_message : string;
}.

Record ReadChunkRequest := {
  r_chunk_id : string;
  r_verify_integrity : bool;
}.

Record ReadChunkResponse := {
  r_success : bool;
  r_data : list Z;
  r_checksum : string;
  r_message : string;
}.

Section Handlers.
Context `{HashOracle}.

Definition WriteChunk (storage_ : ChunkStorage.t) (request : WriteChunkRequest)
    (io : ChunkStorage.disk_io) : WriteChunkResponse * ChunkStorage.t :=
  let chunk_id := w_chunk_id request in
  let data := w_data request in
  if negb (bool_decide (w_checksum request = EmptyString))
     && negb (bool_decide (calculateSHA256 data = w_checksum request))
  then ({| w_success := false; w_stored_checksum := EmptyString;
           w_message := "Checksum mismatch" |}, storage_)
  else
    let final_data := data in
    let '(success, storage') :=
      ChunkStorage.writeChunk storage_ chunk_id final_data
        (w_is_encrypted request) (w_is_erasure_coded request) io in
    if success
    then ({| w_success := true; w_stored_checksum := calculateSHA256 final_data;
             w_message := "Chunk written successfully" |}, storage')
    else ({| w_success := false; w_stored_checksum := EmptyString;
             w_message := "Failed to write chunk to storage" |}, storage').

Definition ReadChunk (storage_ : ChunkStorage.t) (request : ReadChunkRequest)
  : ReadChunkResponse :=
  let chunk_id := r_chunk_id request in
  let data := ChunkStorage.readChunk storage_ chunk_id in
  if bool_decide (data = [])
  then {| r_success := false; r_data := []; r_checksum := EmptyString;
          r_message := "Chunk not found or corrupted" |}
  else if r_verify_integrity request
          && negb (ChunkStorage.verifyChunkIntegrity storage_ chunk_id)
  then {| r_success := false; r_data := []; r_checksum := EmptyString;
          r_message := "Chunk integrity verification failed" |}
  else {| r_success := true; r_data := data; r_checksum := calculateSHA256 data;
          r_message := "Chunk read successfully" |}.
(** [CheckChunkIntegrity]: [is_valid] and [checksum] of the response. *)
Definition CheckChunkIntegrity (storage_ : ChunkStorage.t)
    (chunk_id : string) : bool * string :=
  (ChunkStorage.verifyChunkIntegrity storage_ chunk_id,
   ChunkStorage.getChunkChecksum storage_ chunk_id).

End Handlers.

End ChunkServer.

(** * master/metadata_manager.h, master/metadata_manager.cpp *)

Module FileMetadata.
Record t := {
  file_id : string;
  filename : string;
  size : Z;
  created_time : Z;
  modified_time : Z;
  chunk_ids : list string;
  is_encrypted : bool;
  encryption_key_id : string;
  is_erasure_coded : bool;
  checksum : string;
}.

Definition with_chunk_ids (m : t) (ids : list string) : t :=
  {| file_id := file_id m; filename := filename m; size := size m;
     created_time := created_time m; modified_time := modified_time m;
     chunk_ids := ids; is_encrypted := is_encrypted m;
     encryption_key_id := encryption_key_id m;
     is_erasure_coded := is_erasure_coded m; checksum := checksum m |}.

Definition with_modified_time (m : t) (now : Z) : t :=
  {| file_id := file_id m; filename := filename m; size := size m;
     created_time := created_time m; modified_time := now;
     chunk_ids := chunk_ids m; is_encrypted := is_encrypted m;
     encryption_key_id := encryption_key_id m;
     is_erasure_coded := is_erasure_coded m; checksum := checksum m |}.
End FileMetadata.

Module ChunkMetadata.
Record t := {
  chunk_id : string;
  server_locations : list string;
  size : Z;
  checksum : string;
  is_erasure_coded : bool;
  erasure_group_id : string;
  erasure_block_index : Z;
  is_parity_block : bool;
  created_time : Z;
  last_accessed_time : Z;
}.

Definition with_server_locations (m : t) (locations : list string) : t :=
  {| chunk_id := chunk_id m; server_locations := locations; size := size m;
     checksum := checksum m; is_erasure_coded := is_erasure_coded m;
     erasure_group_id := erasure_group_id m;
     erasure_block_index := erasure_block_index m;
     is_parity_block := is_parity_block m; created_time := created_time m;
     last_accessed_time := last_accessed_time m |}.
End ChunkMetadata.

Module ServerMetadata.
Record t := {
  server_id : string;
  address : string;
  port : Z;
  total_space : Z;
  free_space : Z;
  chunk_count : Z;
  cpu_usage : float;
  memory_usage : float;
  is_healthy : bool;
  last_heartbeat : Z;
  stored_chunks : gset string;
}.

(** [stored_chunks] replaced, [chunk_count = stored_chunks.size()]. *)
Definition with_stored_chunks (m : t) (chunks : gset string) : t :=
  {| server_id := server_id m; address := address m; port := port m;
     total_space := total_space m; free_space := free_space m;
     chunk_count := Z.of_nat (size chunks);
     cpu_usage := cpu_usage m; memory_usage := memory_usage m;
     is_healthy := is_healthy m; last_heartbeat := last_heartbeat m;
     stored_chunks := chunks |}.

Definition with_health (m : t) (healthy : bool) (heartbeat : Z) : t :=
  {| server_id := server_id m; address := address m; port := port m;
     total_space := total_space m; free_space := free_space m;
     chunk_count := chunk_count m;
     cpu_usage := cpu_usage m; memory_usage := memory_usage m;
     is_healthy := healthy; last_heartbeat := heartbeat;
     stored_chunks := stored_chunks m |}.
End ServerMetadata.

Module MetadataManager.

(** The six maps of the manager.  Iterating an unordered container is
    [map_to_list] / [elements]: some fixed order, as in C++. *)
Record t := {
  files_ : gmap string FileMetadata.t;
  file_id_to_name_ : gmap string string;
  chunks_ : gmap string ChunkMetadata.t;
  servers_ : gmap string ServerMetadata.t;
  chunk_to_servers_ : gmap string (gset string);
  server_to_chunks_ : gmap string (gset string);
}.

Definition empty : t :=
  {| files_ := ∅; file_id_to_name_ := ∅; chunks_ := ∅; servers_ := ∅;
     chunk_to_servers_ := ∅; server_to_chunks_ := ∅ |}.

Definition set_files (st : t) (files : gmap string FileMetadata.t)
    (names : gmap string string) : t :=
  {| files_ := files; file_id_to_name_ := names; chunks_ := chunks_ st;
     servers_ := servers_ st; chunk_to_servers_ := chunk_to_servers_ st;
     server_to_chunks_ := server_to_chunks_ st |}.

Definition set_chunks (st : t) (chunks : gmap string ChunkMetadata.t) : t :=
  {| files_ := files_ st; file_id_to_name_ := file_id_to_name_ st; chunks_ := chunks;
     servers_ := servers_ st; chunk_to_servers_ := chunk_to_servers_ st;
     server_to_chunks_ := server_to_chunks_ st |}.

Definition set_servers (st : t) (servers : gmap string ServerMetadata.t) : t :=
  {| files_ := files_ st; file_id_to_name_ := file_id_to_name_ st;
     chunks_ := chunks_ st; servers_ := servers;
     chunk_to_servers_ := chunk_to_servers_ st;
     server_to_chunks_ := server_to_chunks_ st |}.

Definition set_chunk_to_servers (st : t) (m : gmap string (gset string)) : t :=
  {| files_ := files_ st; file_id_to_name_ := file_id_to_name_ st;
     chunks_ := chunks_ st; servers_ := servers_ st;
     chunk_to_servers_ := m; server_to_chunks_ := server_to_chunks_ st |}.

Definition set_server_to_chunks (st : t) (m : gmap string (gset string)) : t :=
  {| files_ := files_ st; file_id_to_name_ := file_id_to_name_ st;
     chunks_ := chunks_ st; servers_ := servers_ st;
     chunk_to_servers_ := chunk_to_servers_ st; server_to_chunks_ := m |}.

(** [m[k].insert(x)] and [m[k].erase(x)] on a map of sets: [operator[]]
    creates the empty set when the key is missing. *)
Definition set_insert (m : gmap string (gset string)) (k x : string)
  : gmap string (gset string) :=
  <[k := {[x]} ∪ default ∅ (m !! k)]> m.

Definition set_erase (m : gmap string (gset string)) (k x : string)
  : gmap string (gset string) :=
  <[k := default ∅ (m !! k) ∖ {[x]}]> m.

(** [stored_chunks.insert / erase] and the [chunk_count] update on the
    record of [server_id], when there is one. *)
Definition server_insert_chunk (servers : gmap string ServerMetadata.t)
    (server_id chunk_id : string) : gmap string ServerMetadata.t :=
  match servers !! server_id with
  | Some sm => <[server_id := ServerMetadata.with_stored_chunks sm
                    ({[chunk_id]} ∪ ServerMetadata.stored_chunks sm)]> servers
  | None => servers
  end.

Definition server_erase_chunk (servers : gmap string ServerMetadata.t)
    (server_id chunk_id : string) : gmap string ServerMetadata.t :=
  match servers !! server_id with
  | Some sm => <[server_id := ServerMetadata.with_stored_chunks sm
                    (ServerMetadata.stored_chunks sm ∖ {[chunk_id]})]> servers
  | None => servers
  end.

(** [locations.erase(std::remove(..., server_id), locations.end())]. *)
Definition remove_location (locations : list string) (server_id : string) : list string :=
  List.filter (fun s => negb (bool_decide (s = server_id))) locations.

(** The body of the loops of [addChunk] and [updateChunkLocations]. *)
Definition link (chunk_id : string) (st : t) (server_id : string) : t :=
  {| files_ := files_ st; file_id_to_name_ := file_id_to_name_ st;
     chunks_ := chunks_ st;
     servers_ := server_insert_chunk (servers_ st) server_id chunk_id;
     chunk_to_servers_ := set_insert (chunk_to_servers_ st) chunk_id server_id;
     server_to_chunks_ := set_insert (server_to_chunks_ st) server_id chunk_id |}.

(** The bodies of the loops of [removeChunkFromAllServers] and of
    [removeAllChunksFromServer]. *)
Definition unlink_server (chunk_id : string) (st : t) (server_id : string) : t :=
  {| files_ := files_ st; file_id_to_name_ := file_id_to_name_ st;
     chunks_ := chunks_ st;
     servers_ := server_erase_chunk (servers_ st) server_id chunk_id;
     chunk_to_servers_ := chunk_to_servers_ st;
     server_to_chunks_ := set_erase (server_to_chunks_ st) server_id chunk_id |}.

Definition unlink_chunk (server_id : string) (st : t) (chunk_id : string) : t :=
  {| files_ := files_ st; file_id_to_name_ := file_id_to_name_ st;
     chunks_ :=
       match chunks_ st !! chunk_id with
       | Some cm =>
           <[chunk_id := ChunkMetadata.with_server_locations cm
               (remove_location (ChunkMetadata.server_locations cm) server_id)]>
             (chunks_ st)
       | None => chunks_ st
       end;
     servers_ := servers_ st;
     chunk_to_servers_ := set_erase (chunk_to_servers_ st) chunk_id server_id;
     server_to_chunks_ := server_to_chunks_ st |}.

Definition removeChunkFromAllServers (st : t) (chunk_id : string) : t :=
  match chunk_to_servers_ st !! chunk_id with
  | None => st
  | Some servers =>
      let st := fold_left (unlink_server chunk_id) (elements servers) st in
      set_chunk_to_servers st (delete chunk_id (chunk_to_servers_ st))
  end.

Definition removeAllChunksFromServer (st : t) (server_id : string) : t :=
  match server_to_chunks_ st !! server_id with
  | None => st
  | Some chunks =>
      let st := fold_left (unlink_chunk server_id) (elements chunks) st in
      set_server_to_chunks st (<[server_id := ∅]> (server_to_chunks_ st))
  end.

Definition createFile (st : t) (filename : string) (metadata : FileMetadata.t) : bool * t :=
  match files_ st !! filename with
  | Some _ => (false, st)
  | None => (true, set_files st (<[filename := metadata]> (files_ st))
                     (<[FileMetadata.file_id metadata := filename]> (file_id_to_name_ st)))
  end.

Definition deleteFile (st : t) (filename : string) : bool * t :=
  match files_ st !! filename with
  | None => (false, st)
  | Some metadata =>
      let st := fold_left (fun st chunk_id =>
                             let st := removeChunkFromAllServers st chunk_id in
                             set_chunks st (delete chunk_id (chunks_ st)))
                          (FileMetadata.chunk_ids metadata) st in
      (true, set_files st (delete filename (files_ st))
                (delete (FileMetadata.file_id metadata) (file_id_to_name_ st)))
  end.

Definition getFileMetadata (st : t) (filename : string) : option FileMetadata.t :=
  files_ st !! filename.

Definition listFiles (st : t) (path_prefix : string) : list FileMetadata.t :=
  map snd (List.filter (fun p => bool_decide (path_prefix = EmptyString)
                                 || String.prefix path_prefix (fst p))
                       (map_to_list (files_ st))).

Definition updateFileMetadata (st : t) (filename : string) (metadata : FileMetadata.t)
  : bool * t :=
  match files_ st !! filename with
  | None => (false, st)
  | Some _ => (true, set_files st (<[filename := metadata]> (files_ st))
                       (file_id_to_name_ st))
  end.

Definition addChunk (st : t) (chunk_id : string) (metadata : ChunkMetadata.t) : t :=
  let st := set_chunks st (<[chunk_id := metadata]> (chunks_ st)) in
  fold_left (link chunk_id) (ChunkMetadata.server_locations metadata) st.

Definition removeChunk (st : t) (chunk_id : string) : bool * t :=
  match chunks_ st !! chunk_id with
  | None => (false, st)
  | Some _ =>
      let st := removeChunkFromAllServers st chunk_id in
      (true, set_chunks st (delete chunk_id (chunks_ st)))
  end.

Definition getChunkMetadata (st : t) (chunk_id : string) : option ChunkMetadata.t :=
  chunks_ st !! chunk_id.

Definition updateChunkLocations (st : t) (chunk_id : string) (locations : list string)
  : bool * t :=
  match chunks_ st !! chunk_id with
  | None => (false, st)
  | Some cm =>
      let st := removeChunkFromAllServers st chunk_id in
      let st := set_chunks st
                  (<[chunk_id := ChunkMetadata.with_server_locations cm locations]>
                     (chunks_ st)) in
      (true, fold_left (link chunk_id) locations st)
  end.

Definition registerServer (st : t) (server_id : string) (metadata : ServerMetadata.t) : t :=
  let st := set_servers st (<[server_id := metadata]> (servers_ st)) in
  set_server_to_chunks st
    (<[server_id := default ∅ (server_to_chunks_ st !! server_id)]> (server_to_chunks_ st)).

Definition unregisterServer (st : t) (server_id : string) : bool * t :=
  match servers_ st !! server_id with
  | None => (false, st)
  | Some _ =>
      let st := removeAllChunksFromServer st server_id in
      let st := set_servers st (delete server_id (servers_ st)) in
      (true, set_server_to_chunks st (delete server_id (server_to_chunks_ st)))
  end.

Definition updateServerMetadata (st : t) (server_id : string) (metadata : ServerMetadata.t)
  : bool * t :=
  match servers_ st !! server_id with
  | None => (false, st)
  | Some _ => (true, set_servers st (<[server_id := metadata]> (servers_ st)))
  end.

Definition getServerMetadata (st : t) (server_id : string) : option ServerMetadata.t :=
  servers_ st !! server_id.

Definition getAllServers (st : t) : list ServerMetadata.t :=
  map snd (map_to_list (servers_ st)).

Definition getHealthyServers (st : t) : list ServerMetadata.t :=
  List.filter ServerMetadata.is_healthy (map snd (map_to_list (servers_ st))).

Definition addChunkToServer (st : t) (chunk_id server_id : string) : t :=
  {| files_ := files_ st; file_id_to_name_ := file_id_to_name_ st;
     chunks_ :=
       match chunks_ st !! chunk_id with
       | Some cm =>
           let locations := ChunkMetadata.server_locations cm in
           if bool_decide (server_id ∈ locations) then chunks_ st
           else <[chunk_id := ChunkMetadata.with_server_locations cm
                                 (locations ++ [server_id])]> (chunks_ st)
       | None => chunks_ st
       end;
     servers_ := server_insert_chunk (servers_ st) server_id chunk_id;
     chunk_to_servers_ := set_insert (chunk_to_servers_ st) chunk_id server_id;
     server_to_chunks_ := set_insert (server_to_chunks_ st) server_id chunk_id |}.

Definition removeChunkFromServer (st : t) (chunk_id server_id : string) : t :=
  {| files_ := files_ st; file_id_to_name_ := file_id_to_name_ st;
     chunks_ :=
       match chunks_ st !! chunk_id with
       | Some cm =>
           <[chunk_id := ChunkMetadata.with_server_locations cm
                (remove_location (ChunkMetadata.server_locations cm) server_id)]>
             (chunks_ st)
       | None => chunks_ st
       end;
     servers_ := server_erase_chunk (servers_ st) server_id chunk_id;
     chunk_to_servers_ := set_erase (chunk_to_servers_ st) chunk_id server_id;
     server_to_chunks_ := set_erase (server_to_chunks_ st) server_id chunk_id |}.

Definition getServersForChunk (st : t) (chunk_id : string) : list string :=
  match chunk_to_servers_ st !! chunk_id with
  | None => []
  | Some s => elements s
  end.

Definition getChunksForServer (st : t) (server_id : string) : list string :=
  match server_to_chunks_ st !! server_id with
  | None => []
  | Some s => elements s
  end.

Definition markServerUnhealthy (st : t) (server_id : string) : t :=
  match servers_ st !! server_id with
  | Some sm => set_servers st
      (<[server_id := ServerMetadata.with_health sm false
                        (ServerMetadata.last_heartbeat sm)]> (servers_ st))
  | None => st
  end.

Definition markServerHealthy (st : t) (server_id : string) (now : Z) : t :=
  match servers_ st !! server_id with
  | Some sm => set_servers st
      (<[server_id := ServerMetadata.with_health sm true now]> (servers_ st))
  | None => st
  end.

(** *** The three sides of the chunk-server relation

    For a chunk [c] and a server [s]: [s] is listed in the chunk's
    [server_locations]; [c] is in the server's [stored_chunks]; the pair is
    in [chunk_to_servers_] and in [server_to_chunks_]. *)

Definition stores_in (servers : gmap string ServerMetadata.t) (c s : string) : bool :=
  match servers !! s with
  | Some sm => bool_decide (c ∈ ServerMetadata.stored_chunks sm)
  | None => false
  end.

Definition index_in (m : gmap string (gset string)) (k x : string) : bool :=
  bool_decide (x ∈ default ∅ (m !! k)).

Definition has_location (st : t) (c s : string) : bool :=
  match chunks_ st !! c with
  | Some cm => bool_decide (s ∈ ChunkMetadata.server_locations cm)
  | None => false
  end.

Definition stores (st : t) (c s : string) : bool := stores_in (servers_ st) c s.

Definition in_chunk_index (st : t) (c s : string) : bool :=
  index_in (chunk_to_servers_ st) c s.

Definition in_server_index (st : t) (c s : string) : bool :=
  index_in (server_to_chunks_ st) s c.

Definition sides_agree (st : t) : Prop :=
  ∀ c s, has_location st c s = stores st c s
         ∧ stores st c s = in_chunk_index st c s && in_server_index st c s.

Definition registered (st : t) (s : string) : Prop := is_Some (servers_ st !! s).

(** The server table is keyed by server id: every record sits under its
    own [server_id], as [RegisterChunkServer], [SendHeartbeat] and the
    loader of the metadata file build it. *)
Definition keyed_by_id (st : t) : Prop :=
  ∀ k sm, servers_ st !! k = Some sm → ServerMetadata.server_id sm = k.

(** A master that knows one chunk server [s1] with an empty inventory. *)
Definition one_server : t :=
  registerServer MetadataManager.empty "s1"
    {| ServerMetadata.server_id := "s1"; ServerMetadata.address := "10.0.0.1";
       ServerMetadata.port := 60051; ServerMetadata.total_space := 1000000000;
       ServerMetadata.free_space := 1000000000; ServerMetadata.chunk_count := 0;
       ServerMetadata.cpu_usage := 0.0%float; ServerMetadata.memory_usage := 0.0%float;
       ServerMetadata.is_healthy := true; ServerMetadata.last_heartbeat := 0;
       ServerMetadata.stored_chunks := ∅ |}.

(** A chunk record with the given locations. *)
Definition chunk_at (c : string) (locations : list string) : ChunkMetadata.t :=
  {| ChunkMetadata.chunk_id := c; ChunkMetadata.server_locations := locations;
     ChunkMetadata.size := 0; ChunkMetadata.checksum := EmptyString;
     ChunkMetadata.is_erasure_coded := false;
     ChunkMetadata.erasure_group_id := EmptyString;
     ChunkMetadata.erasure_block_index := 0; ChunkMetadata.is_parity_block := false;
     ChunkMetadata.created_time := 0; ChunkMetadata.last_accessed_time := 0 |}.

End MetadataManager.

(** * common/utils.h: constants and [Config] *)

Module Config.
Definition CHUNK_SIZE : Z := 4 * 1024 * 1024.
Definition DEFAULT_REPLICATION_FACTOR : Z := 3.
Definition ERASURE_CODING_DATA_BLOCKS : nat := 4.
Definition ERASURE_CODING_PARITY_BLOCKS : nat := 2.

Record t := {
  replication_factor_ : Z;
  chunk_size_ : Z;
}.

Definition default : t :=
  {| replication_factor_ := DEFAULT_REPLICATION_FACTOR; chunk_size_ := CHUNK_SIZE |}.
End Config.

(** The protobuf message [ChunkInfo]. *)
Module ChunkInfo.
Record t := {
  chunk_id : string;
  server_addresses : list string;
  size : Z;
  checksum : string;
  is_erasure_coded : bool;
}.
End ChunkInfo.

(** * master/chunk_allocator.cpp *)

Module ChunkAllocator.

Inductive AllocationStrategy := ROUND_ROBIN | LEAST_LOADED | RANDOM | ZONE_AWARE.

Record t := {
  strategy_ : AllocationStrategy;
  server_zones_ : gmap string string;
  round_robin_index_ : nat;
}.

(** The constructor. *)
Definition init : t :=
  {| strategy_ := LEAST_LOADED; server_zones_ := ∅; round_robin_index_ := 0 |}.

Definition set_round_robin (a : t) (i : nat) : t :=
  {| strategy_ := strategy_ a; server_zones_ := server_zones_ a;
     round_robin_index_ := i |}.

(** What one call of [allocateServersForChunk] takes from outside: the
    draws of [std::shuffle] and the clock. *)
Record env := {
  shuffle_draws : list nat;
  now : Z;
}.

(** [static_cast<double>] of an [int64_t] (for values above [-2^63]). *)
Definition double_of_int64 (z : Z) : float :=
  if (z <? 0)%Z then PrimFloat.opp (PrimFloat.of_uint63 (Uint63.of_Z (- z)))
  else PrimFloat.of_uint63 (Uint63.of_Z z).

Definition calculateServerLoad (server : ServerMetadata.t) : float :=
  let storage_load :=
    (1.0 - double_of_int64 (ServerMetadata.free_space server)
           / double_of_int64 (ServerMetadata.total_space server))%float in
  let cpu_load := (ServerMetadata.cpu_usage server / 100.0)%float in
  let memory_load := (ServerMetadata.memory_usage server / 100.0)%float in
  (0.5 * storage_load + 0.3 * cpu_load + 0.2 * memory_load)%float.

Definition hasEnoughSpace (server : ServerMetadata.t) (required_space : Z) : bool :=
  let space_after_allocation := (ServerMetadata.free_space server - required_space)%Z in
  let min_free_space := Z.quot (ServerMetadata.total_space server) 10 in
  (min_free_space <=? space_after_allocation)%Z.

Definition getAvailableServers (meta : MetadataManager.t) (exclude : list string)
  : list ServerMetadata.t :=
  List.filter (fun server =>
                 negb (bool_decide (ServerMetadata.server_id server ∈ exclude))
                 && hasEnoughSpace server Config.CHUNK_SIZE)
              (MetadataManager.getHealthyServers meta).

Definition getServerZone (a : t) (server_id : string) : string :=
  default "default" (server_zones_ a !! server_id).

(** The loop of [allocateRoundRobin]; [rr] is [round_robin_index_]. *)
Fixpoint round_robin_loop (count : nat) (available : list ServerMetadata.t) (rr : nat)
  : list string * nat :=
  match count with
  | O => ([], rr)
  | S count' =>
      match available with
      | [] => ([], rr)
      | _ =>
          let index := (rr mod length available)%nat in
          let picked := default EmptyString
                          (ServerMetadata.server_id <$> available !! index) in
          let rr := S rr in
          let available := delete index available in
          let rr := if (length available <=? rr)%nat
                       && negb (bool_decide (available = [])) then 0%nat else rr in
          let '(rest, rr) := round_robin_loop count' available rr in
          (picked :: rest, rr)
      end
  end.

Definition allocateRoundRobin (a : t) (meta : MetadataManager.t) (count : Z)
    (exclude : list string) : list string * t :=
  let available_servers := getAvailableServers meta exclude in
  let '(result, rr) :=
    round_robin_loop (Z.to_nat count) available_servers (round_robin_index_ a) in
  (result, set_round_robin a rr).

(** [std::sort] with the comparator [load a < load b], as an insertion
    sort. *)
Fixpoint insert_by_load (s : ServerMetadata.t) (l : list ServerMetadata.t)
  : list ServerMetadata.t :=
  match l with
  | [] => [s]
  | x :: l' =>
      if PrimFloat.ltb (calculateServerLoad s) (calculateServerLoad x)
      then s :: x :: l' else x :: insert_by_load s l'
  end.

Definition sort_by_load (l : list ServerMetadata.t) : list ServerMetadata.t :=
  fold_right insert_by_load [] l.

Definition allocateLeastLoaded (meta : MetadataManager.t) (count : Z)
    (exclude : list string) : list string :=
  let available_servers := sort_by_load (getAvailableServers meta exclude) in
  map ServerMetadata.server_id (take (Z.to_nat count) available_servers).

(** [std::shuffle]: each draw picks the next element among those left. *)
Fixpoint shuffle {A} (draws : list nat) (l : list A) : list A :=
  match draws, l with
  | _, [] => []
  | [], _ => l
  | d :: draws', x :: l' =>
      let i := (d mod length l)%nat in
      default x (l !! i) :: shuffle draws' (delete i l)
  end.

Definition allocateRandom (meta : MetadataManager.t) (count : Z)
    (exclude : list string) (draws : list nat) : list string :=
  let available_servers := shuffle draws (getAvailableServers meta exclude) in
  map ServerMetadata.server_id (take (Z.to_nat count) available_servers).

(** First pass of [allocateZoneAware]: one server per zone, in the order
    of the available servers, until [count] are chosen.  The test
    [result.size() >= static_cast<size_t>(count)] never holds for a
    negative [count]. *)
Definition zone_quota_reached (count : Z) (chosen : nat) : bool :=
  (0 <=? count)%Z && (count <=? Z.of_nat chosen)%Z.

Fixpoint zone_first_pass (a : t) (count : Z) (available : list ServerMetadata.t)
    (result : list string) (used_zones : gset string) : list string :=
  match available with
  | [] => result
  | server :: rest =>
      if zone_quota_reached count (length result) then result
      else
        let zone := getServerZone a (ServerMetadata.server_id server) in
        if bool_decide (zone ∈ used_zones)
        then zone_first_pass a count rest result used_zones
        else zone_first_pass a count rest
               (result ++ [ServerMetadata.server_id server]) ({[zone]} ∪ used_zones)
  end.

Definition allocateZoneAware (a : t) (meta : MetadataManager.t) (count : Z)
    (exclude : list string) : list string :=
  let available_servers := getAvailableServers meta exclude in
  let result := zone_first_pass a count available_servers [] ∅ in
  if negb (zone_quota_reached count (length result))
  then result ++ allocateLeastLoaded meta (count - Z.of_nat (length result))
                                     (exclude ++ result)
  else result.

(** A selection is good for an exclusion list when it names no server
    twice and none of the excluded ones. *)
Definition good_selection (exclude result : list string) : Prop :=
  NoDup result ∧ ∀ s, s ∈ result → s ∉ exclude.

Definition allocateServersForChunk (a : t) (meta : MetadataManager.t)
    (chunk_id : string) (replication_factor : Z) (exclude_servers : list string)
    (e : env) : list string * t * MetadataManager.t :=
  let '(allocated_servers, a) :=
    match strategy_ a with
    | ROUND_ROBIN => allocateRoundRobin a meta replication_factor exclude_servers
    | LEAST_LOADED => (allocateLeastLoaded meta replication_factor exclude_servers, a)
    | RANDOM =>
        (allocateRandom meta replication_factor exclude_servers (shuffle_draws e), a)
    | ZONE_AWARE => (allocateZoneAware a meta replication_factor exclude_servers, a)
    end in
  if bool_decide (allocated_servers = []) then ([], a, meta)
  else
    let chunk_metadata :=
      {| ChunkMetadata.chunk_id := chunk_id;
         ChunkMetadata.server_locations := allocated_servers;
         ChunkMetadata.size := 0;
         ChunkMetadata.checksum := EmptyString;
         ChunkMetadata.is_erasure_coded := false;
         ChunkMetadata.erasure_group_id := EmptyString;
         ChunkMetadata.erasure_block_index := 0;
         ChunkMetadata.is_parity_block := false;
         ChunkMetadata.created_time := now e;
         ChunkMetadata.last_accessed_time := now e |} in
    (allocated_servers, a, MetadataManager.addChunk meta chunk_id chunk_metadata).

(** [reallocateChunk]: the new servers are allocated under the name
    [chunk_id + "_realloc"], which [allocateServersForChunk] records as a
    chunk of its own.  ([servers_needed] as computed while the number of
    locations fits an [int].) *)
Definition reallocateChunk (cfg : Config.t) (a : t) (meta : MetadataManager.t)
    (chunk_id : string) (failed_servers : list string) (e : env)
  : list string * t * MetadataManager.t :=
  match MetadataManager.getChunkMetadata meta chunk_id with
  | None => ([], a, meta)
  | Some chunk_metadata =>
      let current_servers :=
        fold_left MetadataManager.remove_location failed_servers
                  (ChunkMetadata.server_locations chunk_metadata) in
      let target_replication :=
        if ChunkMetadata.is_erasure_coded chunk_metadata then 1%Z
        else Config.replication_factor_ cfg in
      let servers_needed :=
        (target_replication - Z.of_nat (length current_servers))%Z in
      if (servers_needed <=? 0)%Z then (current_servers, a, meta) else
      let '(new_servers, a, meta) :=
        allocateServersForChunk a meta (chunk_id +:+ "_realloc") servers_needed
          current_servers e in
      let all_servers := current_servers ++ new_servers in
      (new_servers, a,
       snd (MetadataManager.updateChunkLocations meta chunk_id all_servers))
  end.

Definition calculateChunkCount (cfg : Config.t) (file_size : Z) : Z :=
  Z.quot (file_size + Config.chunk_size_ cfg - 1) (Config.chunk_size_ cfg).

(** The inner loop of the erasure-coded branch of [allocateChunks]: the
    blocks [block, block + 1, ...] of one group ([todo] of them), with the
    servers taken so far.  [envs] gives the shuffle draws and the clock of
    the [n]-th call of [allocateServersForChunk]. *)
Fixpoint allocate_group_blocks (cfg : Config.t) (envs : nat → env) (data_blocks : nat)
    (group_id : string) (call : nat) (todo block : nat)
    (exclude_servers : list string) (a : t) (meta : MetadataManager.t)
  : list ChunkInfo.t * t * MetadataManager.t :=
  match todo with
  | O => ([], a, meta)
  | S todo' =>
      let chunk_id := group_id +:+ "_block_" +:+ pretty block in
      let '(servers, a, meta) :=
        allocateServersForChunk a meta chunk_id 1 exclude_servers (envs call) in
      if bool_decide (servers = [])
      then allocate_group_blocks cfg envs data_blocks group_id (S call) todo' (S block)
             exclude_servers a meta
      else
        let chunk_info :=
          {| ChunkInfo.chunk_id := chunk_id;
             ChunkInfo.server_addresses := servers;
             ChunkInfo.size := Z.quot (Config.chunk_size_ cfg) (Z.of_nat data_blocks);
             ChunkInfo.checksum := EmptyString;
             ChunkInfo.is_erasure_coded := true |} in
        let '(rest, a, meta) :=
          allocate_group_blocks cfg envs data_blocks group_id (S call) todo' (S block)
            (exclude_servers ++ servers) a meta in
        (chunk_info :: rest, a, meta)
  end.

(** The outer loop: the groups [group, group + 1, ...]; the result keeps
    the blocks of each group together. *)
Fixpoint allocate_groups (cfg : Config.t) (envs : nat → env)
    (data_blocks total_blocks : nat) (file_id : string) (todo group : nat)
    (a : t) (meta : MetadataManager.t)
  : list (list ChunkInfo.t) * t * MetadataManager.t :=
  match todo with
  | O => ([], a, meta)
  | S todo' =>
      let group_id := file_id +:+ "_group_" +:+ pretty group in
      let '(blocks, a, meta) :=
        allocate_group_blocks cfg envs data_blocks group_id (group * total_blocks)
          total_blocks 0 [] a meta in
      let '(rest, a, meta) :=
        allocate_groups cfg envs data_blocks total_blocks file_id todo' (S group) a meta in
      (blocks :: rest, a, meta)
  end.

(** The loop of the replicated branch, for the chunks [i, i + 1, ...]. *)
Fixpoint allocate_replicated (cfg : Config.t) (envs : nat → env) (file_id : string)
    (file_size : Z) (todo i : nat) (a : t) (meta : MetadataManager.t)
  : list ChunkInfo.t * t * MetadataManager.t :=
  match todo with
  | O => ([], a, meta)
  | S todo' =>
      let chunk_id := file_id +:+ "_chunk_" +:+ pretty i in
      let '(servers, a, meta) :=
        allocateServersForChunk a meta chunk_id (Config.replication_factor_ cfg) []
          (envs i) in
      let chunk_info :=
        {| ChunkInfo.chunk_id := chunk_id;
           ChunkInfo.server_addresses := servers;
           ChunkInfo.size := Z.min Config.CHUNK_SIZE
                               (file_size - Z.of_nat i * Config.CHUNK_SIZE);
           ChunkInfo.checksum := EmptyString;
           ChunkInfo.is_erasure_coded := false |} in
      let '(rest, a, meta) :=
        allocate_replicated cfg envs file_id file_size todo' (S i) a meta in
      (chunk_info :: rest, a, meta)
  end.

(** The erasure groups [allocateChunks] builds, one list of blocks per
    group; [ErasureCodedChunkManager ec_manager] has the default four data
    blocks. *)
Definition allocateErasureGroups (cfg : Config.t) (envs : nat → env) (a : t)
    (meta : MetadataManager.t) (file_id : string) (file_size : Z)
  : list (list ChunkInfo.t) * t * MetadataManager.t :=
  let data_blocks := 4%nat in
  let total_blocks := (data_blocks + Config.ERASURE_CODING_PARITY_BLOCKS)%nat in
  let chunk_size := Config.chunk_size_ cfg in
  let groups_needed := Z.quot (file_size + chunk_size - 1) chunk_size in
  allocate_groups cfg envs data_blocks total_blocks file_id
    (Z.to_nat groups_needed) 0 a meta.

Definition allocateChunks (cfg : Config.t) (envs : nat → env) (a : t)
    (meta : MetadataManager.t) (file_id : string) (file_size : Z)
    (enable_erasure_coding : bool) : list ChunkInfo.t * t * MetadataManager.t :=
  if enable_erasure_coding
  then
    let '(groups, a, meta) := allocateErasureGroups cfg envs a meta file_id file_size in
    (concat groups, a, meta)
  else
    let chunk_count := calculateChunkCount cfg file_size in
    allocate_replicated cfg envs file_id file_size (Z.to_nat chunk_count) 0 a meta.

(** *** Load balancing *)

Definition double_of_size (n : nat) : float := double_of_int64 (Z.of_nat n).

Definition calculateClusterLoadVariance (meta : MetadataManager.t) : float :=
  let servers := MetadataManager.getHealthyServers meta in
  if (length servers <? 2)%nat then 0.0%float else
  let loads := map calculateServerLoad servers in
  let mean := (fold_left PrimFloat.add loads 0.0 / double_of_size (length loads))%float in
  let variance :=
    fold_left (fun variance load => (variance + (load - mean) * (load - mean))%float)
              loads 0.0%float in
  let variance := (variance / double_of_size (length loads))%float in
  PrimFloat.sqrt variance.

(** The specification's words for the rebalance decision: "the population
    standard deviation of server loads" is the square root of the mean
    squared distance of the loads from their mean; the master rebalances
    "if > 0.30, or if any server has load > 0.80". *)
Definition population_stddev (loads : list float) : float :=
  let n := double_of_size (length loads) in
  let mean := (fold_left PrimFloat.add loads 0.0 / n)%float in
  PrimFloat.sqrt
    (fold_left (fun sum load => (sum + (load - mean) * (load - mean))%float) loads 0.0
     / n)%float.

Definition spec_shouldRebalance (meta : MetadataManager.t) : bool :=
  let healthy := MetadataManager.getHealthyServers meta in
  PrimFloat.ltb 0.3 (population_stddev (map calculateServerLoad healthy))
  || existsb (fun server => PrimFloat.ltb 0.8 (calculateServerLoad server)) healthy.

(** [std::min_element] with the comparator [accessed earlier]: the first
    smallest entry.  A chunk without metadata compares with the time of a
    default-constructed record. *)
Definition last_accessed (meta : MetadataManager.t) (chunk_id : string) : Z :=
  match MetadataManager.getChunkMetadata meta chunk_id with
  | Some cm => ChunkMetadata.last_accessed_time cm
  | None => 0
  end.

Definition least_recently_accessed (meta : MetadataManager.t) (first : string)
    (rest : list string) : string :=
  fold_left (fun best c => if (last_accessed meta c <? last_accessed meta best)%Z
                           then c else best)
            rest first.

Definition findOverloadedServers (meta : MetadataManager.t) : list (string * string) :=
  let OVERLOAD_THRESHOLD := 0.8%float in
  flat_map (fun server =>
              if PrimFloat.ltb OVERLOAD_THRESHOLD (calculateServerLoad server)
              then match MetadataManager.getChunksForServer meta
                           (ServerMetadata.server_id server) with
                   | [] => []
                   | c :: chunks =>
                       [(ServerMetadata.server_id server,
                         least_recently_accessed meta c chunks)]
                   end
              else [])
           (MetadataManager.getHealthyServers meta).

Definition findUnderloadedServers (meta : MetadataManager.t) : list string :=
  let UNDERLOAD_THRESHOLD := 0.3%float in
  map ServerMetadata.server_id
      (List.filter (fun server =>
                      PrimFloat.ltb (calculateServerLoad server) UNDERLOAD_THRESHOLD)
                   (MetadataManager.getHealthyServers meta)).

Definition shouldRebalance (meta : MetadataManager.t) : bool :=
  let variance := calculateClusterLoadVariance meta in
  let VARIANCE_THRESHOLD := 0.3%float in
  if PrimFloat.ltb VARIANCE_THRESHOLD variance then true
  else negb (bool_decide (findOverloadedServers meta = [])).

Record ReplicationTask := {
  task_chunk_id : string;
  source_server : string;
  target_server : string;
  is_urgent : bool;
}.

(** The loop of [generateRebalancingTasks]: targets are popped from the
    back of the underloaded list. *)
Fixpoint rebalancing_loop (overloaded : list (string * string))
    (underloaded_rev : list string) : list ReplicationTask :=
  match overloaded, underloaded_rev with
  | (source, chunk) :: overloaded', target :: underloaded' =>
      {| task_chunk_id := chunk; source_server := source; target_server := target;
         is_urgent := false |} :: rebalancing_loop overloaded' underloaded'
  | _, _ => []
  end.

Definition generateRebalancingTasks (meta : MetadataManager.t) : list ReplicationTask :=
  rebalancing_loop (findOverloadedServers meta) (rev (findUnderloadedServers meta)).

End ChunkAllocator.

(** * master/master_server.cpp *)

(** The protobuf message [FileInfo]. *)
Module FileInfo.
Record t := {
  filename : string;
  size : Z;
  created_time : Z;
  modified_time : Z;
  is_encrypted : bool;
  encryption_key_id : string;
  chunks : list ChunkInfo.t;
}.
End FileInfo.

Module MasterServer.

(** The master process: its metadata, its allocator, and the [KeyManager]
    singleton of the process. *)
Record t := {
  metadata_manager_ : MetadataManager.t;
  chunk_allocator_ : ChunkAllocator.t;
  keys_ : gmap string string;
}.

Definition init : t :=
  {| metadata_manager_ := MetadataManager.empty;
     chunk_allocator_ := ChunkAllocator.init; keys_ := ∅ |}.

Definition set_metadata (st : t) (meta : MetadataManager.t) : t :=
  {| metadata_manager_ := meta; chunk_allocator_ := chunk_allocator_ st;
     keys_ := keys_ st |}.

(** [validateFileName]; the literal of invalid characters ends at its
    first NUL, which leaves seven: less-than, greater-than, colon, the
    double quote (code 34), bar, question mark and star. *)
Definition invalid_chars : list ascii :=
  [ "<"%char; ">"%char; ":"%char; ascii_of_nat 34; "|"%char; "?"%char; "*"%char ].

Definition validateFileName (filename : string) : bool :=
  if bool_decide (filename = EmptyString) || (255 <? String.length filename)%nat
  then false
  else forallb (fun c => negb (bool_decide (c ∈ invalid_chars)))
               (list_ascii_of_string filename).

(** What [CreateFile] takes from outside: the 32 random characters of
    [Utils::generateFileId], the clock, and [RAND_bytes] for the key. *)
Record create_env := {
  random_id : string;
  create_now : Z;
  key_rand : option (list Z);
}.

Record CreateFileResponse := {
  cf_success : bool;
  cf_file_id : string;
  cf_message : string;
}.

Definition CreateFile (st : t) (filename : string) (file_size : Z)
    (enable_encryption enable_erasure_coding : bool) (e : create_env)
  : CreateFileResponse * t :=
  if negb (validateFileName filename)
  then ({| cf_success := false; cf_file_id := EmptyString;
           cf_message := "Invalid filename" |}, st)
  else
  match MetadataManager.getFileMetadata (metadata_manager_ st) filename with
  | Some _ => ({| cf_success := false; cf_file_id := EmptyString;
                  cf_message := "File already exists" |}, st)
  | None =>
      let file_id := "file_" +:+ random_id e in
      let key_id := if enable_encryption then file_id +:+ "_key" else EmptyString in
      let metadata :=
        {| FileMetadata.file_id := file_id;
           FileMetadata.filename := filename;
           FileMetadata.size := file_size;
           FileMetadata.created_time := create_now e;
           FileMetadata.modified_time := create_now e;
           FileMetadata.chunk_ids := [];
           FileMetadata.is_encrypted := enable_encryption;
           FileMetadata.encryption_key_id := key_id;
           FileMetadata.is_erasure_coded := enable_erasure_coding;
           FileMetadata.checksum := EmptyString |} in
      let keys := if enable_encryption
                  then Crypto.storeKey (keys_ st) key_id (Crypto.generateKey (key_rand e))
                  else keys_ st in
      let '(created, meta) :=
        MetadataManager.createFile (metadata_manager_ st) filename metadata in
      let st := {| metadata_manager_ := meta; chunk_allocator_ := chunk_allocator_ st;
                   keys_ := keys |} in
      if created
      then ({| cf_success := true; cf_file_id := file_id;
               cf_message := "File created successfully" |}, st)
      else ({| cf_success := false; cf_file_id := EmptyString;
               cf_message := "Failed to create file metadata" |}, st)
  end.

Definition convertChunkMetadataToProto (meta : MetadataManager.t)
    (metadata : ChunkMetadata.t) : ChunkInfo.t :=
  {| ChunkInfo.chunk_id := ChunkMetadata.chunk_id metadata;
     ChunkInfo.server_addresses :=
       flat_map (fun server_id =>
                   match MetadataManager.getServerMetadata meta server_id with
                   | Some sm => [ServerMetadata.address sm +:+ ":"
                                 +:+ pretty (ServerMetadata.port sm)]
                   | None => []
                   end)
                (ChunkMetadata.server_locations metadata);
     ChunkInfo.size := ChunkMetadata.size metadata;
     ChunkInfo.checksum := ChunkMetadata.checksum metadata;
     ChunkInfo.is_erasure_coded := ChunkMetadata.is_erasure_coded metadata |}.

Definition convertFileMetadataToProto (meta : MetadataManager.t)
    (metadata : FileMetadata.t) : FileInfo.t :=
  {| FileInfo.filename := FileMetadata.filename metadata;
     FileInfo.size := FileMetadata.size metadata;
     FileInfo.created_time := FileMetadata.created_time metadata;
     FileInfo.modified_time := FileMetadata.modified_time metadata;
     FileInfo.is_encrypted := FileMetadata.is_encrypted metadata;
     FileInfo.encryption_key_id := FileMetadata.encryption_key_id metadata;
     FileInfo.chunks :=
       flat_map (fun chunk_id =>
                   match MetadataManager.getChunkMetadata meta chunk_id with
                   | Some cm => [convertChunkMetadataToProto meta cm]
                   | None => []
                   end)
                (FileMetadata.chunk_ids metadata) |}.

(** [GetFileInfo]: [None] is [found = false]. *)
Definition GetFileInfo (st : t) (filename : string) : option FileInfo.t :=
  convertFileMetadataToProto (metadata_manager_ st)
    <$> MetadataManager.getFileMetadata (metadata_manager_ st) filename.

(** The first file of [listFiles()] with the given id. *)
Definition find_file_by_id (meta : MetadataManager.t) (file_id : string)
  : option FileMetadata.t :=
  find (fun file => bool_decide (FileMetadata.file_id file = file_id))
       (MetadataManager.listFiles meta EmptyString).

Record AllocateChunksResponse := {
  ac_success : bool;
  ac_message : string;
  allocated_chunks : list ChunkInfo.t;
}.

Definition AllocateChunks (cfg : Config.t) (st : t) (file_id : string)
    (enable_erasure_coding : bool) (envs : nat → ChunkAllocator.env)
  : AllocateChunksResponse * t :=
  match find_file_by_id (metadata_manager_ st) file_id with
  | None => ({| ac_success := false; ac_message := "File not found";
                allocated_chunks := [] |}, st)
  | Some file_metadata =>
      let '(allocated, alloc, meta) :=
        ChunkAllocator.allocateChunks cfg envs (chunk_allocator_ st)
          (metadata_manager_ st) file_id (FileMetadata.size file_metadata)
          enable_erasure_coding in
      let st := {| metadata_manager_ := meta; chunk_allocator_ := alloc;
                   keys_ := keys_ st |} in
      if bool_decide (allocated = [])
      then ({| ac_success := false;
               ac_message := "Failed to allocate chunks - no available servers";
               allocated_chunks := [] |}, st)
      else
        let file_metadata :=
          FileMetadata.with_chunk_ids file_metadata
            (FileMetadata.chunk_ids file_metadata ++ map ChunkInfo.chunk_id allocated) in
        let meta := snd (MetadataManager.updateFileMetadata meta
                           (FileMetadata.filename file_metadata) file_metadata) in
        ({| ac_success := true; ac_message := "Chunks allocated successfully";
            allocated_chunks := allocated |}, set_metadata st meta)
  end.

(** [CompleteUpload] always answers success. *)
Definition CompleteUpload (st : t) (file_id : string) (now : Z) : bool * t :=
  match find_file_by_id (metadata_manager_ st) file_id with
  | Some file =>
      (true, set_metadata st
               (snd (MetadataManager.updateFileMetadata (metadata_manager_ st)
                       (FileMetadata.filename file)
                       (FileMetadata.with_modified_time file now))))
  | None => (true, st)
  end.

Definition RegisterChunkServer (st : t) (server_id address : string) (port total_space : Z)
    (now : Z) : t :=
  set_metadata st
    (MetadataManager.registerServer (metadata_manager_ st) server_id
       {| ServerMetadata.server_id := server_id;
          ServerMetadata.address := address;
          ServerMetadata.port := port;
          ServerMetadata.total_space := total_space;
          ServerMetadata.free_space := total_space;
          ServerMetadata.chunk_count := 0;
          ServerMetadata.cpu_usage := 0.0%float;
          ServerMetadata.memory_usage := 0.0%float;
          ServerMetadata.is_healthy := true;
          ServerMetadata.last_heartbeat := now;
          ServerMetadata.stored_chunks := ∅ |}).

Record HeartbeatRequest := {
  hb_server_id : string;
  hb_free_space : Z;
  hb_chunk_count : Z;
  hb_cpu_usage : float;
  hb_memory_usage : float;
  hb_stored_chunks : list string;
}.

Record HeartbeatResponse := {
  hb_success : bool;
  replication_tasks : list ChunkAllocator.ReplicationTask;
}.

Definition SendHeartbeat (st : t) (request : HeartbeatRequest) (now : Z)
  : HeartbeatResponse * t :=
  match MetadataManager.getServerMetadata (metadata_manager_ st) (hb_server_id request) with
  | None => ({| hb_success := false; replication_tasks := [] |}, st)
  | Some metadata =>
      let metadata :=
        {| ServerMetadata.server_id := ServerMetadata.server_id metadata;
           ServerMetadata.address := ServerMetadata.address metadata;
           ServerMetadata.port := ServerMetadata.port metadata;
           ServerMetadata.total_space := ServerMetadata.total_space metadata;
           ServerMetadata.free_space := hb_free_space request;
           ServerMetadata.chunk_count := hb_chunk_count request;
           ServerMetadata.cpu_usage := hb_cpu_usage request;
           ServerMetadata.memory_usage := hb_memory_usage request;
           ServerMetadata.is_healthy := true;
           ServerMetadata.last_heartbeat := now;
           ServerMetadata.stored_chunks := list_to_set (hb_stored_chunks request) |} in
      let meta := snd (MetadataManager.updateServerMetadata (metadata_manager_ st)
                         (hb_server_id request) metadata) in
      ({| hb_success := true;
          replication_tasks :=
            if ChunkAllocator.shouldRebalance meta
            then ChunkAllocator.generateRebalancingTasks meta else [] |},
       set_metadata st meta)
  end.

(** [DeleteFile]: the [success] flag of the response. *)
Definition DeleteFile (st : t) (filename : string) : bool * t :=
  let '(deleted, meta) := MetadataManager.deleteFile (metadata_manager_ st) filename in
  (deleted, set_metadata st meta).

(** What [ReportChunkCorruption] and the loop of [handleServerFailure] do
    for the chunk [chunk_id] once [server_id] is taken off it: when the
    chunk is left with fewer locations than [target_replicas], it is
    reallocated ([scheduleReplication] only writes a log line). *)
Definition replace_server (cfg : Config.t) (st : t) (chunk_id server_id : string)
    (target_replicas : ChunkMetadata.t → Z) (e : ChunkAllocator.env) : t :=
  let meta := MetadataManager.removeChunkFromServer (metadata_manager_ st)
                chunk_id server_id in
  let st := set_metadata st meta in
  match MetadataManager.getChunkMetadata meta chunk_id with
  | Some metadata =>
      if (Z.of_nat (length (ChunkMetadata.server_locations metadata))
          <? target_replicas metadata)%Z
      then
        let '(_, alloc, meta) :=
          ChunkAllocator.reallocateChunk cfg (chunk_allocator_ st) meta chunk_id
            [server_id] e in
        {| metadata_manager_ := meta; chunk_allocator_ := alloc; keys_ := keys_ st |}
      else st
  | None => st
  end.

(** [ReportChunkCorruption] (the response is always acknowledged). *)
Definition ReportChunkCorruption (cfg : Config.t) (st : t) (chunk_id server_id : string)
    (e : ChunkAllocator.env) : t :=
  replace_server cfg st chunk_id server_id
    (fun _ => Config.replication_factor_ cfg) e.

(** [handleServerFailure]; [envs] gives the shuffle draws and the clock
    for the chunks in the order of the loop. *)
Definition handleServerFailure (cfg : Config.t) (st : t) (server_id : string)
    (envs : nat → ChunkAllocator.env) : t :=
  let meta := MetadataManager.markServerUnhealthy (metadata_manager_ st) server_id in
  let chunks := MetadataManager.getChunksForServer meta server_id in
  fst (fold_left
         (fun (acc : t * nat) chunk_id =>
            (replace_server cfg (fst acc) chunk_id server_id
               (fun metadata => if ChunkMetadata.is_erasure_coded metadata then 1%Z
                                else Config.replication_factor_ cfg)
               (envs (snd acc)),
             S (snd acc)))
         chunks (set_metadata st meta, 0%nat)).

(** One sweep of [monitorHeartbeats] at the time [current_time]: the
    servers are those of one [getAllServers] call; [envs] gives, per
    position in that list, what [handleServerFailure] takes from outside. *)
Definition monitorHeartbeats (cfg : Config.t) (heartbeat_timeout : Z) (st : t)
    (current_time : Z) (envs : nat → nat → ChunkAllocator.env) : t :=
  fst (fold_left
         (fun (acc : t * nat) server =>
            (if ServerMetadata.is_healthy server
                && (heartbeat_timeout
                    <? current_time - ServerMetadata.last_heartbeat server)%Z
             then handleServerFailure cfg (fst acc) (ServerMetadata.server_id server)
                    (envs (snd acc))
             else fst acc,
             S (snd acc)))
         (MetadataManager.getAllServers (metadata_manager_ st)) (st, 0%nat)).

(** A master on which the servers of [names] have registered, each with
    10^9 bytes of space, under the address [<name>.dfs:60051]. *)
Definition with_servers (names : list string) : t :=
  fold_left (fun st name =>
               RegisterChunkServer st name (name +:+ ".dfs") 60051 1000000000 0)
            names init.

End MasterServer.

(** * client/client.cpp *)

Module CacheManager.

Record CacheEntry := {
  data : list Z;
  last_accessed : Z;
  size : nat;
}.

Record t := {
  max_size_ : nat;
  total_size_ : nat;
  cache_ : gmap string CacheEntry;
  cache_hits_ : Z;
  cache_misses_ : Z;
}.

Definition new (max_cache_size_mb : nat) : t :=
  {| max_size_ := max_cache_size_mb * 1024 * 1024; total_size_ := 0; cache_ := ∅;
     cache_hits_ := 0; cache_misses_ := 0 |}.

(** [evictLRU]: the first entry, in iteration order, with the smallest
    [last_accessed]. *)
Definition oldest_entry (entries : list (string * CacheEntry))
  : option (string * CacheEntry) :=
  match entries with
  | [] => None
  | first :: rest =>
      Some (fold_left (fun oldest it =>
                         if (last_accessed (snd it) <? last_accessed (snd oldest))%Z
                         then it else oldest)
                      rest first)
  end.

Definition evictLRU (c : t) : t :=
  match oldest_entry (map_to_list (cache_ c)) with
  | None => c
  | Some (k, entry) =>
      {| max_size_ := max_size_ c; total_size_ := total_size_ c - size entry;
         cache_ := delete k (cache_ c);
         cache_hits_ := cache_hits_ c; cache_misses_ := cache_misses_ c |}
  end.

(** The eviction loop of [put]; every round removes an entry, so the
    number of entries bounds the rounds. *)
Fixpoint evict_until_fits (rounds : nat) (c : t) (incoming : nat) : t :=
  match rounds with
  | O => c
  | S rounds' =>
      if (max_size_ c <? total_size_ c + incoming)%nat
         && negb (bool_decide (cache_ c = ∅))
      then evict_until_fits rounds' (evictLRU c) incoming
      else c
  end.

Definition put (c : t) (chunk_id : string) (d : list Z) (now : Z) : t :=
  match cache_ c !! chunk_id with
  | Some entry =>
      {| max_size_ := max_size_ c;
         total_size_ := total_size_ c - size entry + length d;
         cache_ := <[chunk_id := {| data := d; last_accessed := now;
                                    size := length d |}]> (cache_ c);
         cache_hits_ := cache_hits_ c; cache_misses_ := cache_misses_ c |}
  | None =>
      let c := evict_until_fits (map_size (cache_ c)) c (length d) in
      {| max_size_ := max_size_ c; total_size_ := total_size_ c + length d;
         cache_ := <[chunk_id := {| data := d; last_accessed := now;
                                    size := length d |}]> (cache_ c);
         cache_hits_ := cache_hits_ c; cache_misses_ := cache_misses_ c |}
  end.

Definition get (c : t) (chunk_id : string) (now : Z) : list Z * t :=
  match cache_ c !! chunk_id with
  | Some entry =>
      (data entry,
       {| max_size_ := max_size_ c; total_size_ := total_size_ c;
          cache_ := <[chunk_id := {| data := data entry; last_accessed := now;
                                     size := size entry |}]> (cache_ c);
          cache_hits_ := cache_hits_ c + 1; cache_misses_ := cache_misses_ c |})
  | None =>
      ([], {| max_size_ := max_size_ c; total_size_ := total_size_ c;
              cache_ := cache_ c;
              cache_hits_ := cache_hits_ c; cache_misses_ := cache_misses_ c + 1 |})
  end.

Definition contains (c : t) (chunk_id : string) : bool :=
  bool_decide (is_Some (cache_ c !! chunk_id)).

Definition remove (c : t) (chunk_id : string) : t :=
  match cache_ c !! chunk_id with
  | Some entry =>
      {| max_size_ := max_size_ c; total_size_ := total_size_ c - size entry;
         cache_ := delete chunk_id (cache_ c);
         cache_hits_ := cache_hits_ c; cache_misses_ := cache_misses_ c |}
  | None => c
  end.

Definition clear (c : t) : t :=
  {| max_size_ := max_size_ c; total_size_ := 0; cache_ := ∅;
     cache_hits_ := cache_hits_ c; cache_misses_ := cache_misses_ c |}.

End CacheManager.

Module Client.

(** How a remote call ends for the caller: answered; never delivered; or
    handled by the server with the answer lost ([status.ok()] is false in
    the last two). *)
Inductive rpc_outcome := Answered | NotDelivered | ReplyLost.

Definition call {S R} (o : rpc_outcome) (handler : S → R * S) (server : S)
  : option R * S :=
  match o with
  | Answered => let '(r, server') := handler server in (Some r, server')
  | NotDelivered => (None, server)
  | ReplyLost => (None, snd (handler server))
  end.

(** The cluster a client talks to: the master and the chunk servers, by
    the address a channel is opened to. *)
Record cluster := {
  master : MasterServer.t;
  chunk_servers : gmap string ChunkStorage.t;
}.

(** The client process: the cache shared by uploader and downloader (a
    null [cache_manager_] is [None]) and the process's [KeyManager]. *)
Record t := {
  cache_manager_ : option CacheManager.t;
  keys_ : gmap string string;
}.

Definition set_cache (c : t) (cache : option CacheManager.t) : t :=
  {| cache_manager_ := cache; keys_ := keys_ c |}.

(** The loop of [Uploader::splitFileIntoChunks]: [rounds] bounds the
    iterations, one per started chunk. *)
Fixpoint split_loop (rounds : nat) (chunk_size : nat) (rest : list Z) : list (list Z) :=
  match rounds with
  | O => []
  | S rounds' =>
      match rest with
      | [] => []
      | _ =>
          let actual_chunk_size := Nat.min chunk_size (length rest) in
          take actual_chunk_size rest
            :: split_loop rounds' chunk_size (drop chunk_size rest)
      end
  end.

Definition splitChunks (chunk_size : nat) (file_data : list Z) : list (list Z) :=
  split_loop (length file_data) chunk_size file_data.

Definition splitFileIntoChunks (file_data : list Z) : list (list Z) :=
  splitChunks (Z.to_nat Config.CHUNK_SIZE) file_data.

Definition assembleChunks (chunks : list (list Z)) : list Z :=
  fold_left (fun assembled_data chunk => assembled_data ++ chunk) chunks [].

Section Pipeline.
Context `{HashOracle} `{AesGcm}.

(** What one [uploadChunk] meets: how each [WriteChunk] call ends, what
    the disk of the addressed server does, and the clock of the cache. *)
Record chunk_env := {
  write_rpc : string → rpc_outcome;
  write_io : string → ChunkStorage.disk_io;
  cache_now : Z;
}.

(** One [WriteChunk] call to [server_address]. *)
Definition write_to_server (servers : gmap string ChunkStorage.t)
    (server_address : string) (request : ChunkServer.WriteChunkRequest)
    (e : chunk_env) : bool * gmap string ChunkStorage.t :=
  match servers !! server_address with
  | None => (false, servers)
  | Some storage =>
      let '(response, storage') :=
        call (write_rpc e server_address)
             (fun s => ChunkServer.WriteChunk s request (write_io e server_address))
             storage in
      (match response with
       | Some r => ChunkServer.w_success r
       | None => false
       end, <[server_address := storage']> servers)
  end.

(** The body of the loop of [uploadChunk] over the server addresses. *)
Definition write_step (request : ChunkServer.WriteChunkRequest) (e : chunk_env)
    (st : bool * gmap string ChunkStorage.t) (server_address : string)
  : bool * gmap string ChunkStorage.t :=
  let '(ok, servers) := write_to_server (snd st) server_address request e in
  (fst st || ok, servers).

Definition uploadChunk (servers : gmap string ChunkStorage.t)
    (cache : option CacheManager.t) (chunk_id : string) (d : list Z)
    (server_addresses : list string) (is_encrypted : bool) (e : chunk_env)
  : bool * gmap string ChunkStorage.t * option CacheManager.t :=
  if bool_decide (server_addresses = []) then (false, servers, cache) else
  let request :=
    {| ChunkServer.w_chunk_id := chunk_id;
       ChunkServer.w_data := d;
       ChunkServer.w_checksum := calculateSHA256 d;
       ChunkServer.w_is_encrypted := is_encrypted;
       ChunkServer.w_is_erasure_coded := false |} in
  let '(success, servers) :=
    fold_left (write_step request e) server_addresses (false, servers) in
  let cache :=
    if success
    then (fun c => CacheManager.put c chunk_id d (cache_now e)) <$> cache
    else cache in
  (success, servers, cache).

(** What one [uploadFile] meets. *)
Record upload_env := {
  create_rpc : rpc_outcome;
  create_env : MasterServer.create_env;
  alloc_rpc : rpc_outcome;
  alloc_envs : nat → ChunkAllocator.env;
  iv_entropy : nat → list Z;
  chunk_envs : nat → chunk_env;
  complete_rpc : rpc_outcome;
  complete_now : Z;
}.

(** The upload loop over the allocated chunks, from index [i]. *)
Fixpoint upload_loop (file_id : string) (enable_encryption : bool) (e : upload_env)
    (i : nat) (allocated : list ChunkInfo.t) (chunks : list (list Z))
    (servers : gmap string ChunkStorage.t) (c : t)
  : bool * gmap string ChunkStorage.t * t :=
  match allocated with
  | [] => (true, servers, c)
  | chunk_info :: allocated' =>
      match chunks !! i with
      | None => (false, servers, c)
      | Some chunk =>
          let key_id := file_id +:+ "_key" in
          let encrypted :=
            if enable_encryption
            then if Crypto.hasKey (keys_ c) key_id
                 then let chunk_data :=
                        Crypto.encryptChunk (keys_ c) (iv_entropy e i) chunk key_id in
                      if bool_decide (chunk_data = []) then None else Some chunk_data
                 else None
            else Some chunk in
          match encrypted with
          | None => (false, servers, c)
          | Some chunk_data =>
              let '(uploaded, servers, cache) :=
                uploadChunk servers (cache_manager_ c) (ChunkInfo.chunk_id chunk_info)
                  chunk_data (ChunkInfo.server_addresses chunk_info) enable_encryption
                  (chunk_envs e i) in
              let c := set_cache c cache in
              if uploaded
              then upload_loop file_id enable_encryption e (S i) allocated' chunks servers c
              else (false, servers, c)
          end
      end
  end.

(** [Uploader::uploadFile]; [file_data] is what [Utils::readFile] returned
    for the local path. *)
Definition uploadFile (cfg : Config.t) (w : cluster) (c : t) (file_data : list Z)
    (remote_path : string) (enable_encryption enable_erasure_coding : bool)
    (e : upload_env) : bool * cluster * t :=
  if bool_decide (file_data = []) then (false, w, c) else
  let file_size := Z.of_nat (length file_data) in
  let '(create_response, m) :=
    call (create_rpc e)
         (fun m => MasterServer.CreateFile m remote_path file_size enable_encryption
                     enable_erasure_coding (create_env e))
         (master w) in
  match create_response with
  | None => (false, {| master := m; chunk_servers := chunk_servers w |}, c)
  | Some create_response =>
      if negb (MasterServer.cf_success create_response)
      then (false, {| master := m; chunk_servers := chunk_servers w |}, c)
      else
        let file_id := MasterServer.cf_file_id create_response in
        let '(alloc_response, m) :=
          call (alloc_rpc e)
               (fun m => MasterServer.AllocateChunks cfg m file_id enable_erasure_coding
                           (alloc_envs e))
               m in
        match alloc_response with
        | None => (false, {| master := m; chunk_servers := chunk_servers w |}, c)
        | Some alloc_response =>
            if negb (MasterServer.ac_success alloc_response)
            then (false, {| master := m; chunk_servers := chunk_servers w |}, c)
            else
              let allocated := MasterServer.allocated_chunks alloc_response in
              let chunks := splitFileIntoChunks file_data in
              if negb (length chunks =? length allocated)%nat
              then (false, {| master := m; chunk_servers := chunk_servers w |}, c)
              else
                let '(uploaded, servers, c) :=
                  upload_loop file_id enable_encryption e 0 allocated chunks
                    (chunk_servers w) c in
                if negb uploaded
                then (false, {| master := m; chunk_servers := servers |}, c)
                else
                  let '(complete_response, m) :=
                    call (complete_rpc e)
                         (fun m => MasterServer.CompleteUpload m file_id (complete_now e))
                         m in
                  (match complete_response with
                   | Some ok => ok
                   | None => false
                   end, {| master := m; chunk_servers := servers |}, c)
        end
  end.

(** What one [downloadChunk] meets: how each [ReadChunk] call ends, and
    the clock of the cache. *)
Record fetch_env := {
  read_rpc : string → rpc_outcome;
  fetch_now : Z;
}.

(** The loop of [downloadChunk] over the server addresses. *)
Fixpoint fetch_from_servers (servers : gmap string ChunkStorage.t) (chunk_id : string)
    (server_addresses : list string) (e : fetch_env) : option (list Z) :=
  match server_addresses with
  | [] => None
  | server_address :: rest =>
      let response :=
        match servers !! server_address, read_rpc e server_address with
        | Some storage, Answered =>
            Some (ChunkServer.ReadChunk storage
                    {| ChunkServer.r_chunk_id := chunk_id;
                       ChunkServer.r_verify_integrity := true |})
        | _, _ => None
        end in
      match response with
      | Some r =>
          if ChunkServer.r_success r
             && bool_decide (calculateSHA256 (ChunkServer.r_data r)
                             = ChunkServer.r_checksum r)
          then Some (ChunkServer.r_data r)
          else fetch_from_servers servers chunk_id rest e
      | None => fetch_from_servers servers chunk_id rest e
      end
  end.

(** [Downloader::downloadChunk]; the empty vector is the failure value. *)
Definition downloadChunk (servers : gmap string ChunkStorage.t)
    (cache : option CacheManager.t) (chunk_id : string)
    (server_addresses : list string) (e : fetch_env)
  : list Z * option CacheManager.t :=
  match cache with
  | Some c =>
      if CacheManager.contains c chunk_id
      then let '(d, c) := CacheManager.get c chunk_id (fetch_now e) in (d, Some c)
      else
        match fetch_from_servers servers chunk_id server_addresses e with
        | Some d => (d, Some (CacheManager.put c chunk_id d (fetch_now e)))
        | None => ([], cache)
        end
  | None =>
      match fetch_from_servers servers chunk_id server_addresses e with
      | Some d => (d, None)
      | None => ([], None)
      end
  end.

(** What one [downloadFile] meets. *)
Record download_env := {
  info_rpc : rpc_outcome;
  fetch_envs : nat → fetch_env;
  local_write : ChunkStorage.write_outcome;
}.

(** The download loop over [file_info.chunks()], from index [i]; [None]
    is the early [return false]. *)
Fixpoint download_loop (file_info : FileInfo.t) (e : download_env) (i : nat)
    (todo : list ChunkInfo.t) (servers : gmap string ChunkStorage.t) (c : t)
  : option (list (list Z)) * t :=
  match todo with
  | [] => (Some [], c)
  | chunk_info :: todo' =>
      let '(chunk_data, cache) :=
        downloadChunk servers (cache_manager_ c) (ChunkInfo.chunk_id chunk_info)
          (ChunkInfo.server_addresses chunk_info) (fetch_envs e i) in
      let c := set_cache c cache in
      if bool_decide (chunk_data = []) then (None, c) else
      let decrypted :=
        if FileInfo.is_encrypted file_info
        then if Crypto.hasKey (keys_ c) (FileInfo.encryption_key_id file_info)
             then let chunk_data :=
                    Crypto.decryptChunk (keys_ c) chunk_data
                      (FileInfo.encryption_key_id file_info) in
                  if bool_decide (chunk_data = []) then None else Some chunk_data
             else None
        else Some chunk_data in
      match decrypted with
      | None => (None, c)
      | Some chunk_data =>
          let '(rest, c) := download_loop file_info e (S i) todo' servers c in
          ((fun chunks => chunk_data :: chunks) <$> rest, c)
      end
  end.

(** [Downloader::downloadFile]: the success flag, the local file system
    afterwards, and the client afterwards. *)
Definition downloadFile (w : cluster) (c : t) (local_files : gmap string (list Z))
    (remote_path local_path : string) (e : download_env)
  : bool * gmap string (list Z) * t :=
  let info := match info_rpc e with
              | Answered => MasterServer.GetFileInfo (master w) remote_path
              | _ => None
              end in
  match info with
  | None => (false, local_files, c)
  | Some file_info =>
      let '(chunks, c) :=
        download_loop file_info e 0 (FileInfo.chunks file_info) (chunk_servers w) c in
      match chunks with
      | None => (false, local_files, c)
      | Some chunks =>
          let file_data := assembleChunks chunks in
          let '(written, local_files) :=
            ChunkStorage.writeFile local_files local_path file_data (local_write e) in
          (written, local_files, c)
      end
  end.


End Pipeline.

End Client.

(** * chunkserver/chunk_server.cpp: copies between chunk servers *)

Module ChunkCopy.
Import Client.

Section Handlers.
Context `{HashOracle}.

(** [copyChunkFromServer], on the server with the store [storage_];
    [peers] are the chunk servers by the address a channel reaches them
    at, [read_rpc] is how the [ReadChunk] call ends. *)
Definition copyChunkFromServer (peers : gmap string ChunkStorage.t)
    (storage_ : ChunkStorage.t) (chunk_id source_server : string)
    (read_rpc : rpc_outcome) (io : ChunkStorage.disk_io) : bool * ChunkStorage.t :=
  let parts := Utils.splitString source_server ":"%char in
  if negb (length parts =? 2)%nat then (false, storage_) else
  let source_address :=
    nth 0 parts EmptyString +:+ ":" +:+ nth 1 parts EmptyString in
  match peers !! source_address, read_rpc with
  | Some source, Answered =>
      let response :=
        ChunkServer.ReadChunk source
          {| ChunkServer.r_chunk_id := chunk_id;
             ChunkServer.r_verify_integrity := true |} in
      if negb (ChunkServer.r_success response) then (false, storage_)
      else ChunkStorage.writeChunk storage_ chunk_id (ChunkServer.r_data response)
             false false io
  | _, _ => (false, storage_)
  end.

(** [CopyChunk]: the [success] flag of the response. *)
Definition CopyChunk (peers : gmap string ChunkStorage.t) (storage_ : ChunkStorage.t)
    (chunk_id source_server : string) (read_rpc : rpc_outcome)
    (io : ChunkStorage.disk_io) : bool * ChunkStorage.t :=
  copyChunkFromServer peers storage_ chunk_id source_server read_rpc io.

End Handlers.

End ChunkCopy.

(** * Sample clusters *)

Module Scenario.
Import Client.

(** The chunk servers of the samples register under the id [<host>:60051],
    the string a channel to them is opened with. *)
Definition node_id (host : string) : string := host +:+ ":60051".

Definition with_nodes (hosts : list string) : MasterServer.t :=
  fold_left (fun st host =>
               MasterServer.RegisterChunkServer st (node_id host) host 60051 1000000000 0)
            hosts MasterServer.init.

Definition empty_stores (hosts : list string) : gmap string ChunkStorage.t :=
  list_to_map (map (fun host => (node_id host, ChunkStorage.empty)) hosts).

Definition six_hosts : list string := ["n1"; "n2"; "n3"; "n4"; "n5"; "n6"].

Definition quiet_alloc : nat → ChunkAllocator.env :=
  fun _ => {| ChunkAllocator.shuffle_draws := []; ChunkAllocator.now := 0 |}.

Definition all_written : chunk_env :=
  {| write_rpc := fun _ => Answered; write_io := fun _ => ChunkStorage.no_fault;
     cache_now := 0 |}.

Definition all_up : download_env :=
  {| info_rpc := Answered;
     fetch_envs := fun _ => {| read_rpc := fun _ => Answered; fetch_now := 0 |};
     local_write := ChunkStorage.WriteOk |}.


Definition no_cache : Client.t := {| cache_manager_ := None; keys_ := ∅ |}.

(** An erasure-coded file [/f2] of four bytes on six servers: the master
    creates it and allocates its one group of 4 + 2 blocks; the blocks are
    those [ErasureCodedChunkManager::encodeChunk] makes of the data, each
    written to the server allocated for it. *)
Definition ec_data : list Z := [1; 2; 3; 4]%Z.




(** The environment of an upload in which nothing goes wrong. *)
Definition quiet_upload (id : string) : upload_env :=
  {| create_rpc := Answered;
     create_env := {| MasterServer.random_id := id; MasterServer.create_now := 0;
                      MasterServer.key_rand := None |};
     alloc_rpc := Answered;
     alloc_envs := quiet_alloc;
     iv_entropy := fun _ => [];
     chunk_envs := fun _ => all_written;
     complete_rpc := Answered;
     complete_now := 1 |}.

Definition fresh_cluster (hosts : list string) : cluster :=
  {| master := with_nodes hosts; chunk_servers := empty_stores hosts |}.

(** A master with one server, whose heartbeat reports a full disk, 100 %
    CPU and memory, and one stored chunk. *)
Definition overloaded_master : MasterServer.t :=
  (MasterServer.SendHeartbeat (MasterServer.with_servers ["s1"])
     {| MasterServer.hb_server_id := "s1";
        MasterServer.hb_free_space := 0;
        MasterServer.hb_chunk_count := 1;
        MasterServer.hb_cpu_usage := 100.0%float;
        MasterServer.hb_memory_usage := 100.0%float;
        MasterServer.hb_stored_chunks := ["x"] |} 5).2.

End Scenario.

(** * Predicates on the state of the cluster *)

Module ChunkId.




End ChunkId.

Module Catalog.
Import MetadataManager.

(** What [allocateChunks] leaves in the master for the chunk [chunk_info]
    it returned. *)
Definition recorded (meta : MetadataManager.t) (chunk_info : ChunkInfo.t) : Prop :=
  ChunkInfo.server_addresses chunk_info ≠ [] →
  ∃ cm, chunks_ meta !! ChunkInfo.chunk_id chunk_info = Some cm
        ∧ ChunkMetadata.chunk_id cm = ChunkInfo.chunk_id chunk_info
        ∧ ChunkMetadata.server_locations cm = ChunkInfo.server_addresses chunk_info.


End Catalog.

Module Store.
Import ChunkStorage.

(** Every server that lists [chunk_id] as stored has the bytes [d] in its
    data file. *)
Definition serves (servers : gmap string ChunkStorage.t) (chunk_id : string)
    (d : list Z) : Prop :=
  ∀ address storage, servers !! address = Some storage →
    chunk_id ∈ stored_chunks_ storage → data_files storage !! chunk_id = Some d.


(** The cache, where it has an entry for [chunk_id], has the bytes [d]. *)
Definition caches (cache : option CacheManager.t) (chunk_id : string) (d : list Z)
  : Prop :=
  ∀ c entry, cache = Some c → CacheManager.cache_ c !! chunk_id = Some entry →
    CacheManager.data entry = d.

Section WithCipher.
Context `{AesGcm}.

(** The servers and the cache hold the chunk [chunk_id] in a form that
    restores to the slice [chunk]. *)
Definition kept (is_encrypted : bool) (keys : gmap string string) (key_id : string)
    (servers : gmap string ChunkStorage.t) (cache : option CacheManager.t)
    (chunk_id : string) (chunk : list Z) : Prop :=
  ∃ d, serves servers chunk_id d ∧ caches cache chunk_id d
       ∧ if is_encrypted then Crypto.decryptChunk keys d key_id = chunk else d = chunk.
End WithCipher.

End Store.

Module CacheAccount.
Import CacheManager.

(** The bytes the entries of a cache say they hold. *)
Definition held (entries : gmap string CacheEntry) : nat :=
  map_fold (fun _ entry sum => (size entry + sum)%nat) 0%nat entries.

(** [total_size_] is the sum of the entries' sizes, and the size of an
    entry is the length of its data. *)
Definition accounted (c : CacheManager.t) : Prop :=
  total_size_ c = held (cache_ c)
  ∧ ∀ k entry, cache_ c !! k = Some entry → size entry = length (data entry).

End CacheAccount.

Module Health.
Import MetadataManager.

(** Two records of one server that differ at most in what the heartbeats
    and the chunk bookkeeping write. *)
Definition same_standing (sm sm' : ServerMetadata.t) : Prop :=
  ServerMetadata.server_id sm' = ServerMetadata.server_id sm
  ∧ ServerMetadata.is_healthy sm' = ServerMetadata.is_healthy sm
  ∧ ServerMetadata.last_heartbeat sm' = ServerMetadata.last_heartbeat sm
  ∧ ServerMetadata.total_space sm' = ServerMetadata.total_space sm
  ∧ ServerMetadata.free_space sm' = ServerMetadata.free_space sm.

(** The two server tables have the same keys, and under each key records
    of the same standing. *)
Definition same_servers (servers servers' : gmap string ServerMetadata.t) : Prop :=
  ∀ k, option_Forall2 same_standing (servers !! k) (servers' !! k).

(** As [same_servers], but the servers that [off] selects are marked
    unhealthy in [servers']. *)
Definition marked (off : bool) (sm sm' : ServerMetadata.t) : Prop :=
  ServerMetadata.server_id sm' = ServerMetadata.server_id sm
  ∧ ServerMetadata.is_healthy sm' = ServerMetadata.is_healthy sm && negb off
  ∧ ServerMetadata.last_heartbeat sm' = ServerMetadata.last_heartbeat sm.

Definition servers_marked (off : string → bool)
    (servers servers' : gmap string ServerMetadata.t) : Prop :=
  ∀ k, option_Forall2 (marked (off k)) (servers !! k) (servers' !! k).

(** The test of [monitorHeartbeats] on a record of its snapshot. *)
Definition silent (heartbeat_timeout current_time : Z) (server : ServerMetadata.t) : bool :=
  ServerMetadata.is_healthy server
  && (heartbeat_timeout <? current_time - ServerMetadata.last_heartbeat server)%Z.

(** The master has no healthy record for [server_id]. *)
Definition down (meta : MetadataManager.t) (server_id : string) : Prop :=
  ∀ sm, servers_ meta !! server_id = Some sm → ServerMetadata.is_healthy sm = false.

End Health.

Module Contact.
Import MetadataManager.




End Contact.

Module Reach.
Import ChunkStorage.

Section WithHash.
Context `{HashOracle}.

(** The server lists the chunk, has the bytes [d] in its data file, and
    has their checksum in its index. *)
Definition holds_verified (storage : ChunkStorage.t) (chunk_id : string) (d : list Z)
  : Prop :=
  chunk_id ∈ stored_chunks_ storage
  ∧ data_files storage !! chunk_id = Some d
  ∧ chunk_checksums_ storage !! chunk_id = Some (calculateSHA256 d).

End WithHash.


End Reach.

(** * Properties of the erasure codec *)

Module ErasureCodingProps.
Import ErasureCoding.

(** The availability loop of [decode] counts the [true] entries. *)
Lemma available_indices_shift (availability : list bool) (k n : nat) (a : bool) :
  List.filter (fun i => nth (i - k) (a :: availability) false) (seq (S k) n)
  = List.filter (fun i => nth (i - S k) availability false) (seq (S k) n).
Proof.
  apply filter_ext_in. intros i Hi. apply in_seq in Hi.
  replace (i - k)%nat with (S (i - S k)) by lia. reflexivity.
Qed.

Lemma available_indices_count_from (availability : list bool) (k : nat) :
  length (List.filter (fun i => nth (i - k) availability false)
                      (seq k (length availability)))
  = count_available availability.
Proof.
  revert k. induction availability as [|a l IH]; intros k; [reflexivity|].
  cbn [length seq List.filter]. rewrite available_indices_shift, Nat.sub_diag.
  change (nth 0 (a :: l) false) with a. unfold count_available. cbn [List.filter].
  destruct a; cbn [length]; rewrite IH; reflexivity.
Qed.

Lemma available_indices_count (availability : list bool) :
  length (List.filter (fun i => nth i availability false)
                      (seq 0 (length availability)))
  = count_available availability.
Proof.
  rewrite <- (available_indices_count_from availability 0).
  f_equal. apply filter_ext. intros i. rewrite Nat.sub_0_r. reflexivity.
Qed.

(** C3.  With fewer than [k] available blocks, [decode] throws (it never
    returns bytes), whatever the blocks are; and [canDecode] answers
    [true] exactly when at least [k] blocks are available. *)
Theorem decode_needs_k_blocks (k m : nat) (blocks : list (list Z))
    (availability : list bool) :
  (count_available availability < k →
     decode k m blocks availability = Throw InvalidVectorSize
     ∨ decode k m blocks availability = Throw NotEnoughBlocks)
  ∧ (canDecode k availability = true ↔ k ≤ count_available availability).
Proof.
  split.
  - intros Hlt. unfold decode.
    destruct (negb (length blocks =? k + m)%nat
              || negb (length availability =? k + m)%nat); [by left|].
    right. rewrite available_indices_count.
    destruct (Nat.ltb_spec (count_available availability) k); [done | lia].
  - unfold canDecode. apply Nat.leb_le.
Qed.

(** The same at a concrete pattern: three of six blocks lost. *)
Lemma decode_needs_k_blocks_witness :
  decode 4 2 [[1]; [2]; [3]; [4]; [5]; [6]]%Z [true; false; false; true; true; false]
  = Throw NotEnoughBlocks
  ∧ canDecode 4 [true; false; false; true; true; false] = false.
Proof.
  destruct (decode_needs_k_blocks 4 2 [[1]; [2]; [3]; [4]; [5]; [6]]%Z
              [true; false; false; true; true; false]) as [Hdec Hcan].
  split.
  - destruct Hdec as [Hdec | Hdec]; [vm_compute; lia | | ]; [discriminate Hdec | exact Hdec].
  - apply not_true_is_false. intros E. apply Hcan in E. vm_compute in E. lia.
Defined.

(** C2, at the failing input.  The one-byte chunk [1] is encoded with
    k = 4, m = 2 into six blocks; data block 0 is lost (one loss, at most
    m); [decodeChunk] then returns the byte 210 and not the byte 1.  The
    codec itself returns [210; 157; 231; 192] for the padded input
    [1; 0; 0; 0]. *)
Theorem decode_after_data_block_loss `{HashOracle} :
  (encoded ← encode 4 2 [1%Z];
   decode 4 2 encoded [false; true; true; true; true; true])
  = Ok [210; 157; 231; 192]%Z
  ∧ (group ← encodeChunk 4 2 "c" [1%Z]; decodeChunk 4 2 (lose_block 0 group))
    = Ok [210%Z].
Proof. split; vm_compute; reflexivity. Qed.

Lemma mapR_length {A B} (f : A → result B) (l : list A) (out : list B) :
  mapR f l = Ok out → length out = length l.
Proof.
  revert out. induction l as [|a l IH]; intros out; cbn.
  - by intros [= <-].
  - destruct (f a) as [b|]; [|done]. cbn.
    destruct (mapR f l) as [bs|]; [|done]. cbn. intros [= <-]. cbn.
    f_equal. by apply IH.
Qed.

Lemma blocks_concat (block_size : nat) (l : list Z) (n a : nat) :
  concat (map (fun i => take block_size (drop (i * block_size) l)) (seq a n))
  = take (n * block_size) (drop (a * block_size) l).
Proof.
  revert a. induction n as [|n IH]; intros a; cbn [seq map concat]; [done|].
  rewrite IH. cbn [Nat.mul]. rewrite <- take_take_drop, drop_drop.
  by rewrite (Nat.add_comm block_size).
Qed.

Lemma all_data_counted (k : nat) (availability : list bool) :
  (k ≤ length availability)%nat →
  (∀ i, (i < k)%nat → nth i availability false = true) →
  (k ≤ length (List.filter (fun i => nth i availability false)
                           (seq 0 (length availability))))%nat.
Proof.
  intros Hlen Hall.
  replace (length availability) with (k + (length availability - k))%nat by lia.
  rewrite seq_app, List.filter_app, length_app.
  assert (List.filter (fun i => nth i availability false) (seq 0 k) = seq 0 k) as ->.
  { apply forallb_filter_id, forallb_forall. intros i Hi. apply in_seq in Hi.
    apply Hall. lia. }
  rewrite length_seq. lia.
Qed.

(** Where C2 does hold: as long as every data block is available (only
    parity blocks are lost), [decode] returns the padded input, and
    [removePadding] the input. *)
Lemma decode_with_all_data_blocks (k m : nat) (data : list Z)
    (blocks : list (list Z)) (availability : list bool) :
  (0 < k)%nat → data ≠ [] →
  encode k m data = Ok blocks →
  length availability = (k + m)%nat →
  (∀ i, (i < k)%nat → nth i availability false = true) →
  ∃ decoded, decode k m blocks availability = Ok decoded
             ∧ removePadding decoded (Z.of_nat (length data)) = data.
Proof.
  intros Hk Hdata Hencode Hlen Hall. unfold encode in Hencode.
  rewrite bool_decide_eq_false_2 in Hencode by done. cbv zeta in Hencode.
  set (block_size := ((length data + k - 1) / k)%nat) in *.
  set (padded := data ++ replicate (k * block_size - length data) 0%Z) in *.
  destruct (mapR _ (seq k m)) as [parity|] eqn:Hparity; [|done].
  cbn in Hencode. injection Hencode as <-.
  apply mapR_length in Hparity. rewrite length_seq in Hparity.
  assert (Hsize : (length data ≤ k * block_size)%nat).
  { subst block_size. pose proof (Nat.div_mod_eq (length data + k - 1) k) as Hdiv.
    pose proof (Nat.mod_upper_bound (length data + k - 1) k). lia. }
  assert (Hpadded : length padded = (k * block_size)%nat).
  { subst padded. rewrite length_app, length_replicate. lia. }
  exists padded. split.
  - unfold decode. rewrite length_app, length_map, length_seq, Hparity, Hlen.
    rewrite !Nat.eqb_refl. cbn [negb orb]. rewrite <- Hlen.
    destruct (Nat.ltb_spec
                (length (List.filter (fun i => nth i availability false)
                                     (seq 0 (length availability)))) k) as [Hfew|_].
    { pose proof (all_data_counted k availability ltac:(lia) Hall). lia. }
    assert (forallb (fun i => nth i availability false) (seq 0 k) = true) as ->.
    { apply forallb_forall. intros i Hi. apply in_seq in Hi. apply Hall. lia. }
    f_equal.
    transitivity (concat (map (fun i => take block_size (drop (i * block_size) padded))
                              (seq 0 k))).
    + f_equal. apply map_ext_in. intros i Hi. apply in_seq in Hi.
      rewrite app_nth1 by (rewrite length_map, length_seq; lia).
      rewrite (nth_indep _ [] (take block_size (drop (0 * block_size) padded)))
        by (rewrite length_map, length_seq; lia).
      rewrite (map_nth (fun i => take block_size (drop (i * block_size) padded))).
      by rewrite seq_nth by lia.
    + rewrite blocks_concat. cbn [Nat.mul drop]. apply take_ge. lia.
  - unfold removePadding.
    destruct (Z.ltb_spec (Z.of_nat (length data)) 0); [lia|].
    destruct (Z.ltb_spec (Z.of_nat (length padded)) (Z.of_nat (length data))); [lia|].
    cbn [orb]. rewrite Nat2Z.id. subst padded. by rewrite take_app_length.
Qed.

End ErasureCodingProps.

(** * Properties of the cipher wrapper *)

Module CryptoProps.
Import Crypto.

Lemma to_hex_length (data : list Z) : String.length (to_hex data) = 2 * length data.
Proof.
  unfold to_hex. induction data as [|b l IH]; [reflexivity|].
  cbn [fold_right String.length length]. rewrite IH. lia.
Qed.

Lemma rand_vector_length (n : nat) (entropy : list Z) :
  length (rand_vector n entropy) = n.
Proof.
  unfold rand_vector. rewrite length_take, length_app, length_replicate. lia.
Qed.

(** A key that comes out of [generateRandomKey] has 64 characters (or
    none, when the generator failed): never the 32 that [encrypt] wants. *)
Lemma generateRandomKey_length (rand : option (list Z)) :
  String.length (generateRandomKey rand) = 64
  ∨ generateRandomKey rand = EmptyString.
Proof.
  destruct rand as [entropy|]; [left | by right].
  unfold generateRandomKey. rewrite to_hex_length, rand_vector_length. reflexivity.
Qed.

Section WithCipher.
Context `{AesGcm}.

Lemma encrypt_rejects_generated_key (rand : option (list Z)) (iv_entropy pt : list Z) :
  encrypt iv_entropy pt (generateRandomKey rand) = [].
Proof.
  unfold encrypt.
  destruct (generateRandomKey_length rand) as [-> | ->]; reflexivity.
Qed.

(** With a 32-character key the wrapper does what its comments say: the
    output is IV (12 bytes), ciphertext, tag (16 bytes), and [decrypt]
    inverts [encrypt]. *)
Lemma encrypt_layout (iv_entropy pt : list Z) (key : string) (ct tag : list Z) :
  String.length key = KEY_SIZE →
  gcm_seal key (generateRandomIV iv_entropy) pt = Some (ct, tag) →
  encrypt iv_entropy pt key = generateRandomIV iv_entropy ++ ct ++ tag
  ∧ length (generateRandomIV iv_entropy) = 12
  ∧ length tag = 16.
Proof.
  intros Hkey Hseal. unfold encrypt. rewrite Hkey, Nat.eqb_refl, Hseal.
  split; [reflexivity|]. split; [apply rand_vector_length|].
  eapply gcm_tag_length, Hseal.
Qed.

Lemma decrypt_encrypt (iv_entropy pt : list Z) (key : string) :
  String.length key = KEY_SIZE →
  encrypt iv_entropy pt key ≠ [] →
  decrypt (encrypt iv_entropy pt key) key = pt.
Proof.
  intros Hkey Hne. unfold encrypt in *. rewrite Hkey, Nat.eqb_refl in *. cbn [negb] in *.
  destruct (gcm_seal key (generateRandomIV iv_entropy) pt) as [[ct tag]|] eqn:Hseal;
    [|done].
  pose proof (gcm_tag_length _ _ _ _ _ Hseal) as Htag.
  pose proof (rand_vector_length IV_SIZE iv_entropy) as Hiv.
  fold (generateRandomIV iv_entropy) in Hiv.
  unfold decrypt. rewrite Hkey, Nat.eqb_refl. cbn [negb orb].
  rewrite !length_app, Hiv, Htag.
  destruct (Nat.ltb_spec (IV_SIZE + (length ct + 16)) (IV_SIZE + TAG_SIZE)) as [Hlt|_].
  { unfold IV_SIZE, TAG_SIZE in Hlt. lia. }
  rewrite take_app_length' by (symmetry; exact Hiv).
  rewrite drop_app_length' by (symmetry; exact Hiv).
  replace (IV_SIZE + (length ct + 16) - IV_SIZE - TAG_SIZE) with (length ct)
    by (unfold IV_SIZE, TAG_SIZE; lia).
  rewrite take_app_length.
  replace (IV_SIZE + (length ct + 16) - TAG_SIZE)
    with (length (generateRandomIV iv_entropy ++ ct))
    by (rewrite length_app, Hiv; unfold IV_SIZE, TAG_SIZE; lia).
  rewrite app_assoc, drop_app_length.
  rewrite (gcm_open_seal _ _ _ _ _ Hseal). reflexivity.
Qed.
End WithCipher.

(** C5, on the code.  Whenever [CreateFile] succeeds with encryption
    enabled, the key it stored under [file_id + "_key"] makes
    [encryptChunk] fail (the empty vector) for every slice: the key is the
    hex print of 32 random bytes, 64 characters, and [encrypt] insists on
    32. *)
Theorem minted_key_cannot_encrypt `{AesGcm} (st st' : MasterServer.t)
    (filename : string) (file_size : Z) (enable_erasure_coding : bool)
    (e : MasterServer.create_env) (response : MasterServer.CreateFileResponse)
    (iv_entropy slice : list Z) :
  MasterServer.CreateFile st filename file_size true enable_erasure_coding e
    = (response, st') →
  MasterServer.cf_success response = true →
  let key_id := MasterServer.cf_file_id response +:+ "_key" in
  Crypto.hasKey (MasterServer.keys_ st') key_id = true
  ∧ (String.length (Crypto.getKey (MasterServer.keys_ st') key_id) = 64
     ∨ Crypto.getKey (MasterServer.keys_ st') key_id = EmptyString)
  ∧ Crypto.encryptChunk (MasterServer.keys_ st') iv_entropy slice key_id = [].
Proof.
  unfold MasterServer.CreateFile. intros Hcreate Hok.
  destruct (negb (MasterServer.validateFileName filename));
    [by inversion Hcreate; subst|].
  destruct (MetadataManager.getFileMetadata _ filename) eqn:Hget;
    [by inversion Hcreate; subst|].
  unfold MetadataManager.createFile in Hcreate.
  unfold MetadataManager.getFileMetadata in Hget. rewrite Hget in Hcreate.
  inversion Hcreate; subst; clear Hcreate. cbn.
  unfold Crypto.hasKey, Crypto.encryptChunk, Crypto.getKey, Crypto.storeKey,
    Crypto.generateKey.
  rewrite lookup_insert_eq. cbn.
  split; [reflexivity|].
  split; [apply generateRandomKey_length|].
  case_bool_decide; [reflexivity | apply encrypt_rejects_generated_key].
Qed.

(** The theorem at a concrete file: the scenario's "hello world" stored as
    [/f3] with encryption, on a fresh master. *)
Lemma minted_key_cannot_encrypt_witness :
  let e := {| MasterServer.random_id := "abc"; MasterServer.create_now := 0;
              MasterServer.key_rand := Some [] |} in
  let '(response, st') :=
    MasterServer.CreateFile MasterServer.init "/f3" 11 true false e in
  MasterServer.cf_success response = true
  ∧ Crypto.encryptChunk (H := copy_cipher) (MasterServer.keys_ st') []
      [104; 101; 108; 108; 111]%Z (MasterServer.cf_file_id response +:+ "_key") = [].
Proof.
  intros e.
  destruct (MasterServer.CreateFile MasterServer.init "/f3" 11 true false e)
    as [response st'] eqn:Hcreate.
  assert (Hok : MasterServer.cf_success response = true).
  { vm_compute in Hcreate. by inversion Hcreate. }
  split; [exact Hok|].
  eapply (minted_key_cannot_encrypt (H := copy_cipher)); [exact Hcreate | exact Hok].
Defined.

End CryptoProps.

(** * Properties of the chunk server *)

Module ChunkServerProps.
Import ChunkStorage ChunkServer.

Section WithHash.
Context `{HashOracle}.

(** A supplied checksum that does not match is turned down before the
    storage is touched. *)
Lemma WriteChunk_checksum_mismatch (storage_ : ChunkStorage.t)
    (request : WriteChunkRequest) (io : disk_io) :
  w_checksum request ≠ EmptyString →
  calculateSHA256 (w_data request) ≠ w_checksum request →
  WriteChunk storage_ request io
  = ({| w_success := false; w_stored_checksum := EmptyString;
        w_message := "Checksum mismatch" |}, storage_).
Proof.
  intros Hgiven Hdiff. unfold WriteChunk.
  rewrite !bool_decide_eq_false_2 by done. reflexivity.
Qed.

(** A failed write leaves both in-memory indices as they were. *)
Lemma WriteChunk_failure_keeps_indices (storage_ storage' : ChunkStorage.t)
    (request : WriteChunkRequest) (io : disk_io) (response : WriteChunkResponse) :
  WriteChunk storage_ request io = (response, storage') →
  w_success response = false →
  stored_chunks_ storage' = stored_chunks_ storage_
  ∧ chunk_checksums_ storage' = chunk_checksums_ storage_.
Proof.
  unfold WriteChunk, writeChunk. intros Hw Hfail.
  destruct (negb _ && negb _); [by inversion Hw; subst|].
  destruct (writeFile _ _ _ _) as [written files].
  destruct written; cbn in Hw; [|by inversion Hw; subst].
  destruct (saveChunkMetadata _ _ _ _ _ _ _) as [saved metas].
  destruct saved; cbn in Hw; inversion Hw; subst; [discriminate Hfail | done].
Qed.

(** When the sidecar cannot be written, the data file just written is
    unlinked again. *)
Lemma WriteChunk_sidecar_failure_unlinks (storage_ storage' : ChunkStorage.t)
    (request : WriteChunkRequest) (io : disk_io) (response : WriteChunkResponse) :
  WriteChunk storage_ request io = (response, storage') →
  w_checksum request = EmptyString ∨ calculateSHA256 (w_data request) = w_checksum request →
  data_write io = WriteOk → meta_write io ≠ WriteOk → unlink_ok io = true →
  w_success response = false ∧ data_files storage' !! w_chunk_id request = None.
Proof.
  unfold WriteChunk, writeChunk. intros Hw Hsum Hdata Hmeta Hunlink.
  replace (negb (bool_decide (w_checksum request = EmptyString))
           && negb (bool_decide (calculateSHA256 (w_data request) = w_checksum request)))
    with false in Hw
    by (destruct Hsum; [rewrite (bool_decide_eq_true_2 (w_checksum request = EmptyString))
                       | rewrite (bool_decide_eq_true_2 (calculateSHA256 _ = _))];
        try done; by destruct (negb _)).
  rewrite Hdata, Hunlink in Hw. cbn in Hw.
  destruct (meta_write io) eqn:Hm; [done| |]; cbn in Hw;
    inversion Hw; subst; cbn; (split; [done|]);
    unfold deleteFile; rewrite lookup_insert_eq; cbn;
    by rewrite lookup_delete_eq.
Qed.


(** What [readChunk] hands out, when it hands out anything. *)
Lemma readChunk_nonempty (storage_ : ChunkStorage.t) (chunk_id : string) :
  readChunk storage_ chunk_id ≠ [] →
  chunk_id ∈ stored_chunks_ storage_
  ∧ readChunk storage_ chunk_id = readFile (data_files storage_) chunk_id
  ∧ ∀ recorded, expected_checksum storage_ chunk_id = Some recorded →
      calculateSHA256 (readChunk storage_ chunk_id) = recorded.
Proof.
  unfold readChunk. case_bool_decide as Hstored; cbn [negb]; [|done].
  case_bool_decide as Hempty; [done|].
  destruct (expected_checksum storage_ chunk_id) as [c|]; [|done].
  case_bool_decide as Hsum; [|done].
  intros _. split; [done|]. split; [done|]. by intros ? [= <-].
Qed.

Lemma verifyChunkIntegrity_recorded (storage_ : ChunkStorage.t) (chunk_id : string) :
  verifyChunkIntegrity storage_ chunk_id = true →
  is_Some (expected_checksum storage_ chunk_id).
Proof.
  unfold verifyChunkIntegrity, expected_checksum.
  destruct (negb _); [done|]. case_bool_decide; [done|].
  destruct (chunk_checksums_ storage_ !! chunk_id); [by eauto|].
  destruct (loadChunkMetadata _ _); [by eauto | done].
Qed.

(** C10.  Whenever [ReadChunk] answers with bytes, and a checksum is
    recorded for the chunk (in the index, or else in its sidecar), the
    bytes hash to that checksum, whether or not the request asked for
    verification; when none is recorded, bytes are only returned to a
    request that did not ask for it. *)
Theorem ReadChunk_returns_verified_bytes (storage_ : ChunkStorage.t)
    (request : ReadChunkRequest) :
  r_success (ReadChunk storage_ request) = true →
  r_data (ReadChunk storage_ request) = readFile (data_files storage_) (r_chunk_id request)
  ∧ match expected_checksum storage_ (r_chunk_id request) with
    | Some recorded => calculateSHA256 (r_data (ReadChunk storage_ request)) = recorded
    | None => r_verify_integrity request = false
    end.
Proof.
  unfold ReadChunk.
  pose proof (readChunk_nonempty storage_ (r_chunk_id request)) as Hread.
  pose proof (verifyChunkIntegrity_recorded storage_ (r_chunk_id request)) as Hverify.
  case_bool_decide as Hempty; [done|].
  destruct (Hread Hempty) as (_ & Hfile & Hsum).
  destruct (r_verify_integrity request) eqn:Hflag; cbn [andb].
  - destruct (verifyChunkIntegrity storage_ (r_chunk_id request)); cbn; [|done].
    intros _. split; [done|]. destruct (Hverify eq_refl) as [c Hc].
    rewrite Hc. by apply Hsum.
  - cbn. intros _. split; [done|].
    destruct (expected_checksum storage_ (r_chunk_id request)) as [c|]; [by apply Hsum | done].
Qed.

End WithHash.

(** The theorem at a concrete read: the chunk [1; 2] was written without
    faults and is read back without the verification flag. *)
Lemma ReadChunk_returns_verified_bytes_witness :
  let good := snd (writeChunk (H := hex_print_hash) ChunkStorage.empty "c" [1; 2]%Z
                     false false no_fault) in
  let request := {| r_chunk_id := "c"; r_verify_integrity := false |} in
  r_data (ReadChunk (H := hex_print_hash) good request) = [1; 2]%Z
  ∧ calculateSHA256 (HashOracle := hex_print_hash)
      (r_data (ReadChunk (H := hex_print_hash) good request)) = "0102".
Proof.
  intros good request.
  destruct (ReadChunk_returns_verified_bytes (H := hex_print_hash) good request)
    as [Hdata Hsum]; [vm_compute; reflexivity|].
  split; [rewrite Hdata; vm_compute; reflexivity|].
  replace (expected_checksum good (r_chunk_id request)) with (Some "0102") in Hsum
    by (vm_compute; reflexivity).
  exact Hsum.
Defined.

End ChunkServerProps.

(** * Properties of the metadata manager *)

Module MetadataManagerProps.
Import MetadataManager.

(** ** How the elementary updates move a pair in and out of a side *)

Lemma index_in_insert (m : gmap string (gset string)) (k x k0 x0 : string) :
  index_in (set_insert m k x) k0 x0 = true
  ↔ index_in m k0 x0 = true ∨ (k0 = k ∧ x0 = x).
Proof.
  unfold index_in, set_insert. rewrite !bool_decide_eq_true.
  destruct (decide (k = k0)) as [->|Hne].
  - rewrite lookup_insert_eq. cbn. set_solver.
  - rewrite lookup_insert_ne by done. naive_solver.
Qed.

Lemma index_in_erase (m : gmap string (gset string)) (k x k0 x0 : string) :
  index_in (set_erase m k x) k0 x0 = true
  ↔ index_in m k0 x0 = true ∧ ¬ (k0 = k ∧ x0 = x).
Proof.
  unfold index_in, set_erase. rewrite !bool_decide_eq_true.
  destruct (decide (k = k0)) as [->|Hne].
  - rewrite lookup_insert_eq. cbn. set_solver.
  - rewrite lookup_insert_ne by done. naive_solver.
Qed.

Lemma stores_in_insert (servers : gmap string ServerMetadata.t) (s c c0 s0 : string) :
  stores_in (server_insert_chunk servers s c) c0 s0 = true
  ↔ stores_in servers c0 s0 = true ∨ (c0 = c ∧ s0 = s ∧ is_Some (servers !! s)).
Proof.
  unfold stores_in, server_insert_chunk.
  destruct (servers !! s) as [sm|] eqn:Hs.
  - destruct (decide (s = s0)) as [->|Hne].
    + rewrite lookup_insert_eq, Hs. cbn. rewrite !bool_decide_eq_true.
      split; [set_solver | intros [?|(-> & _ & _)]; set_solver].
    + rewrite lookup_insert_ne by done. naive_solver.
  - split; [by left | intros [?|(_ & _ & [? ?])]; done].
Qed.

Lemma stores_in_erase (servers : gmap string ServerMetadata.t) (s c c0 s0 : string) :
  stores_in (server_erase_chunk servers s c) c0 s0 = true
  ↔ stores_in servers c0 s0 = true ∧ ¬ (c0 = c ∧ s0 = s).
Proof.
  unfold stores_in, server_erase_chunk.
  destruct (servers !! s) as [sm|] eqn:Hs.
  - destruct (decide (s = s0)) as [->|Hne].
    + rewrite lookup_insert_eq, Hs. cbn. rewrite !bool_decide_eq_true. set_solver.
    + rewrite lookup_insert_ne by done. naive_solver.
  - split; [|naive_solver]. intros Hst. split; [done|]. intros [-> ->].
    by rewrite Hs in Hst.
Qed.

Lemma server_insert_chunk_registered (servers : gmap string ServerMetadata.t)
    (s c s0 : string) :
  is_Some (server_insert_chunk servers s c !! s0) ↔ is_Some (servers !! s0).
Proof.
  unfold server_insert_chunk. destruct (servers !! s) eqn:Hs; [|done].
  destruct (decide (s = s0)) as [->|Hne].
  - rewrite lookup_insert_eq, Hs. split; eauto.
  - by rewrite lookup_insert_ne.
Qed.

Lemma server_erase_chunk_registered (servers : gmap string ServerMetadata.t)
    (s c s0 : string) :
  is_Some (server_erase_chunk servers s c !! s0) ↔ is_Some (servers !! s0).
Proof.
  unfold server_erase_chunk. destruct (servers !! s) eqn:Hs; [|done].
  destruct (decide (s = s0)) as [->|Hne].
  - rewrite lookup_insert_eq, Hs. split; eauto.
  - by rewrite lookup_insert_ne.
Qed.

Lemma elem_of_remove_location (locations : list string) (s s0 : string) :
  s0 ∈ remove_location locations s ↔ s0 ∈ locations ∧ s0 ≠ s.
Proof.
  unfold remove_location. rewrite !list_elem_of_In, filter_In, negb_true_iff,
    bool_decide_eq_false. done.
Qed.

(** ** The loops *)

Lemma link_loop (c : string) (locations : list string) (st : t) :
  let st' := fold_left (link c) locations st in
  chunks_ st' = chunks_ st
  ∧ (∀ s0, registered st' s0 ↔ registered st s0)
  ∧ (∀ c0 s0, stores st' c0 s0 = true
       ↔ stores st c0 s0 = true ∨ (c0 = c ∧ s0 ∈ locations ∧ registered st s0))
  ∧ (∀ c0 s0, in_chunk_index st' c0 s0 = true
       ↔ in_chunk_index st c0 s0 = true ∨ (c0 = c ∧ s0 ∈ locations))
  ∧ (∀ c0 s0, in_server_index st' c0 s0 = true
       ↔ in_server_index st c0 s0 = true ∨ (c0 = c ∧ s0 ∈ locations)).
Proof.
  revert st. induction locations as [|s l IH]; intros st; cbn [fold_left].
  - repeat split; try tauto; try (intros [?|(_ & Hin & _)]; [done | by inversion Hin]);
      try (intros [?|(_ & Hin)]; [done | by inversion Hin]).
  - destruct (IH (link c st s)) as (Hc & Hr & Hs & Hi1 & Hi2).
    split; [by rewrite Hc|].
    assert (Hreg : ∀ s0, registered (link c st s) s0 ↔ registered st s0)
      by (intros; apply server_insert_chunk_registered).
    split; [intros; by rewrite Hr, Hreg|].
    split; [|split]; intros c0 s0.
    + rewrite Hs, Hreg. unfold stores at 1. cbn [link servers_].
      rewrite stores_in_insert. fold (stores st c0 s0) (registered st s).
      rewrite elem_of_cons. naive_solver.
    + rewrite Hi1. unfold in_chunk_index at 1. cbn [link chunk_to_servers_].
      rewrite index_in_insert. fold (in_chunk_index st c0 s0).
      rewrite elem_of_cons. naive_solver.
    + rewrite Hi2. unfold in_server_index at 1. cbn [link server_to_chunks_].
      rewrite index_in_insert. fold (in_server_index st c0 s0).
      rewrite elem_of_cons. naive_solver.
Qed.


Lemma unlink_server_loop (c : string) (l : list string) (st : t) :
  let st' := fold_left (unlink_server c) l st in
  chunks_ st' = chunks_ st
  ∧ chunk_to_servers_ st' = chunk_to_servers_ st
  ∧ (∀ s0, registered st' s0 ↔ registered st s0)
  ∧ (∀ c0 s0, stores st' c0 s0 = true
       ↔ stores st c0 s0 = true ∧ ¬ (c0 = c ∧ s0 ∈ l))
  ∧ (∀ c0 s0, in_server_index st' c0 s0 = true
       ↔ in_server_index st c0 s0 = true ∧ ¬ (c0 = c ∧ s0 ∈ l)).
Proof.
  revert st. induction l as [|s l IH]; intros st; cbn [fold_left].
  - repeat split; try tauto; intros [_ Hin]; by inversion Hin.
  - destruct (IH (unlink_server c st s)) as (Hc & Hi & Hr & Hs & Hi2).
    split; [by rewrite Hc|]. split; [by rewrite Hi|].
    assert (Hreg : ∀ s0, registered (unlink_server c st s) s0 ↔ registered st s0)
      by (intros; apply server_erase_chunk_registered).
    split; [intros; by rewrite Hr, Hreg|].
    split; intros c0 s0.
    + rewrite Hs. unfold stores at 1. cbn [unlink_server servers_].
      rewrite stores_in_erase. fold (stores st c0 s0).
      rewrite elem_of_cons. naive_solver.
    + rewrite Hi2. unfold in_server_index at 1. cbn [unlink_server server_to_chunks_].
      rewrite index_in_erase. fold (in_server_index st c0 s0).
      rewrite elem_of_cons. naive_solver.
Qed.

Lemma has_location_unlink_chunk (s : string) (st : t) (c c0 s0 : string) :
  has_location (unlink_chunk s st c) c0 s0 = true
  ↔ has_location st c0 s0 = true ∧ ¬ (c0 = c ∧ s0 = s).
Proof.
  unfold has_location. cbn [unlink_chunk chunks_].
  destruct (chunks_ st !! c) as [cm|] eqn:Hc.
  - destruct (decide (c = c0)) as [->|Hne].
    + rewrite lookup_insert_eq, Hc. cbn. rewrite !bool_decide_eq_true.
      rewrite elem_of_remove_location. naive_solver.
    + rewrite lookup_insert_ne by done. naive_solver.
  - split; [|naive_solver]. intros Hl. split; [done|]. intros [-> ->].
    by rewrite Hc in Hl.
Qed.

Lemma unlink_chunk_loop (s : string) (l : list string) (st : t) :
  let st' := fold_left (unlink_chunk s) l st in
  servers_ st' = servers_ st
  ∧ server_to_chunks_ st' = server_to_chunks_ st
  ∧ (∀ c0 s0, has_location st' c0 s0 = true
       ↔ has_location st c0 s0 = true ∧ ¬ (s0 = s ∧ c0 ∈ l))
  ∧ (∀ c0 s0, in_chunk_index st' c0 s0 = true
       ↔ in_chunk_index st c0 s0 = true ∧ ¬ (s0 = s ∧ c0 ∈ l)).
Proof.
  revert st. induction l as [|c l IH]; intros st; cbn [fold_left].
  - repeat split; try tauto; intros [_ Hin]; by inversion Hin.
  - destruct (IH (unlink_chunk s st c)) as (Hs & Hi & Hl & Hi1).
    split; [by rewrite Hs|]. split; [by rewrite Hi|].
    split; intros c0 s0.
    + rewrite Hl, has_location_unlink_chunk, elem_of_cons. naive_solver.
    + rewrite Hi1. unfold in_chunk_index at 1. cbn [unlink_chunk chunk_to_servers_].
      rewrite index_in_erase. fold (in_chunk_index st c0 s0).
      rewrite elem_of_cons. naive_solver.
Qed.

Lemma index_in_delete (m : gmap string (gset string)) (k k0 x0 : string) :
  index_in (delete k m) k0 x0 = true ↔ index_in m k0 x0 = true ∧ k0 ≠ k.
Proof.
  unfold index_in. rewrite !bool_decide_eq_true.
  destruct (decide (k = k0)) as [->|Hne].
  - rewrite lookup_delete_eq. cbn. set_solver.
  - rewrite lookup_delete_ne by done. naive_solver.
Qed.

Lemma index_in_clear (m : gmap string (gset string)) (k k0 x0 : string) :
  index_in (<[k := ∅]> m) k0 x0 = true ↔ index_in m k0 x0 = true ∧ k0 ≠ k.
Proof.
  unfold index_in. rewrite !bool_decide_eq_true.
  destruct (decide (k = k0)) as [->|Hne].
  - rewrite lookup_insert_eq. cbn. set_solver.
  - rewrite lookup_insert_ne by done. naive_solver.
Qed.

Lemma index_in_elements (m : gmap string (gset string)) (k x : string) (set : gset string) :
  m !! k = Some set → (x ∈ elements set ↔ index_in m k x = true).
Proof.
  intros Hm. unfold index_in. rewrite Hm, bool_decide_eq_true, elem_of_elements. done.
Qed.

Lemma index_in_missing (m : gmap string (gset string)) (k x : string) :
  m !! k = None → index_in m k x = false.
Proof. intros Hm. unfold index_in. rewrite Hm. apply bool_decide_eq_false. set_solver. Qed.

Lemma removeChunkFromAllServers_effect (st : t) (c : string) :
  let st' := removeChunkFromAllServers st c in
  chunks_ st' = chunks_ st
  ∧ (∀ s0, registered st' s0 ↔ registered st s0)
  ∧ (∀ c0 s0, stores st' c0 s0 = true
       ↔ stores st c0 s0 = true ∧ ¬ (c0 = c ∧ in_chunk_index st c s0 = true))
  ∧ (∀ c0 s0, in_chunk_index st' c0 s0 = true
       ↔ in_chunk_index st c0 s0 = true ∧ c0 ≠ c)
  ∧ (∀ c0 s0, in_server_index st' c0 s0 = true
       ↔ in_server_index st c0 s0 = true ∧ ¬ (c0 = c ∧ in_chunk_index st c s0 = true)).
Proof.
  unfold removeChunkFromAllServers.
  destruct (chunk_to_servers_ st !! c) as [set|] eqn:Hset.
  - destruct (unlink_server_loop c (elements set) st) as (Hc & Hi & Hr & Hs & Hi2).
    cbn zeta. split; [done|]. split; [done|].
    split; [|split]; intros c0 s0.
    + unfold stores at 1. cbn [set_chunk_to_servers servers_].
      fold (stores (fold_left (unlink_server c) (elements set) st) c0 s0).
      rewrite Hs. unfold in_chunk_index. by rewrite (index_in_elements _ _ _ _ Hset).
    + unfold in_chunk_index at 1. cbn [set_chunk_to_servers chunk_to_servers_].
      rewrite index_in_delete, Hi. done.
    + unfold in_server_index at 1. cbn [set_chunk_to_servers server_to_chunks_].
      fold (in_server_index (fold_left (unlink_server c) (elements set) st) c0 s0).
      rewrite Hi2. unfold in_chunk_index. by rewrite (index_in_elements _ _ _ _ Hset).
  - cbn zeta. pose proof (λ x, index_in_missing _ _ x Hset) as Hnone.
    unfold in_chunk_index. split; [done|]. split; [done|].
    split; [|split]; intros c0 s0; rewrite ?Hnone.
    + naive_solver.
    + split; [|tauto]. intros Hin. split; [done|]. intros ->. by rewrite Hnone in Hin.
    + naive_solver.
Qed.

Lemma removeAllChunksFromServer_effect (st : t) (s : string) :
  let st' := removeAllChunksFromServer st s in
  servers_ st' = servers_ st
  ∧ (∀ c0 s0, has_location st' c0 s0 = true
       ↔ has_location st c0 s0 = true ∧ ¬ (s0 = s ∧ in_server_index st c0 s = true))
  ∧ (∀ c0 s0, in_chunk_index st' c0 s0 = true
       ↔ in_chunk_index st c0 s0 = true ∧ ¬ (s0 = s ∧ in_server_index st c0 s = true))
  ∧ (∀ c0 s0, in_server_index st' c0 s0 = true
       ↔ in_server_index st c0 s0 = true ∧ s0 ≠ s).
Proof.
  unfold removeAllChunksFromServer.
  destruct (server_to_chunks_ st !! s) as [set|] eqn:Hset.
  - destruct (unlink_chunk_loop s (elements set) st) as (Hs & Hi & Hl & Hi1).
    cbn zeta. split; [done|].
    split; [|split]; intros c0 s0.
    + unfold has_location at 1. cbn [set_server_to_chunks chunks_].
      fold (has_location (fold_left (unlink_chunk s) (elements set) st) c0 s0).
      rewrite Hl. unfold in_server_index. by rewrite (index_in_elements _ _ _ _ Hset).
    + unfold in_chunk_index at 1. cbn [set_server_to_chunks chunk_to_servers_].
      fold (in_chunk_index (fold_left (unlink_chunk s) (elements set) st) c0 s0).
      rewrite Hi1. unfold in_server_index. by rewrite (index_in_elements _ _ _ _ Hset).
    + unfold in_server_index at 1. cbn [set_server_to_chunks server_to_chunks_].
      rewrite index_in_clear, Hi. done.
  - cbn zeta. pose proof (λ x, index_in_missing _ _ x Hset) as Hnone.
    unfold in_server_index. split; [done|].
    split; [|split]; intros c0 s0; rewrite ?Hnone.
    + naive_solver.
    + naive_solver.
    + split; [|tauto]. intros Hin. split; [done|]. intros ->. by rewrite Hnone in Hin.
Qed.


(** ** The invariant and the mutations *)

Lemma sides_agree_iff (st : t) :
  sides_agree st
  ↔ ∀ c s, (has_location st c s = true ↔ stores st c s = true)
           ∧ (stores st c s = true
              ↔ in_chunk_index st c s = true ∧ in_server_index st c s = true).
Proof.
  unfold sides_agree. split; intros Hagree c s; destruct (Hagree c s) as [H1 H2].
  - rewrite H1, H2, andb_true_iff. done.
  - rewrite <- andb_true_iff in H2. split; apply Bool.eq_iff_eq_true; done.
Qed.

Lemma has_location_set_chunks (st : t) (c : string) (cm : ChunkMetadata.t) (c0 s0 : string) :
  has_location (set_chunks st (<[c := cm]> (chunks_ st))) c0 s0 = true
  ↔ (c0 = c ∧ s0 ∈ ChunkMetadata.server_locations cm)
    ∨ (c0 ≠ c ∧ has_location st c0 s0 = true).
Proof.
  unfold has_location. cbn [set_chunks chunks_].
  destruct (decide (c = c0)) as [->|Hne].
  - rewrite lookup_insert_eq, bool_decide_eq_true. naive_solver.
  - rewrite lookup_insert_ne by done. naive_solver.
Qed.

Lemma addChunk_keeps_agreement (st : t) (c : string) (m : ChunkMetadata.t) :
  sides_agree st → chunks_ st !! c = None →
  (∀ s, s ∈ ChunkMetadata.server_locations m → registered st s) →
  sides_agree (addChunk st c m).
Proof.
  rewrite !sides_agree_iff. intros Hagree Hfresh Hreg c0 s0. unfold addChunk.
  set (st1 := set_chunks st (<[c := m]> (chunks_ st))).
  destruct (link_loop c (ChunkMetadata.server_locations m) st1) as (Hc & _ & Hs & Hi1 & Hi2).
  destruct (Hagree c0 s0) as [HLS HSI].
  assert (HL : has_location (fold_left (link c) (ChunkMetadata.server_locations m) st1) c0 s0
               = has_location st1 c0 s0) by (unfold has_location; by rewrite Hc).
  rewrite HL, Hs, Hi1, Hi2. subst st1. rewrite has_location_set_chunks.
  change (stores (set_chunks st _) c0 s0) with (stores st c0 s0).
  change (in_chunk_index (set_chunks st _) c0 s0) with (in_chunk_index st c0 s0).
  change (in_server_index (set_chunks st _) c0 s0) with (in_server_index st c0 s0).
  change (registered (set_chunks st _) s0) with (registered st s0).
  assert (Hnone : c0 = c → has_location st c0 s0 = false)
    by (intros ->; unfold has_location; by rewrite Hfresh).
  specialize (Hreg s0).
  destruct (decide (c0 = c)) as [->|Hne].
  - rewrite (Hnone eq_refl) in HLS. split; [naive_solver|].
    split; [naive_solver|]. intros [[?|?] [?|?]]; naive_solver.
  - naive_solver.
Qed.

Lemma addChunkToServer_keeps_agreement (st : t) (c s : string) :
  sides_agree st → is_Some (chunks_ st !! c) → registered st s →
  sides_agree (addChunkToServer st c s).
Proof.
  rewrite !sides_agree_iff. intros Hagree [cm Hcm] Hreg c0 s0.
  destruct (Hagree c0 s0) as [HLS HSI].
  assert (HL : has_location (addChunkToServer st c s) c0 s0 = true
               ↔ has_location st c0 s0 = true ∨ (c0 = c ∧ s0 = s)).
  { unfold has_location. cbn [addChunkToServer chunks_]. rewrite Hcm.
    case_bool_decide as Hin.
    - split; [by left|]. intros [?|[-> ->]]; [done|].
      rewrite Hcm. by apply bool_decide_eq_true.
    - destruct (decide (c = c0)) as [->|Hne].
      + rewrite lookup_insert_eq, Hcm. cbn. rewrite !bool_decide_eq_true, elem_of_app,
          list_elem_of_singleton. naive_solver.
      + rewrite lookup_insert_ne by done. naive_solver. }
  rewrite HL. unfold stores, in_chunk_index, in_server_index.
  cbn [addChunkToServer servers_ chunk_to_servers_ server_to_chunks_].
  rewrite stores_in_insert, !index_in_insert.
  fold (stores st c0 s0) (in_chunk_index st c0 s0) (in_server_index st c0 s0).
  fold (registered st s). naive_solver.
Qed.

Lemma removeChunkFromServer_keeps_agreement (st : t) (c s : string) :
  sides_agree st → sides_agree (removeChunkFromServer st c s).
Proof.
  rewrite !sides_agree_iff. intros Hagree c0 s0.
  destruct (Hagree c0 s0) as [HLS HSI].
  assert (HL : has_location (removeChunkFromServer st c s) c0 s0 = true
               ↔ has_location st c0 s0 = true ∧ ¬ (c0 = c ∧ s0 = s))
    by apply (has_location_unlink_chunk s st c).
  rewrite HL. unfold stores, in_chunk_index, in_server_index.
  cbn [removeChunkFromServer servers_ chunk_to_servers_ server_to_chunks_].
  rewrite stores_in_erase, !index_in_erase.
  fold (stores st c0 s0) (in_chunk_index st c0 s0) (in_server_index st c0 s0).
  naive_solver.
Qed.

Lemma updateChunkLocations_keeps_agreement (st : t) (c : string) (locations : list string) :
  sides_agree st → (∀ s, s ∈ locations → registered st s) →
  sides_agree (updateChunkLocations st c locations).2.
Proof.
  intros Hagree Hreg. unfold updateChunkLocations.
  destruct (chunks_ st !! c) as [cm|] eqn:Hcm; [|done]. cbn [snd].
  revert Hagree. rewrite !sides_agree_iff. intros Hagree c0 s0.
  destruct (removeChunkFromAllServers_effect st c) as (Hc & Hr & Hs & Hi1 & Hi2).
  set (st1 := removeChunkFromAllServers st c) in *.
  set (st2 := set_chunks st1
                (<[c := ChunkMetadata.with_server_locations cm locations]> (chunks_ st1))).
  destruct (link_loop c locations st2) as (Hc' & _ & Hs' & Hi1' & Hi2').
  assert (HL : has_location (fold_left (link c) locations st2) c0 s0
               = has_location st2 c0 s0) by (unfold has_location; by rewrite Hc').
  rewrite HL, Hs', Hi1', Hi2'. subst st2. rewrite has_location_set_chunks.
  change (stores (set_chunks st1 _) c0 s0) with (stores st1 c0 s0).
  change (in_chunk_index (set_chunks st1 _) c0 s0) with (in_chunk_index st1 c0 s0).
  change (in_server_index (set_chunks st1 _) c0 s0) with (in_server_index st1 c0 s0).
  change (registered (set_chunks st1 _) s0) with (registered st1 s0).
  rewrite Hs, Hi1, Hi2, Hr. cbn [ChunkMetadata.server_locations
    ChunkMetadata.with_server_locations].
  assert (HL1 : has_location st1 c0 s0 = has_location st c0 s0)
    by (unfold has_location; by rewrite Hc).
  rewrite HL1.
  destruct (Hagree c0 s0) as [HLS HSI]. destruct (Hagree c s0) as [_ HSIc].
  specialize (Hreg s0).
  destruct (decide (c0 = c)) as [->|Hne]; naive_solver.
Qed.

Lemma unregisterServer_keeps_agreement (st : t) (s : string) :
  sides_agree st → sides_agree (unregisterServer st s).2.
Proof.
  intros Hagree. unfold unregisterServer.
  destruct (servers_ st !! s) as [sm|] eqn:Hsm; [|done]. cbn [snd].
  revert Hagree. rewrite !sides_agree_iff. intros Hagree c0 s0.
  destruct (removeAllChunksFromServer_effect st s) as (Hs & Hl & Hi1 & Hi2).
  set (st1 := removeAllChunksFromServer st s) in *.
  assert (HS : stores (set_server_to_chunks (set_servers st1 (delete s (servers_ st1)))
                         (delete s (server_to_chunks_
                                      (set_servers st1 (delete s (servers_ st1)))))) c0 s0 = true
               ↔ stores st c0 s0 = true ∧ s0 ≠ s).
  { unfold stores, stores_in. cbn [set_server_to_chunks set_servers servers_]. rewrite Hs.
    destruct (decide (s = s0)) as [->|Hne].
    - rewrite lookup_delete_eq. naive_solver.
    - rewrite lookup_delete_ne by done. naive_solver. }
  rewrite HS.
  change (has_location (set_server_to_chunks _ _) c0 s0) with (has_location st1 c0 s0).
  change (in_chunk_index (set_server_to_chunks _ _) c0 s0) with (in_chunk_index st1 c0 s0).
  unfold in_server_index at 1.
  cbn [set_server_to_chunks set_servers server_to_chunks_].
  rewrite index_in_delete. fold (in_server_index st1 c0 s0).
  rewrite Hl, Hi1, Hi2.
  destruct (Hagree c0 s0) as [HLS HSI]. destruct (Hagree c0 s) as [HLSs HSIs].
  destruct (decide (s0 = s)) as [->|Hne]; naive_solver.
Qed.


Lemma sides_agree_empty : sides_agree MetadataManager.empty.
Proof. intros c s. split; reflexivity. Qed.

(** Registering a server the master does not know yet, with an empty
    inventory, keeps the sides in agreement. *)
Lemma registerServer_keeps_agreement (st : t) (s : string) (sm : ServerMetadata.t) :
  sides_agree st → servers_ st !! s = None → ServerMetadata.stored_chunks sm = ∅ →
  sides_agree (registerServer st s sm).
Proof.
  rewrite !sides_agree_iff. intros Hagree Hnew Hempty c0 s0.
  destruct (Hagree c0 s0) as [HLS HSI].
  change (has_location (registerServer st s sm) c0 s0) with (has_location st c0 s0).
  change (in_chunk_index (registerServer st s sm) c0 s0) with (in_chunk_index st c0 s0).
  assert (HS : stores (registerServer st s sm) c0 s0 = stores st c0 s0).
  { unfold stores, stores_in. cbn [registerServer set_server_to_chunks set_servers servers_].
    destruct (decide (s = s0)) as [->|Hne].
    - rewrite lookup_insert_eq, Hnew, Hempty. apply bool_decide_eq_false. set_solver.
    - by rewrite lookup_insert_ne. }
  assert (HI : in_server_index (registerServer st s sm) c0 s0 = in_server_index st c0 s0).
  { unfold in_server_index, index_in.
    cbn [registerServer set_server_to_chunks set_servers server_to_chunks_].
    destruct (decide (s = s0)) as [->|Hne].
    - by rewrite lookup_insert_eq.
    - by rewrite lookup_insert_ne. }
  rewrite HS, HI. done.
Qed.

(** C6, as amended.  From a state in which the three sides agree, each of
    the five mutations leads to a state in which they agree again:
    [addChunk] of a chunk id not recorded yet, placed on registered
    servers; [addChunkToServer] for a recorded chunk and a registered
    server; [removeChunkFromServer]; [updateChunkLocations] to registered
    servers; and [unregisterServer]. *)
Theorem mutations_keep_sides_in_agreement (st : t) :
  sides_agree st →
  (∀ c m, chunks_ st !! c = None →
          (∀ s, s ∈ ChunkMetadata.server_locations m → registered st s) →
          sides_agree (addChunk st c m))
  ∧ (∀ c s, is_Some (chunks_ st !! c) → registered st s →
            sides_agree (addChunkToServer st c s))
  ∧ (∀ c s, sides_agree (removeChunkFromServer st c s))
  ∧ (∀ c locations, (∀ s, s ∈ locations → registered st s) →
                    sides_agree (updateChunkLocations st c locations).2)
  ∧ (∀ s, sides_agree (unregisterServer st s).2).
Proof.
  intros Hagree. split; [|split; [|split; [|split]]]; intros.
  - by apply addChunk_keeps_agreement.
  - by apply addChunkToServer_keeps_agreement.
  - by apply removeChunkFromServer_keeps_agreement.
  - by apply updateChunkLocations_keeps_agreement.
  - by apply unregisterServer_keeps_agreement.
Qed.


Lemma sides_agree_one_server : sides_agree one_server.
Proof.
  apply registerServer_keeps_agreement; [apply sides_agree_empty | done | done].
Qed.

(** The theorem at [one_server]: a chunk placed on [s1], then removed
    from it again. *)
Lemma mutations_keep_sides_in_agreement_witness :
  sides_agree (addChunk one_server "c" (chunk_at "c" ["s1"]))
  ∧ sides_agree (removeChunkFromServer (addChunk one_server "c" (chunk_at "c" ["s1"]))
                   "c" "s1")
  ∧ has_location (addChunk one_server "c" (chunk_at "c" ["s1"])) "c" "s1" = true
  ∧ stores (addChunk one_server "c" (chunk_at "c" ["s1"])) "c" "s1" = true.
Proof.
  assert (Hadd : sides_agree (addChunk one_server "c" (chunk_at "c" ["s1"]))).
  { destruct (mutations_keep_sides_in_agreement one_server sides_agree_one_server)
      as (Hadd & _).
    apply Hadd; [reflexivity|]. intros s Hs. apply list_elem_of_singleton in Hs as ->.
    by eexists. }
  split; [exact Hadd|]. split.
  - destruct (mutations_keep_sides_in_agreement _ Hadd) as (_ & _ & Hremove & _).
    apply Hremove.
  - destruct (Hadd "c" "s1") as [HLS _]. rewrite <- HLS. split; reflexivity.
Defined.

(** C6, as stated, fails.  Each mutation below starts from a state in
    which the sides agree ([empty], [one_server], or [one_server] with the
    chunk [c] on [s1]) and ends in one in which they do not:
    - [addChunk] with a location that is not a registered server;
    - [addChunk] on a chunk id that is already recorded elsewhere;
    - [addChunkToServer] for a chunk the master has no record of;
    - a heartbeat of [s1] that reports the chunk [x] in its inventory. *)
Lemma mutations_break_agreement :
  (has_location (addChunk MetadataManager.empty "c" (chunk_at "c" ["s9"])) "c" "s9" = true
   ∧ stores (addChunk MetadataManager.empty "c" (chunk_at "c" ["s9"])) "c" "s9" = false)
  ∧ (let st := addChunk one_server "c" (chunk_at "c" ["s1"]) in
     has_location (addChunk st "c" (chunk_at "c" [])) "c" "s1" = false
     ∧ stores (addChunk st "c" (chunk_at "c" [])) "c" "s1" = true)
  ∧ (has_location (addChunkToServer one_server "c" "s1") "c" "s1" = false
     ∧ stores (addChunkToServer one_server "c" "s1") "c" "s1" = true)
  ∧ (let master := {| MasterServer.metadata_manager_ := one_server;
                      MasterServer.chunk_allocator_ := ChunkAllocator.init;
                      MasterServer.keys_ := ∅ |} in
     let request := {| MasterServer.hb_server_id := "s1";
                       MasterServer.hb_free_space := 999999999;
                       MasterServer.hb_chunk_count := 1;
                       MasterServer.hb_cpu_usage := 1.0%float;
                       MasterServer.hb_memory_usage := 1.0%float;
                       MasterServer.hb_stored_chunks := ["x"] |} in
     let st' := MasterServer.metadata_manager_
                  (MasterServer.SendHeartbeat master request 5).2 in
     has_location st' "x" "s1" = false
     ∧ stores st' "x" "s1" = true
     ∧ in_server_index st' "x" "s1" = false
     ∧ ¬ sides_agree st').
Proof.
  split; [|split; [|split]]; try (split; vm_compute; reflexivity).
  cbn zeta. split; [vm_compute; reflexivity|]. split; [vm_compute; reflexivity|].
  split; [vm_compute; reflexivity|].
  intros Hagree. destruct (Hagree "x" "s1") as [HLS _]. vm_compute in HLS. discriminate.
Qed.

End MetadataManagerProps.

(** * Properties of the chunk allocator *)

Module ChunkAllocatorProps.
Import MetadataManager ChunkAllocator.

Abbreviation ids := (map ServerMetadata.server_id).

(** ** Lists *)

Lemma NoDup_ids_filter (f : ServerMetadata.t → bool) (l : list ServerMetadata.t) :
  NoDup (ids l) → NoDup (ids (List.filter f l)).
Proof.
  induction l as [|x l IH]; cbn; [done|]. rewrite !NoDup_cons. intros [Hx Hl].
  destruct (f x); cbn; [|by apply IH]. rewrite NoDup_cons. split; [|by apply IH].
  intros Hin. apply Hx. apply list_elem_of_fmap in Hin as (y & -> & Hy).
  apply list_elem_of_fmap. exists y. split; [done|].
  apply list_elem_of_In, filter_In in Hy as [Hy _]. by apply list_elem_of_In.
Qed.

Lemma NoDup_ids_take (n : nat) (l : list ServerMetadata.t) :
  NoDup (ids l) → NoDup (ids (take n l)).
Proof.
  intros Hl. rewrite <- (take_drop n l), fmap_app in Hl.
  by apply NoDup_app in Hl as [? _].
Qed.

Lemma elem_of_ids_take (n : nat) (l : list ServerMetadata.t) (s : string) :
  s ∈ ids (take n l) → s ∈ ids l.
Proof.
  intros Hin. rewrite <- (take_drop n l), fmap_app, elem_of_app. by left.
Qed.

Lemma insert_by_load_perm (s : ServerMetadata.t) (l : list ServerMetadata.t) :
  insert_by_load s l ≡ₚ s :: l.
Proof.
  induction l as [|x l IH]; cbn; [done|].
  destruct (PrimFloat.ltb _ _); [done|]. rewrite IH. apply Permutation_swap.
Qed.

Lemma sort_by_load_perm (l : list ServerMetadata.t) : sort_by_load l ≡ₚ l.
Proof.
  induction l as [|x l IH]; cbn; [done|]. by rewrite insert_by_load_perm, IH.
Qed.

Lemma shuffle_perm {A} (draws : list nat) (l : list A) : shuffle draws l ≡ₚ l.
Proof.
  revert l. induction draws as [|d draws IH]; intros [|x l]; cbn [shuffle]; try done.
  set (i := (d mod length (x :: l))%nat).
  assert (Hi : (i < length (x :: l))%nat) by (apply Nat.mod_upper_bound; cbn; lia).
  destruct (lookup_lt_is_Some_2 (x :: l) i Hi) as [y Hy]. rewrite Hy. cbn [default].
  rewrite IH. symmetry. by apply delete_Permutation.
Qed.

(** ** The server table *)

Lemma healthy_servers_distinct (meta : MetadataManager.t) :
  keyed_by_id meta → NoDup (ids (getHealthyServers meta)).
Proof.
  intros Hkeyed. unfold getHealthyServers. apply NoDup_ids_filter.
  assert (Hfst : ids (map snd (map_to_list (servers_ meta)))
                 = (map_to_list (servers_ meta)).*1).
  { change (ServerMetadata.server_id <$> (map_to_list (servers_ meta)).*2
            = (map_to_list (servers_ meta)).*1).
    rewrite <- list_fmap_compose. apply list_fmap_ext.
    intros i [k sm] Hin. cbn. apply Hkeyed.
    apply elem_of_map_to_list, list_elem_of_lookup. eauto. }
  rewrite Hfst. apply NoDup_fst_map_to_list.
Qed.

Lemma available_servers_distinct (meta : MetadataManager.t) (exclude : list string) :
  keyed_by_id meta → NoDup (ids (getAvailableServers meta exclude)).
Proof.
  intros Hkeyed. unfold getAvailableServers.
  by apply NoDup_ids_filter, healthy_servers_distinct.
Qed.

Lemma available_servers_not_excluded (meta : MetadataManager.t) (exclude : list string)
    (s : string) :
  s ∈ ids (getAvailableServers meta exclude) → s ∉ exclude.
Proof.
  unfold getAvailableServers. intros Hin.
  apply list_elem_of_fmap in Hin as (sm & -> & Hsm).
  apply list_elem_of_In, filter_In in Hsm as [_ Hf].
  apply andb_true_iff in Hf as [Hf _]. apply negb_true_iff in Hf.
  by apply bool_decide_eq_false in Hf.
Qed.

(** ** The four strategies *)

Lemma selection_of_available (meta : MetadataManager.t) (exclude result : list string) :
  NoDup result →
  (∀ s, s ∈ result → s ∈ ids (getAvailableServers meta exclude)) →
  good_selection exclude result.
Proof.
  intros Hnd Hin. split; [done|]. intros s Hs.
  eapply available_servers_not_excluded, Hin, Hs.
Qed.

Lemma allocateLeastLoaded_good (meta : MetadataManager.t) (count : Z)
    (exclude : list string) :
  keyed_by_id meta → good_selection exclude (allocateLeastLoaded meta count exclude).
Proof.
  intros Hkeyed. unfold allocateLeastLoaded.
  pose proof (available_servers_distinct meta exclude Hkeyed) as Hnd.
  pose proof (sort_by_load_perm (getAvailableServers meta exclude)) as Hperm.
  apply (selection_of_available meta).
  - apply NoDup_ids_take.
    change (NoDup (ServerMetadata.server_id <$> sort_by_load (getAvailableServers meta exclude))).
    by rewrite Hperm.
  - intros s Hs. apply elem_of_ids_take in Hs.
    change (s ∈ ServerMetadata.server_id <$> sort_by_load (getAvailableServers meta exclude))
      in Hs.
    by rewrite Hperm in Hs.
Qed.

Lemma allocateRandom_good (meta : MetadataManager.t) (count : Z)
    (exclude : list string) (draws : list nat) :
  keyed_by_id meta → good_selection exclude (allocateRandom meta count exclude draws).
Proof.
  intros Hkeyed. unfold allocateRandom.
  pose proof (available_servers_distinct meta exclude Hkeyed) as Hnd.
  pose proof (shuffle_perm draws (getAvailableServers meta exclude)) as Hperm.
  apply (selection_of_available meta).
  - apply NoDup_ids_take.
    change (NoDup (ServerMetadata.server_id
                     <$> shuffle draws (getAvailableServers meta exclude))).
    by rewrite Hperm.
  - intros s Hs. apply elem_of_ids_take in Hs.
    change (s ∈ ServerMetadata.server_id
                  <$> shuffle draws (getAvailableServers meta exclude)) in Hs.
    by rewrite Hperm in Hs.
Qed.

Lemma round_robin_loop_step (count : nat) (available : list ServerMetadata.t) (rr : nat) :
  available ≠ [] →
  round_robin_loop (S count) available rr
  = let index := (rr mod length available)%nat in
    let picked := default EmptyString (ServerMetadata.server_id <$> available !! index) in
    let rest := delete index available in
    let rr' := if (length rest <=? S rr)%nat && negb (bool_decide (rest = []))
               then 0%nat else S rr in
    (picked :: (round_robin_loop count rest rr').1, (round_robin_loop count rest rr').2).
Proof.
  intros Hne. destruct available as [|x l]; [done|]. cbn [round_robin_loop].
  cbv zeta. by destruct (round_robin_loop count _ _).
Qed.

Lemma round_robin_loop_distinct (count : nat) (available : list ServerMetadata.t)
    (rr : nat) :
  NoDup (ids available) →
  NoDup (round_robin_loop count available rr).1
  ∧ ∀ s, s ∈ (round_robin_loop count available rr).1 → s ∈ ids available.
Proof.
  revert available rr. induction count as [|count IH]; intros available rr Hnd.
  { split; [constructor | by inversion 1]. }
  destruct (decide (available = [])) as [->|Hne].
  { split; [constructor | by inversion 1]. }
  rewrite round_robin_loop_step by done. cbv zeta. cbn [fst].
  set (index := (rr mod length available)%nat).
  assert (Hindex : (index < length available)%nat).
  { apply Nat.mod_upper_bound. by destruct available. }
  destruct (lookup_lt_is_Some_2 available index Hindex) as [y Hy].
  rewrite Hy. cbn [fmap option_fmap option_map default].
  set (rr' := if (length (delete index available) <=? S rr)%nat
                 && negb (bool_decide (delete index available = [])) then 0%nat else S rr).
  destruct (IH (delete index available) rr') as [Hnd' Hin'].
  { change (NoDup (ServerMetadata.server_id <$> delete index available)).
    rewrite list_fmap_delete. eapply sublist_NoDup; [exact Hnd | apply sublist_delete]. }
  assert (Hperm : ids available
                  ≡ₚ ServerMetadata.server_id y :: ids (delete index available)).
  { change (ServerMetadata.server_id <$> available
            ≡ₚ ServerMetadata.server_id y :: (ServerMetadata.server_id <$> delete index available)).
    rewrite list_fmap_delete. apply delete_Permutation.
    by rewrite list_lookup_fmap, Hy. }
  rewrite Hperm in Hnd. apply NoDup_cons in Hnd as [Hy_fresh _].
  split.
  - apply NoDup_cons. split; [|done]. intros Habs. by apply Hy_fresh, Hin'.
  - intros s Hs. rewrite Hperm. apply elem_of_cons in Hs as [->|Hs].
    + by left.
    + right. by apply Hin'.
Qed.

Lemma allocateRoundRobin_good (a : ChunkAllocator.t) (meta : MetadataManager.t)
    (count : Z) (exclude : list string) :
  keyed_by_id meta → good_selection exclude (allocateRoundRobin a meta count exclude).1.
Proof.
  intros Hkeyed. unfold allocateRoundRobin.
  destruct (round_robin_loop_distinct (Z.to_nat count) (getAvailableServers meta exclude)
              (round_robin_index_ a) (available_servers_distinct meta exclude Hkeyed))
    as [Hnd Hin].
  destruct (round_robin_loop _ _ _) as [result rr]. cbn [fst] in *.
  by apply (selection_of_available meta).
Qed.

Lemma zone_first_pass_distinct (a : ChunkAllocator.t) (count : Z)
    (available : list ServerMetadata.t) (result : list string) (used_zones : gset string) :
  NoDup (result ++ ids available) →
  NoDup (zone_first_pass a count available result used_zones)
  ∧ ∀ s, s ∈ zone_first_pass a count available result used_zones →
         s ∈ result ∨ s ∈ ids available.
Proof.
  revert result used_zones.
  induction available as [|x l IH]; intros result used_zones Hnd; cbn [zone_first_pass].
  { rewrite app_nil_r in Hnd. split; [done | by left]. }
  assert (Hresult : NoDup result) by (by apply NoDup_app in Hnd as [? _]).
  destruct (zone_quota_reached count (length result)); [split; [done | by left]|].
  case_bool_decide.
  - destruct (IH result used_zones) as [Hnd' Hin'].
    { cbn in Hnd. apply NoDup_app in Hnd as (? & Hdisj & Hl).
      apply NoDup_cons in Hl as [_ Hl]. apply NoDup_app. repeat split; [done| |done].
      intros s Hs Hs'. apply (Hdisj s Hs). by right. }
    split; [done|]. intros s Hs. destruct (Hin' s Hs); [by left|]. right. by right.
  - destruct (IH (result ++ [ServerMetadata.server_id x])
                ({[getServerZone a (ServerMetadata.server_id x)]} ∪ used_zones))
      as [Hnd' Hin'].
    { rewrite <- app_assoc. exact Hnd. }
    split; [done|]. intros s Hs. destruct (Hin' s Hs) as [Hs'|Hs'].
    + apply elem_of_app in Hs' as [?|Hs']; [by left|].
      apply list_elem_of_singleton in Hs' as ->. right. by left.
    + right. by right.
Qed.

Lemma allocateZoneAware_good (a : ChunkAllocator.t) (meta : MetadataManager.t)
    (count : Z) (exclude : list string) :
  keyed_by_id meta → good_selection exclude (allocateZoneAware a meta count exclude).
Proof.
  intros Hkeyed. unfold allocateZoneAware.
  destruct (zone_first_pass_distinct a count (getAvailableServers meta exclude) [] ∅)
    as [Hnd Hin].
  { by apply available_servers_distinct. }
  set (result := zone_first_pass a count (getAvailableServers meta exclude) [] ∅) in *.
  assert (Hfirst : good_selection exclude result).
  { apply (selection_of_available meta); [done|].
    intros s Hs. destruct (Hin s Hs) as [Habs|?]; [by inversion Habs | done]. }
  destruct (negb _); [|done].
  destruct (allocateLeastLoaded_good meta (count - Z.of_nat (length result))
              (exclude ++ result) Hkeyed) as [Hnd2 Hin2].
  destruct Hfirst as [_ Hex]. split.
  - apply NoDup_app. repeat split; [done| |done].
    intros s Hs Hs'. apply (Hin2 s Hs'). apply elem_of_app. by right.
  - intros s Hs. apply elem_of_app in Hs as [Hs|Hs]; [by apply Hex|].
    intros Habs. apply (Hin2 s Hs). apply elem_of_app. by left.
Qed.


(** ** One chunk, then the loops *)

Lemma server_insert_chunk_keyed (servers : gmap string ServerMetadata.t) (s c : string) :
  (∀ k sm, servers !! k = Some sm → ServerMetadata.server_id sm = k) →
  ∀ k sm, server_insert_chunk servers s c !! k = Some sm → ServerMetadata.server_id sm = k.
Proof.
  intros Hkeyed k sm. unfold server_insert_chunk.
  destruct (servers !! s) as [sm0|] eqn:Hs; [|apply Hkeyed].
  destruct (decide (s = k)) as [->|Hne].
  - rewrite lookup_insert_eq. intros [= <-]. cbn. by apply Hkeyed.
  - rewrite lookup_insert_ne by done. apply Hkeyed.
Qed.

Lemma link_loop_keyed (c : string) (l : list string) (st : MetadataManager.t) :
  keyed_by_id st → keyed_by_id (fold_left (link c) l st).
Proof.
  revert st. induction l as [|s l IH]; intros st Hk; [done|].
  cbn [fold_left]. apply IH. unfold keyed_by_id. cbn [link servers_].
  by apply server_insert_chunk_keyed.
Qed.

Lemma addChunk_keyed (meta : MetadataManager.t) (c : string) (m : ChunkMetadata.t) :
  keyed_by_id meta → keyed_by_id (addChunk meta c m).
Proof. intros Hkeyed. unfold addChunk. apply link_loop_keyed. exact Hkeyed. Qed.

Lemma allocateServersForChunk_good (a : ChunkAllocator.t) (meta : MetadataManager.t)
    (chunk_id : string) (replication_factor : Z) (exclude_servers : list string)
    (e : env) :
  keyed_by_id meta →
  let '(servers, _, meta') :=
    allocateServersForChunk a meta chunk_id replication_factor exclude_servers e in
  good_selection exclude_servers servers ∧ keyed_by_id meta'.
Proof.
  intros Hkeyed. unfold allocateServersForChunk.
  assert (Hgood : good_selection exclude_servers
            (match strategy_ a with
             | ROUND_ROBIN => allocateRoundRobin a meta replication_factor exclude_servers
             | LEAST_LOADED =>
                 (allocateLeastLoaded meta replication_factor exclude_servers, a)
             | RANDOM =>
                 (allocateRandom meta replication_factor exclude_servers (shuffle_draws e), a)
             | ZONE_AWARE =>
                 (allocateZoneAware a meta replication_factor exclude_servers, a)
             end).1).
  { destruct (strategy_ a); cbn [fst].
    - by apply allocateRoundRobin_good.
    - by apply allocateLeastLoaded_good.
    - by apply allocateRandom_good.
    - by apply allocateZoneAware_good. }
  destruct (match strategy_ a with
            | ROUND_ROBIN => _ | LEAST_LOADED => _ | RANDOM => _ | ZONE_AWARE => _
            end) as [allocated_servers a'].
  cbn [fst] in Hgood. case_bool_decide as Hempty.
  - split; [|done]. split; [constructor | by inversion 1].
  - split; [done|]. by apply addChunk_keyed.
Qed.

Lemma allocate_replicated_distinct (cfg : Config.t) (envs : nat → env) (file_id : string)
    (file_size : Z) (todo i : nat) (a : ChunkAllocator.t) (meta : MetadataManager.t) :
  keyed_by_id meta →
  Forall (fun ci => NoDup (ChunkInfo.server_addresses ci))
         (allocate_replicated cfg envs file_id file_size todo i a meta).1.1.
Proof.
  revert i a meta. induction todo as [|todo IH]; intros i a meta Hkeyed;
    cbn [allocate_replicated]; [constructor|].
  pose proof (allocateServersForChunk_good a meta (file_id +:+ "_chunk_" +:+ pretty i)
                (Config.replication_factor_ cfg) [] (envs i) Hkeyed) as Hone.
  destruct (allocateServersForChunk _ _ _ _ _ _) as [[servers a'] meta'].
  destruct Hone as [[Hnd _] Hkeyed'].
  specialize (IH (S i) a' meta' Hkeyed').
  destruct (allocate_replicated _ _ _ _ _ _ _ _) as [[rest a''] meta''].
  cbn [fst] in *. constructor; [exact Hnd | exact IH].
Qed.

(** The blocks of one group: every block carries the group's id and a
    block number, and no server is used twice in the group (nor taken
    from the servers excluded at the start). *)
Lemma allocate_group_blocks_distinct (cfg : Config.t) (envs : nat → env)
    (data_blocks : nat) (group_id : string) (call todo block : nat)
    (exclude_servers : list string) (a : ChunkAllocator.t) (meta : MetadataManager.t) :
  keyed_by_id meta →
  let '(blocks, _, meta') :=
    allocate_group_blocks cfg envs data_blocks group_id call todo block
      exclude_servers a meta in
  good_selection exclude_servers (flat_map ChunkInfo.server_addresses blocks)
  ∧ Forall (fun ci => ∃ b, (block ≤ b < block + todo)%nat
                           ∧ ChunkInfo.chunk_id ci = group_id +:+ "_block_" +:+ pretty b)
           blocks
  ∧ keyed_by_id meta'.
Proof.
  revert call block exclude_servers a meta.
  induction todo as [|todo IH]; intros call block exclude_servers a meta Hkeyed;
    cbn [allocate_group_blocks].
  { split; [|done]. split; [constructor | by inversion 1]. }
  pose proof (allocateServersForChunk_good a meta
                (group_id +:+ "_block_" +:+ pretty block) 1 exclude_servers (envs call)
                Hkeyed) as Hone.
  destruct (allocateServersForChunk _ _ _ _ _ _) as [[servers a'] meta'].
  destruct Hone as [[Hnd Hex] Hkeyed'].
  case_bool_decide as Hempty.
  - specialize (IH (S call) (S block) exclude_servers a' meta' Hkeyed').
    destruct (allocate_group_blocks _ _ _ _ _ _ _ _ _ _) as [[rest a''] meta''].
    destruct IH as (Hgood & Hids & Hk). split; [done|]. split; [|done].
    eapply Forall_impl; [exact Hids|]. intros ci (b & Hb & ->). exists b. split; [lia|done].
  - specialize (IH (S call) (S block) (exclude_servers ++ servers) a' meta' Hkeyed').
    destruct (allocate_group_blocks _ _ _ _ _ _ _ _ _ _) as [[rest a''] meta''].
    destruct IH as ([Hnd' Hex'] & Hids & Hk). cbn [flat_map ChunkInfo.server_addresses].
    split; [|split; [|done]].
    + split.
      * apply NoDup_app. repeat split; [done| |done].
        intros s Hs Hs'. apply (Hex' s Hs'). apply elem_of_app. by right.
      * intros s Hs. apply elem_of_app in Hs as [Hs|Hs]; [by apply Hex|].
        intros Habs. apply (Hex' s Hs). apply elem_of_app. by left.
    + constructor.
      * exists block. split; [lia|done].
      * eapply Forall_impl; [exact Hids|]. intros ci (b & Hb & ->). exists b.
        split; [lia|done].
Qed.

Lemma allocate_groups_distinct (cfg : Config.t) (envs : nat → env)
    (data_blocks total_blocks : nat) (file_id : string) (todo group : nat)
    (a : ChunkAllocator.t) (meta : MetadataManager.t) :
  keyed_by_id meta →
  Forall2 (fun g blocks =>
             NoDup (flat_map ChunkInfo.server_addresses blocks)
             ∧ Forall (fun ci => ∃ b, (b < total_blocks)%nat
                         ∧ ChunkInfo.chunk_id ci
                           = (file_id +:+ "_group_" +:+ pretty g) +:+ "_block_" +:+ pretty b)
                      blocks)
          (seq group todo)
          (allocate_groups cfg envs data_blocks total_blocks file_id todo group a meta).1.1.
Proof.
  revert group a meta. induction todo as [|todo IH]; intros group a meta Hkeyed;
    cbn [allocate_groups seq]; [constructor|].
  pose proof (allocate_group_blocks_distinct cfg envs data_blocks
                (file_id +:+ "_group_" +:+ pretty group) (group * total_blocks)
                total_blocks 0 [] a meta Hkeyed) as Hone.
  destruct (allocate_group_blocks _ _ _ _ _ _ _ _ _ _) as [[blocks a'] meta'].
  destruct Hone as ([Hnd _] & Hids & Hkeyed').
  specialize (IH (S group) a' meta' Hkeyed').
  destruct (allocate_groups _ _ _ _ _ _ _ _ _) as [[rest a''] meta''].
  cbn [fst] in *. constructor; [|exact IH]. split; [done|].
  eapply Forall_impl; [exact Hids|]. intros ci (b & Hb & ->). exists b. split; [lia|done].
Qed.

(** C7.  On a server table keyed by server id, for every strategy: each
    chunk of a replicated allocation lists no server twice; and an
    erasure-coded allocation is the concatenation of its groups, group [g]
    holding blocks named [<file_id>_group_<g>_block_<b>] with [b < 6], and
    no server is used twice within a group. *)
Theorem allocation_is_diverse (cfg : Config.t) (envs : nat → env) (a : ChunkAllocator.t)
    (meta : MetadataManager.t) (file_id : string) (file_size : Z) :
  keyed_by_id meta →
  Forall (fun ci => NoDup (ChunkInfo.server_addresses ci))
         (allocateChunks cfg envs a meta file_id file_size false).1.1
  ∧ ∃ groups,
      (allocateChunks cfg envs a meta file_id file_size true).1.1 = concat groups
      ∧ Forall2 (fun g blocks =>
                   NoDup (flat_map ChunkInfo.server_addresses blocks)
                   ∧ Forall (fun ci => ∃ b, (b < 6)%nat
                               ∧ ChunkInfo.chunk_id ci
                                 = (file_id +:+ "_group_" +:+ pretty g)
                                   +:+ "_block_" +:+ pretty b)
                            blocks)
                (seq 0 (length groups)) groups.
Proof.
  intros Hkeyed. split.
  - unfold allocateChunks. by apply allocate_replicated_distinct.
  - unfold allocateChunks, allocateErasureGroups.
    pose proof (allocate_groups_distinct cfg envs 4
                  (4 + Config.ERASURE_CODING_PARITY_BLOCKS) file_id
                  (Z.to_nat (Z.quot (file_size + Config.chunk_size_ cfg - 1)
                                    (Config.chunk_size_ cfg)))
                  0 a meta Hkeyed) as Hgroups.
    destruct (allocate_groups _ _ _ _ _ _ _ _ _) as [[groups a'] meta'].
    cbn [fst] in *. exists groups. split; [done|].
    pose proof (Forall2_length _ _ _ Hgroups) as Hlen. rewrite length_seq in Hlen.
    by rewrite <- Hlen.
Qed.

Lemma keyed_by_id_empty : keyed_by_id MetadataManager.empty.
Proof. intros k sm Hk. cbn in Hk. by rewrite lookup_empty in Hk. Qed.

Lemma RegisterChunkServer_keyed (st : MasterServer.t) (server_id address : string)
    (port total_space now : Z) :
  keyed_by_id (MasterServer.metadata_manager_ st) →
  keyed_by_id (MasterServer.metadata_manager_
                 (MasterServer.RegisterChunkServer st server_id address port
                    total_space now)).
Proof.
  intros Hkeyed k sm. cbn. destruct (decide (server_id = k)) as [->|Hne].
  - rewrite lookup_insert_eq. by intros [= <-].
  - rewrite lookup_insert_ne by done. apply Hkeyed.
Qed.

Lemma with_servers_keyed (names : list string) :
  keyed_by_id (MasterServer.metadata_manager_ (MasterServer.with_servers names)).
Proof.
  unfold MasterServer.with_servers.
  assert (Hgen : ∀ st, keyed_by_id (MasterServer.metadata_manager_ st) →
            keyed_by_id (MasterServer.metadata_manager_
              (fold_left (fun st name =>
                 MasterServer.RegisterChunkServer st name (name +:+ ".dfs") 60051
                   1000000000 0) names st))).
  { induction names as [|n names IH]; intros st Hst; [done|]. cbn [fold_left].
    apply IH. by apply RegisterChunkServer_keyed. }
  apply Hgen, keyed_by_id_empty.
Qed.

(** The theorem on a master with six registered servers, for a file of
    5 000 000 bytes (two chunks, or two erasure groups). *)
Lemma allocation_is_diverse_witness :
  let meta := MasterServer.metadata_manager_
                (MasterServer.with_servers ["s1"; "s2"; "s3"; "s4"; "s5"; "s6"]) in
  let envs := fun _ : nat => {| shuffle_draws := [3; 1; 4; 1; 5]; now := 7 |} in
  Forall (fun ci => NoDup (ChunkInfo.server_addresses ci))
         (allocateChunks Config.default envs init meta "file_x" 5000000 false).1.1
  ∧ ∃ groups,
      (allocateChunks Config.default envs init meta "file_x" 5000000 true).1.1
      = concat groups
      ∧ Forall2 (fun g blocks =>
                   NoDup (flat_map ChunkInfo.server_addresses blocks)
                   ∧ Forall (fun ci => ∃ b, (b < 6)%nat
                               ∧ ChunkInfo.chunk_id ci
                                 = ("file_x" +:+ "_group_" +:+ pretty g)
                                   +:+ "_block_" +:+ pretty b)
                            blocks)
                (seq 0 (length groups)) groups.
Proof.
  intros meta envs.
  exact (allocation_is_diverse Config.default envs init meta "file_x" 5000000
           (with_servers_keyed ["s1"; "s2"; "s3"; "s4"; "s5"; "s6"])).
Defined.

End ChunkAllocatorProps.

(** * The rebalance decision *)

Module RebalanceProps.
Import MetadataManager ChunkAllocator Scenario.

Lemma flat_map_nonempty {A B} (f : A → list B) (l : list A) :
  flat_map f l ≠ [] ↔ ∃ x, x ∈ l ∧ f x ≠ [].
Proof.
  induction l as [|x l IH]; cbn.
  - split; [done|]. intros (x & Hx & _). by apply elem_of_nil in Hx.
  - destruct (f x) as [|b bs] eqn:Hfx; cbn.
    + rewrite IH. split.
      * intros (y & Hy & Hfy). exists y. split; [by right | done].
      * intros (y & Hy & Hfy). exists y. split; [|done].
        apply elem_of_cons in Hy as [->|Hy]; [congruence | done].
    + split; [|done]. intros _. exists x. split; [by left | by rewrite Hfx].
Qed.

(** With two healthy servers or more, the code computes the population
    standard deviation of their loads; with fewer it takes 0. *)
Lemma calculateClusterLoadVariance_spec (meta : MetadataManager.t) :
  calculateClusterLoadVariance meta
  = if (length (getHealthyServers meta) <? 2)%nat then 0.0%float
    else population_stddev (map calculateServerLoad (getHealthyServers meta)).
Proof. reflexivity. Qed.

Lemma findOverloadedServers_nonempty (meta : MetadataManager.t) :
  findOverloadedServers meta ≠ []
  ↔ ∃ server, server ∈ getHealthyServers meta
              ∧ PrimFloat.ltb 0.8 (calculateServerLoad server) = true
              ∧ getChunksForServer meta (ServerMetadata.server_id server) ≠ [].
Proof.
  unfold findOverloadedServers. cbv zeta. rewrite flat_map_nonempty.
  split; intros (server & Hin & Hrest); exists server; (split; [done|]).
  - destruct (PrimFloat.ltb 0.8 (calculateServerLoad server)); [|done].
    split; [done|].
    by destruct (getChunksForServer meta (ServerMetadata.server_id server)).
  - destruct Hrest as [-> Hchunks].
    by destruct (getChunksForServer meta (ServerMetadata.server_id server)).
Qed.

(** C8, as amended.  [shouldRebalance] answers [true] exactly when there
    are at least two healthy servers whose loads have a population
    standard deviation above 0.30, or some healthy server with a load above
    0.80 has at least one chunk in the master's [server_to_chunks_] index. *)
Theorem shouldRebalance_exactly (meta : MetadataManager.t) :
  shouldRebalance meta = true
  ↔ ((2 ≤ length (getHealthyServers meta))%nat
     ∧ PrimFloat.ltb 0.3
         (population_stddev (map calculateServerLoad (getHealthyServers meta))) = true)
    ∨ ∃ server, server ∈ getHealthyServers meta
                ∧ PrimFloat.ltb 0.8 (calculateServerLoad server) = true
                ∧ getChunksForServer meta (ServerMetadata.server_id server) ≠ [].
Proof.
  unfold shouldRebalance. cbv zeta. rewrite calculateClusterLoadVariance_spec.
  rewrite <- findOverloadedServers_nonempty.
  destruct (Nat.ltb_spec (length (getHealthyServers meta)) 2) as [Hfew|Hmany].
  - change (PrimFloat.ltb 0.3 0.0) with false. cbv iota.
    rewrite negb_true_iff, bool_decide_eq_false. split; [by right|].
    intros [[Hlen _]|?]; [lia | done].
  - destruct (PrimFloat.ltb 0.3 _) eqn:Hdev.
    + split; [by left | done].
    + rewrite negb_true_iff, bool_decide_eq_false. split; [by right|].
      intros [[_ ?]|?]; done.
Qed.

(** C8, as stated, fails: the healthy server [s1] has load 1.0, above
    0.80, so the stated condition calls for rebalancing; the master's index
    lists no chunk for it, and [shouldRebalance] answers [false]. *)
Lemma overloaded_server_without_chunks :
  let meta := MasterServer.metadata_manager_ overloaded_master in
  map calculateServerLoad (getHealthyServers meta) = [1.0%float]
  ∧ spec_shouldRebalance meta = true
  ∧ shouldRebalance meta = false.
Proof. cbv zeta. repeat split; vm_compute; reflexivity. Qed.

(** The amended statement at two concrete masters: two servers with
    loads 1.0 and 0.0 (deviation 0.5) call for rebalancing; the master of
    the counterexample does not. *)
Lemma shouldRebalance_examples :
  shouldRebalance
    (MasterServer.metadata_manager_
       (MasterServer.SendHeartbeat (MasterServer.with_servers ["s1"; "s2"])
          {| MasterServer.hb_server_id := "s1";
             MasterServer.hb_free_space := 0;
             MasterServer.hb_chunk_count := 0;
             MasterServer.hb_cpu_usage := 100.0%float;
             MasterServer.hb_memory_usage := 100.0%float;
             MasterServer.hb_stored_chunks := [] |} 5).2) = true
  ∧ calculateClusterLoadVariance
      (MasterServer.metadata_manager_
         (MasterServer.SendHeartbeat (MasterServer.with_servers ["s1"; "s2"])
            {| MasterServer.hb_server_id := "s1";
               MasterServer.hb_free_space := 0;
               MasterServer.hb_chunk_count := 0;
               MasterServer.hb_cpu_usage := 100.0%float;
               MasterServer.hb_memory_usage := 100.0%float;
               MasterServer.hb_stored_chunks := [] |} 5).2) = 0.5%float.
Proof. split; vm_compute; reflexivity. Qed.

End RebalanceProps.

(** * Downloads of erasure-coded files *)

Module DownloadProps.
Import Client Scenario.



Section WithOracles.
Context `{HashOracle} `{AesGcm}.





End WithOracles.



(** The uploader encodes nothing either: on six servers the master
    allocates the six blocks of the group, the uploader has the one slice
    of the file, and the upload stops at the chunk count. *)
Lemma uploadFile_does_not_encode :
  (uploadFile (H := hex_print_hash) (H0 := copy_cipher) Config.default
     (fresh_cluster six_hosts) no_cache ec_data "/f2" false true (quiet_upload "f2")).1.1
  = false.
Proof. vm_compute. reflexivity. Qed.

End DownloadProps.

(** * Upload followed by download *)

Module ChunkIdProps.
Import ChunkId.

(** ** Chunk ids *)





Lemma append_assoc (s1 s2 s3 : string) : (s1 +:+ s2) +:+ s3 = s1 +:+ (s2 +:+ s3).
Proof.
  induction s1 as [|c s1 IH]; [done|].
  change (String c ((s1 +:+ s2) +:+ s3) = String c (s1 +:+ (s2 +:+ s3))). by f_equal.
Qed.





(** ** Slices *)





End ChunkIdProps.

Module AllocationProps.
Import MetadataManager ChunkAllocator ChunkId Catalog ChunkIdProps.

(** ** What an allocation records *)









End AllocationProps.

Module StoreProps.
Import Client ChunkStorage ChunkServer Store.

(** ** What servers and cache hold for a chunk *)

Section WithHash.
Context `{HashOracle}.







End WithHash.

(** ** The cache *)

Lemma evictLRU_lookup (c : CacheManager.t) (k : string) (entry : CacheManager.CacheEntry) :
  CacheManager.cache_ (CacheManager.evictLRU c) !! k = Some entry →
  CacheManager.cache_ c !! k = Some entry.
Proof.
  unfold CacheManager.evictLRU.
  destruct (CacheManager.oldest_entry _) as [[k' entry']|]; [|done]. cbn.
  intros Hk. by apply lookup_delete_Some in Hk as [_ Hk].
Qed.

Lemma evict_until_fits_lookup (rounds : nat) (c : CacheManager.t) (incoming : nat)
    (k : string) (entry : CacheManager.CacheEntry) :
  CacheManager.cache_ (CacheManager.evict_until_fits rounds c incoming) !! k = Some entry →
  CacheManager.cache_ c !! k = Some entry.
Proof.
  revert c. induction rounds as [|rounds IH]; intros c; cbn; [done|].
  destruct (_ && _); [|done]. intros Hk. by apply evictLRU_lookup, IH.
Qed.






End StoreProps.

Module TransferProps.
Import Client ChunkStorage ChunkServer Store StoreProps.

Section WithOracles.
Context `{HashOracle} `{AesGcm}.


(** ** One chunk up *)


(** ** All chunks up *)


(** ** One chunk down *)



(** ** All chunks down *)


End WithOracles.
End TransferProps.

Module MasterProps.
Import MetadataManager MasterServer Catalog AllocationProps.

(** ** The file entry an upload leaves in the master *)






End MasterProps.

Module ContactProps.
Import MetadataManager ChunkAllocator Contact.
Import ChunkAllocatorProps.












End ContactProps.

Module RoundTripProps.
Import Client MetadataManager ChunkStorage ChunkId Catalog Store.
Import ChunkIdProps AllocationProps StoreProps TransferProps MasterProps.


Section WithOracles.
Context `{HashOracle} `{AesGcm}.




End WithOracles.
End RoundTripProps.

Module ReachProps.
Import Client ChunkStorage ChunkServer Store Reach StoreProps.

Section WithHash.
Context `{HashOracle}.









(** ** Reading back *)



End WithHash.
End ReachProps.

Module LivenessProps.
Import Client MetadataManager ChunkStorage ChunkServer.
Import ChunkId Catalog Store Contact Reach.
Import ChunkIdProps AllocationProps StoreProps TransferProps MasterProps ContactProps.
Import ReachProps RoundTripProps.

Section WithOracles.
Context `{HashOracle} `{AesGcm}.




End WithOracles.

(** ** What the master lists *)





Section RoundTrip.
Context `{HashOracle} `{AesGcm}.


End RoundTrip.
End LivenessProps.

(** * Upload followed by download, end to end *)

Module EndToEnd.
Import Client MetadataManager ChunkStorage Contact Reach.

Section WithOracles.
Context `{HashOracle} `{AesGcm}.


End WithOracles.
End EndToEnd.

Module RoundTripWitness.
Import Client MetadataManager ChunkStorage Scenario.





(** The same round trip with encryption, for a client that holds a key of
    32 characters under the key id of the file, and with a cache. *)
Lemma encrypted_round_trip_example :
  let client := {| cache_manager_ := Some (CacheManager.new 1);
                   keys_ := {[ "file_f3_key" := "0123456789abcdef0123456789abcdef" ]} |} in
  let up := uploadFile (H := hex_print_hash) (H0 := copy_cipher) Config.default
              (fresh_cluster ["n1"; "n2"; "n3"]) client [104; 105]%Z "/f3" true false
              (quiet_upload "f3") in
  let down := downloadFile (H := hex_print_hash) (H0 := copy_cipher) up.1.2
                (set_cache up.2 None) ∅ "/f3" "out" all_up in
  up.1.1 = true ∧ down.1.1 = true ∧ down.1.2 !! "out" = Some [104; 105]%Z.
Proof.
  intros client up down.
  split; [|split]; vm_compute; reflexivity.
Qed.

End RoundTripWitness.

(** * Properties of the string helpers *)

Module UtilsProps.
Import Utils.

Lemma append_empty_r (s : string) : s +:+ EmptyString = s.
Proof.
  induction s as [|c s IH]; [done|].
  change (String c (s +:+ EmptyString) = String c s). by f_equal.
Qed.

Lemma append_empty_inv (s1 s2 : string) : s1 +:+ s2 = EmptyString → s1 = EmptyString ∧ s2 = EmptyString.
Proof. by destruct s1. Qed.

(** [joinStrings] of a non-empty vector, written from the right. *)
Lemma joinStrings_cons (first : string) (rest : list string) (delimiter : string) :
  joinStrings (first :: rest) delimiter
  = first +:+ foldr (fun s acc => delimiter +:+ s +:+ acc) EmptyString rest.
Proof.
  unfold joinStrings. revert first.
  induction rest as [|s rest IH]; intros first; cbn [fold_left foldr].
  - by rewrite append_empty_r.
  - rewrite IH. by rewrite !ChunkIdProps.append_assoc.
Qed.

(** The tokens of a string that does not end on the delimiter, put
    together again. *)
Lemma getline_loop_joined (s : string) (d : ascii) (token : string) :
  (∀ s', s ≠ s' +:+ String d EmptyString) →
  match getline_loop s d token with
  | [] => token = EmptyString ∧ s = EmptyString
  | t :: rest =>
      t +:+ foldr (fun x acc => String d EmptyString +:+ x +:+ acc) EmptyString rest
      = token +:+ s
  end.
Proof.
  revert token. induction s as [|c s IH]; intros token Hend; cbn [getline_loop].
  - case_bool_decide; [done|]. done.
  - case_bool_decide as Hc.
    + subst c. cbn [foldr].
      assert (Hs : ∀ s', s ≠ s' +:+ String d EmptyString).
      { intros s' ->. by apply (Hend (String d s')). }
      specialize (IH EmptyString Hs).
      destruct (getline_loop s d EmptyString) as [|t rest].
      * destruct IH as [_ ->]. by destruct (Hend EmptyString).
      * cbn [foldr]. change (EmptyString +:+ s) with s in IH.
        f_equal. change (String d (t +:+ foldr (λ x acc, String d EmptyString +:+ x +:+ acc) EmptyString rest) = String d s).
        by f_equal.
    + assert (Hs : ∀ s', s ≠ s' +:+ String d EmptyString).
      { intros s' ->. by apply (Hend (String c s')). }
      specialize (IH (token +:+ String c EmptyString) Hs).
      destruct (getline_loop s d (token +:+ String c EmptyString)) as [|t rest].
      * destruct IH as [Hempty _]. apply append_empty_inv in Hempty. by destruct Hempty.
      * rewrite IH. by rewrite ChunkIdProps.append_assoc.
Qed.

(** The same for a string with one delimiter appended: the delimiter at
    the end is dropped. *)
Lemma getline_loop_terminated (s : string) (d : ascii) (token : string) :
  match getline_loop (s +:+ String d EmptyString) d token with
  | [] => False
  | t :: rest =>
      t +:+ foldr (fun x acc => String d EmptyString +:+ x +:+ acc) EmptyString rest
      = token +:+ s
  end.
Proof.
  revert token. induction s as [|c s IH]; intros token.
  - change (EmptyString +:+ String d EmptyString) with (String d EmptyString).
    cbn [getline_loop]. rewrite bool_decide_eq_true_2 by done.
    rewrite bool_decide_eq_true_2 by done. done.
  - change (String c s +:+ String d EmptyString) with (String c (s +:+ String d EmptyString)).
    cbn [getline_loop]. case_bool_decide as Hc.
    + subst c. specialize (IH EmptyString).
      destruct (getline_loop _ d EmptyString) as [|t rest]; [done|].
      cbn [foldr]. change (EmptyString +:+ s) with s in IH. f_equal.
      change (String d (t +:+ foldr (λ x acc, String d EmptyString +:+ x +:+ acc) EmptyString rest) = String d s).
      by f_equal.
    + specialize (IH (token +:+ String c EmptyString)).
      destruct (getline_loop _ d (token +:+ String c EmptyString)) as [|t rest]; [done|].
      rewrite IH. by rewrite ChunkIdProps.append_assoc.
Qed.

(** Characters without the delimiter only extend the token. *)
Lemma getline_loop_token (x rest : string) (d : ascii) (token : string) :
  d ∉ list_ascii_of_string x →
  getline_loop (x +:+ rest) d token = getline_loop rest d (token +:+ x).
Proof.
  revert token. induction x as [|c x IH]; intros token Hd.
  - by rewrite append_empty_r.
  - change (String c x +:+ rest) with (String c (x +:+ rest)).
    cbn [getline_loop]. cbn in Hd. apply not_elem_of_cons in Hd as [Hc Hx].
    rewrite bool_decide_eq_false_2 by done.
    rewrite IH by done. by rewrite ChunkIdProps.append_assoc.
Qed.

(** Tokens without the delimiter, the last of them not empty, are found
    again in their joined string. *)
Lemma getline_loop_tokens (d : ascii) (first : string) (rest : list string) :
  Forall (fun t => d ∉ list_ascii_of_string t) (first :: rest) →
  last (first :: rest) ≠ Some EmptyString →
  getline_loop
    (first +:+ foldr (fun x acc => String d EmptyString +:+ x +:+ acc) EmptyString rest)
    d EmptyString
  = first :: rest.
Proof.
  revert first. induction rest as [|t rest IH]; intros first Hall Hlast.
  - cbn [foldr]. rewrite getline_loop_token by by inversion Hall.
    cbn. rewrite bool_decide_eq_false_2; [done|].
    change (first ≠ EmptyString). intros ->. by apply Hlast.
  - inversion Hall as [|? ? Hfirst Hrest]; subst.
    rewrite getline_loop_token by done. cbn [foldr].
    change (String d EmptyString +:+ ?s) with (String d s).
    cbn [getline_loop]. rewrite bool_decide_eq_true_2 by done.
    change (EmptyString +:+ first) with first. f_equal.
    apply IH; [done|]. by rewrite last_cons_cons in Hlast.
Qed.

(** X.  Joining what [splitString] returns gives the string back, except
    for one delimiter at the very end, which is lost. *)
Theorem joinStrings_splitString (s : string) (d : ascii) :
  ((∀ s', s ≠ s' +:+ String d EmptyString) →
   joinStrings (splitString s d) (String d EmptyString) = s)
  ∧ joinStrings (splitString (s +:+ String d EmptyString) d) (String d EmptyString) = s.
Proof.
  unfold splitString. split.
  - intros Hend. pose proof (getline_loop_joined s d EmptyString Hend) as Hloop.
    destruct (getline_loop s d EmptyString) as [|t rest].
    + by destruct Hloop as [_ ->].
    + by rewrite joinStrings_cons.
  - pose proof (getline_loop_terminated s d EmptyString) as Hloop.
    destruct (getline_loop _ d EmptyString) as [|t rest]; [done|].
    by rewrite joinStrings_cons.
Qed.

(** X.  Splitting a joined vector gives the vector back when no token
    holds the delimiter and the last token is not empty. *)
Theorem splitString_joinStrings (tokens : list string) (d : ascii) :
  Forall (fun t => d ∉ list_ascii_of_string t) tokens →
  last tokens ≠ Some EmptyString →
  splitString (joinStrings tokens (String d EmptyString)) d = tokens.
Proof.
  intros Hall Hlast. destruct tokens as [|first rest]; [done|].
  rewrite joinStrings_cons. by apply getline_loop_tokens.
Qed.

Lemma splitString_joinStrings_witness :
  splitString (joinStrings ["10.0.0.7"; "60051"] ":") ":" = ["10.0.0.7"; "60051"].
Proof.
  apply (splitString_joinStrings ["10.0.0.7"; "60051"] ":"%char).
  - repeat constructor; cbn; set_solver.
  - done.
Defined.

(** An address [host:port] splits in its two parts. *)
Lemma splitString_address (host port : string) :
  ":"%char ∉ list_ascii_of_string host → ":"%char ∉ list_ascii_of_string port →
  port ≠ EmptyString →
  splitString (host +:+ ":" +:+ port) ":" = [host; port].
Proof.
  intros Hhost Hport Hne. unfold splitString.
  rewrite <- (getline_loop_tokens ":" host [port]).
  - cbn [foldr]. by rewrite append_empty_r.
  - by repeat constructor.
  - cbn. congruence.
Qed.


End UtilsProps.

(** * Properties of the chunk store: reads after writes, deletes, restarts *)

Module StorageProps.
Import ChunkStorage ChunkServer Reach.

Section WithHash.
Context `{HashOracle}.

(** A chunk that is held with its checksum is read back with or without
    verification, and passes the integrity check. *)
Lemma holds_verified_read (storage : ChunkStorage.t) (chunk_id : string) (d : list Z)
    (verify : bool) :
  holds_verified storage chunk_id d → d ≠ [] →
  readChunk storage chunk_id = d
  ∧ verifyChunkIntegrity storage chunk_id = true
  ∧ ReadChunk storage {| r_chunk_id := chunk_id; r_verify_integrity := verify |}
    = {| r_success := true; r_data := d; r_checksum := calculateSHA256 d;
         r_message := "Chunk read successfully" |}.
Proof.
  intros (Hstored & Hdata & Hsum) Hne.
  assert (Hread : readChunk storage chunk_id = d).
  { unfold readChunk, expected_checksum, readFile. rewrite Hdata, Hsum. cbn [default].
    rewrite (bool_decide_eq_true_2 (chunk_id ∈ stored_chunks_ storage)) by done.
    cbn [negb]. rewrite (bool_decide_eq_false_2 (d = [])) by done.
    by rewrite (bool_decide_eq_true_2 (calculateSHA256 d = calculateSHA256 d)). }
  assert (Hverify : verifyChunkIntegrity storage chunk_id = true).
  { unfold verifyChunkIntegrity, readFile. rewrite Hdata, Hsum. cbn [default].
    rewrite (bool_decide_eq_true_2 (chunk_id ∈ stored_chunks_ storage)) by done.
    cbn [negb]. rewrite (bool_decide_eq_false_2 (d = [])) by done.
    by rewrite (bool_decide_eq_true_2 (calculateSHA256 d = calculateSHA256 d)). }
  split; [done|]. split; [done|].
  unfold ReadChunk. cbn [r_chunk_id r_verify_integrity]. rewrite Hread, Hverify.
  rewrite (bool_decide_eq_false_2 (d = [])) by done.
  by rewrite andb_false_r.
Qed.

(** What a successful [WriteChunk] leaves on the disk and in the indices. *)
Lemma WriteChunk_installs (storage_ : ChunkStorage.t) (request : WriteChunkRequest)
    (io : disk_io) :
  w_success (WriteChunk storage_ request io).1 = true →
  let storage' := (WriteChunk storage_ request io).2 in
  holds_verified storage' (w_chunk_id request) (w_data request)
  ∧ meta_files storage' !! w_chunk_id request
    = Some (Some {| meta_checksum := calculateSHA256 (w_data request);
                    meta_is_encrypted := w_is_encrypted request;
                    meta_is_erasure_coded := w_is_erasure_coded request;
                    meta_created_time := meta_time io |})
  ∧ checksum_index_file storage' = checksum_index_file storage_
  ∧ w_stored_checksum (WriteChunk storage_ request io).1 = calculateSHA256 (w_data request).
Proof.
  unfold WriteChunk. destruct (negb _ && negb _); [done|].
  unfold writeChunk, writeFile, saveChunkMetadata, deleteFile.
  destruct (data_write io); cbn; [|done..].
  destruct (meta_write io); cbn; [|done..].
  intros _. unfold holds_verified. cbn. rewrite !lookup_insert_eq.
  split; [|done]. split; [set_solver | done].
Qed.


(** X.  An empty chunk can be written and is acknowledged, but it can
    never be read back: the store lists it, and every read and every
    integrity check of it fails. *)
Theorem empty_chunk_cannot_be_read (storage_ : ChunkStorage.t)
    (request : WriteChunkRequest) (io : disk_io) (verify : bool) :
  w_data request = [] →
  let storage' := (WriteChunk storage_ request io).2 in
  (w_checksum request = EmptyString → data_write io = WriteOk → meta_write io = WriteOk →
   w_success (WriteChunk storage_ request io).1 = true)
  ∧ (w_success (WriteChunk storage_ request io).1 = true →
     chunkExists storage' (w_chunk_id request) = true
     ∧ readChunk storage' (w_chunk_id request) = []
     ∧ r_success (ReadChunk storage' {| r_chunk_id := w_chunk_id request;
                                        r_verify_integrity := verify |}) = false
     ∧ (CheckChunkIntegrity storage' (w_chunk_id request)).1 = false).
Proof.
  intros Hempty storage'. subst storage'. split.
  - intros Hsum Hdata Hmeta. unfold WriteChunk. rewrite Hsum.
    rewrite (bool_decide_eq_true_2 (EmptyString = EmptyString)) by done. cbn [negb andb].
    unfold writeChunk, writeFile, saveChunkMetadata. by rewrite Hdata, Hmeta.
  - intros Hok.
    destruct (WriteChunk_installs storage_ request io Hok) as ((Hstored & Hdata & _) & _).
    rewrite Hempty in Hdata.
    assert (Hread : readChunk (WriteChunk storage_ request io).2 (w_chunk_id request) = []).
    { unfold readChunk, readFile. rewrite Hdata. cbn [default].
      by destruct (negb _). }
    split; [by apply bool_decide_eq_true_2|]. split; [done|].
    split.
    + unfold ReadChunk. cbn [r_chunk_id]. by rewrite Hread.
    + unfold CheckChunkIntegrity, verifyChunkIntegrity, readFile. cbn [fst].
      rewrite Hdata. cbn [default]. by destruct (negb _).
Qed.

End WithHash.

Lemma empty_chunk_cannot_be_read_witness :
  let request := {| w_chunk_id := "c"; w_data := []; w_checksum := EmptyString;
                    w_is_encrypted := false; w_is_erasure_coded := false |} in
  let answer := WriteChunk (H := hex_print_hash) ChunkStorage.empty request no_fault in
  w_success answer.1 = true
  ∧ r_success (ReadChunk (H := hex_print_hash) answer.2
                 {| r_chunk_id := "c"; r_verify_integrity := false |}) = false.
Proof.
  intros request answer.
  destruct (empty_chunk_cannot_be_read (H := hex_print_hash) ChunkStorage.empty request
              no_fault false eq_refl) as [Hwritten Hread].
  split; [by apply Hwritten|].
  by destruct (Hread (Hwritten eq_refl eq_refl eq_refl)) as (_ & _ & Hfails & _).
Defined.


Section Deletes.
Context `{HashOracle}.


(** X.  A delete that removes the data file but not the sidecar reports
    failure and leaves a chunk that is listed but cannot be read or
    verified; no later [deleteChunk] succeeds on it or takes it off the
    listing. *)
Theorem half_failed_delete_leaves_a_dead_chunk (st : ChunkStorage.t) (chunk_id : string)
    (meta_ok data_ok' meta_ok' : bool) :
  chunk_id ∈ stored_chunks_ st →
  is_Some (data_files st !! chunk_id) →
  (deleteFile (meta_files st) chunk_id meta_ok).1 = false →
  let outcome := deleteChunk st chunk_id true meta_ok in
  let again := deleteChunk outcome.2 chunk_id data_ok' meta_ok' in
  outcome.1 = false
  ∧ chunkExists outcome.2 chunk_id = true
  ∧ readChunk outcome.2 chunk_id = []
  ∧ verifyChunkIntegrity outcome.2 chunk_id = false
  ∧ again.1 = false ∧ chunkExists again.2 chunk_id = true.
Proof.
  intros Hstored Hfile Hmeta outcome again. subst again outcome.
  assert (Hdata : deleteFile (data_files st) chunk_id true
                  = (true, delete chunk_id (data_files st))).
  { unfold deleteFile. by rewrite (bool_decide_eq_true_2 (is_Some _)). }
  assert (Hdata' : ∀ files, files !! chunk_id = None →
            deleteFile (A := list Z) files chunk_id data_ok' = (false, files)).
  { intros files Hnone. unfold deleteFile. rewrite bool_decide_eq_false_2.
    - by rewrite andb_false_r.
    - rewrite Hnone. by intros [? ?]. }
  unfold deleteChunk.
  rewrite (bool_decide_eq_true_2 (chunk_id ∈ stored_chunks_ st)) by done. cbn [negb].
  rewrite Hdata.
  destruct (deleteFile (meta_files st) chunk_id meta_ok) as [deleted metas] eqn:Hdel.
  cbn in Hmeta. subst deleted. cbn.
  split; [done|]. split; [by apply bool_decide_eq_true_2|].
  split. { unfold readChunk, readFile. cbn. rewrite lookup_delete_eq. cbn.
           by destruct (negb _). }
  split. { unfold verifyChunkIntegrity, readFile. cbn. rewrite lookup_delete_eq. cbn.
           by destruct (negb _). }
  rewrite (bool_decide_eq_true_2 (chunk_id ∈ stored_chunks_ st)) by done. cbn [negb].
  rewrite Hdata' by apply lookup_delete_eq.
  destruct (deleteFile metas chunk_id meta_ok') as [deleted' metas'].
  cbn. split; [done|]. by apply bool_decide_eq_true_2.
Qed.
End Deletes.


Lemma half_failed_delete_leaves_a_dead_chunk_witness :
  let st := (writeChunk (H := hex_print_hash) ChunkStorage.empty "c" [1; 2]%Z
               false false no_fault).2 in
  (deleteChunk st "c" true false).1 = false
  ∧ readChunk (H := hex_print_hash) (deleteChunk st "c" true false).2 "c" = [].
Proof.
  intros st.
  destruct (half_failed_delete_leaves_a_dead_chunk (H := hex_print_hash) st "c"
              false true true) as (Hfails & _ & Hread & _).
  - vm_compute. set_solver.
  - vm_compute. eauto.
  - vm_compute; reflexivity.
  - split; [exact Hfails | exact Hread].
Defined.

End StorageProps.

(** * Properties of the chunk store across restarts and index rebuilds *)

Module RestartProps.
Import ChunkStorage ChunkServer Reach StorageProps.

Section WithHash.
Context `{HashOracle}.








End WithHash.



End RestartProps.

(** * Properties of copies between chunk servers *)

Module ChunkCopyProps.
Import Client ChunkStorage ChunkServer ChunkCopy Reach StorageProps UtilsProps.

Section WithHash.
Context `{HashOracle}.

(** X.  [CopyChunk] from a server [host:port] that holds the chunk with
    its checksum, over a call that is answered and with a disk that
    takes the writes, succeeds: the copying server then holds the same
    bytes under the same checksum.  Its sidecar marks the copy as
    neither encrypted nor erasure coded, whatever the source recorded. *)
Theorem CopyChunk_copies_a_verified_chunk (peers : gmap string ChunkStorage.t)
    (storage_ source : ChunkStorage.t) (chunk_id host port : string) (d : list Z)
    (io : disk_io) :
  ":"%char ∉ list_ascii_of_string host → ":"%char ∉ list_ascii_of_string port →
  port ≠ EmptyString →
  peers !! (host +:+ ":" +:+ port) = Some source →
  holds_verified source chunk_id d → d ≠ [] →
  data_write io = WriteOk → meta_write io = WriteOk →
  let outcome := CopyChunk peers storage_ chunk_id (host +:+ ":" +:+ port) Answered io in
  outcome.1 = true
  ∧ holds_verified outcome.2 chunk_id d
  ∧ loadChunkMetadata (meta_files outcome.2) chunk_id
    = Some {| meta_checksum := calculateSHA256 d; meta_is_encrypted := false;
              meta_is_erasure_coded := false; meta_created_time := meta_time io |}.
Proof.
  intros Hhost Hport Hne Hpeer Hheld Hd Hdata Hmeta outcome. subst outcome.
  unfold CopyChunk, copyChunkFromServer.
  rewrite splitString_address by done. cbn [length Nat.eqb negb nth].
  rewrite Hpeer.
  destruct (holds_verified_read source chunk_id d true Hheld Hd) as (_ & _ & ->).
  cbn [r_success r_data negb].
  unfold writeChunk, writeFile, saveChunkMetadata, holds_verified, loadChunkMetadata.
  rewrite Hdata, Hmeta. cbn. rewrite !lookup_insert_eq.
  split; [done|]. split; [|done]. split; [set_solver | done].
Qed.


End WithHash.

Lemma CopyChunk_copies_a_verified_chunk_witness :
  let source := (writeChunk (H := hex_print_hash) ChunkStorage.empty "c" [1; 2]%Z
                   true false no_fault).2 in
  let outcome := CopyChunk (H := hex_print_hash) {[ "n1:60051" := source ]}
                   ChunkStorage.empty "c" "n1:60051" Answered no_fault in
  outcome.1 = true
  ∧ readChunk (H := hex_print_hash) outcome.2 "c" = [1; 2]%Z
  ∧ meta_is_encrypted <$> loadChunkMetadata (meta_files source) "c" = Some true
  ∧ meta_is_encrypted <$> loadChunkMetadata (meta_files outcome.2) "c" = Some false.
Proof.
  intros source outcome. subst outcome.
  destruct (CopyChunk_copies_a_verified_chunk (H := hex_print_hash)
              {[ "n1:60051" := source ]} ChunkStorage.empty source "c" "n1" "60051"
              [1; 2]%Z no_fault) as (Hok & Hheld & Hmeta).
  - cbn. set_solver.
  - cbn. set_solver.
  - done.
  - done.
  - unfold holds_verified. split; [|split]; vm_compute; [set_solver|done..].
  - done.
  - done.
  - done.
  - split; [exact Hok|]. split.
    + by destruct (holds_verified_read (H := hex_print_hash) _ _ _ false Hheld)
        as (Hread & _).
    + split; [vm_compute; reflexivity|].
      exact (f_equal (fmap meta_is_encrypted) Hmeta).
Defined.

End ChunkCopyProps.

(** * Properties of the erasure codec: arithmetic, shape, round trips *)

Module CodecProps.
Import ErasureCoding ErasureCodingProps.

(** ** The arithmetic of GF(256) *)

(** The tables, entry by entry: [gf_exp_table_] and [gf_log_table_] are
    inverse to each other between the exponents below 255 and the bytes
    other than zero. *)
Lemma gf_tables_checked :
  forallb (fun x => (x =? 0)%Z
                    || (0 <=? log_at x)%Z && (log_at x <? 255)%Z
                       && (exp_at (log_at x) =? x)%Z)
          (seqZ 0 256) = true
  ∧ forallb (fun i => (0 <? exp_at i)%Z && (exp_at i <? 256)%Z
                      && (log_at (exp_at i) =? i)%Z)
            (seqZ 0 255) = true.
Proof. split; vm_compute; reflexivity. Qed.

Lemma log_at_exp_at (x : Z) :
  (0 < x < 256)%Z → (0 ≤ log_at x < 255)%Z ∧ exp_at (log_at x) = x.
Proof.
  intros Hx. destruct gf_tables_checked as [Hlog _].
  rewrite forallb_forall in Hlog. specialize (Hlog x).
  rewrite orb_true_iff, !andb_true_iff in Hlog.
  destruct Hlog as [?|[[? ?] ?]]; [apply list_elem_of_In, elem_of_seqZ|..]; lia.
Qed.

Lemma exp_at_log_at (i : Z) :
  (0 ≤ i < 255)%Z → (0 < exp_at i < 256)%Z ∧ log_at (exp_at i) = i.
Proof.
  intros Hi. destruct gf_tables_checked as [_ Hexp].
  rewrite forallb_forall in Hexp. specialize (Hexp i).
  rewrite !andb_true_iff in Hexp.
  destruct Hexp as [[? ?] ?]; [apply list_elem_of_In, elem_of_seqZ|]; lia.
Qed.

(** X.  On bytes, [gf_multiply] is commutative, has the unit 1 and no
    zero divisors, and [gf_divide] undoes it; [gf_divide] throws on a
    zero divisor, except that zero divided by zero is zero. *)
Theorem gf_divide_undoes_gf_multiply (a b : Z) :
  (0 ≤ a < 256)%Z → (0 ≤ b < 256)%Z →
  gf_multiply a b = gf_multiply b a
  ∧ gf_multiply a 1 = a
  ∧ (0 ≤ gf_multiply a b < 256)%Z
  ∧ (gf_multiply a b = 0%Z ↔ a = 0%Z ∨ b = 0%Z)
  ∧ (b ≠ 0%Z → gf_divide (gf_multiply a b) b = Ok a)
  ∧ (a ≠ 0%Z → gf_divide a 0 = Throw DivisionByZero)
  ∧ gf_divide 0 b = Ok 0%Z.
Proof.
  intros Ha Hb.
  assert (Hproduct : a ≠ 0%Z → b ≠ 0%Z →
            gf_multiply a b = exp_at (Z.rem (log_at a + log_at b) 255)
            ∧ (0 ≤ Z.rem (log_at a + log_at b) 255 < 255)%Z).
  { intros Ha0 Hb0. unfold gf_multiply.
    destruct (Z.eqb_spec a 0); [done|]. destruct (Z.eqb_spec b 0); [done|].
    split; [done|].
    destruct (log_at_exp_at a) as [? _]; [lia|].
    destruct (log_at_exp_at b) as [? _]; [lia|].
    rewrite Z.rem_mod_nonneg by lia. apply Z.mod_pos_bound. lia. }
  split; [|split; [|split; [|split; [|split; [|split]]]]].
  - unfold gf_multiply. by rewrite orb_comm, Z.add_comm.
  - unfold gf_multiply. destruct (Z.eqb_spec a 0) as [->|Ha0]; [done|]. cbn [orb Z.eqb].
    change (log_at 1) with 0%Z. rewrite Z.add_0_r.
    destruct (log_at_exp_at a) as [Hlog Hexp]; [lia|].
    rewrite Z.rem_mod_nonneg, Z.mod_small by lia. done.
  - destruct (decide (a = 0%Z)) as [->|Ha0]; [done|].
    destruct (decide (b = 0%Z)) as [->|Hb0].
    { unfold gf_multiply. by rewrite orb_true_r. }
    destruct (Hproduct Ha0 Hb0) as [-> Hrange].
    destruct (exp_at_log_at _ Hrange). lia.
  - split.
    + intros Hzero. destruct (decide (a = 0%Z)); [by left|].
      destruct (decide (b = 0%Z)); [by right|].
      destruct (Hproduct ltac:(done) ltac:(done)) as [Hmul Hrange].
      destruct (exp_at_log_at _ Hrange). lia.
    + intros [-> | ->]; [done|]. unfold gf_multiply. by rewrite orb_true_r.
  - intros Hb0. destruct (decide (a = 0%Z)) as [->|Ha0]; [done|].
    destruct (Hproduct Ha0 Hb0) as [Hmul Hrange].
    destruct (exp_at_log_at _ Hrange) as [Hexp Hlog].
    destruct (log_at_exp_at a) as [Hla Hea]; [lia|].
    destruct (log_at_exp_at b) as [Hlb _]; [lia|].
    unfold gf_divide. rewrite Hmul.
    destruct (Z.eqb_spec (exp_at (Z.rem (log_at a + log_at b) 255)) 0); [lia|].
    destruct (Z.eqb_spec b 0); [done|].
    rewrite Hlog. f_equal. rewrite <- Hea at 2. f_equal.
    rewrite !Z.rem_mod_nonneg by (try apply Z.mod_pos_bound; lia).
    rewrite Z.rem_mod_nonneg in Hrange by lia.
    revert Hrange. generalize (log_at a) (log_at b) Hla Hlb. clear.
    intros la lb Hla Hlb Hrange.
    clear Hrange. Z.div_mod_to_equations. lia.
  - intros Ha0. unfold gf_divide. by destruct (Z.eqb_spec a 0).
  - done.
Qed.

Lemma gf_divide_undoes_gf_multiply_witness :
  gf_multiply 87 131 = 49%Z ∧ gf_divide 49 131 = Ok 87%Z.
Proof.
  destruct (gf_divide_undoes_gf_multiply 87 131) as (_ & _ & _ & _ & Hdiv & _);
    [lia | lia |].
  split; [vm_compute; reflexivity|].
  replace 49%Z with (gf_multiply 87 131) by (vm_compute; reflexivity).
  apply Hdiv. lia.
Defined.


(** ** The shape of [encode] *)

Lemma mapR_ok {A B} (f : A → result B) (g : A → B) (l : list A) :
  (∀ a, a ∈ l → f a = Ok (g a)) → mapR f l = Ok (map g l).
Proof.
  induction l as [|a l IH]; intros Hf; cbn [mapR map]; [done|].
  rewrite Hf by (apply elem_of_cons; by left). cbn.
  rewrite IH; [done|]. intros b Hb. apply Hf. apply elem_of_cons. by right.
Qed.

Lemma vandermonde_row (rows cols i : nat) :
  (i < rows)%nat → length (nth i (createVandermondeMatrix rows cols) []) = cols.
Proof.
  intros Hi. unfold createVandermondeMatrix.
  rewrite (nth_indep _ [] (map (fun j => gf_power ((Z.of_nat 0 + 1) mod 256) (Z.of_nat j))
                               (seq 0 cols)))
    by (rewrite length_map, length_seq; lia).
  rewrite (map_nth (fun i => map (fun j => gf_power ((Z.of_nat i + 1) mod 256) (Z.of_nat j))
                                 (seq 0 cols))).
  by rewrite length_map, length_seq.
Qed.

(** The padded input cut in [k] slices of [block_size] bytes. *)
Lemma slices_concat (k block_size : nat) (padded : list Z) :
  length padded = (k * block_size)%nat →
  concat (map (fun i => take block_size (drop (i * block_size) padded)) (seq 0 k)) = padded.
Proof.
  intros Hlen. rewrite blocks_concat. cbn [Nat.mul drop]. apply take_ge. lia.
Qed.

Lemma block_size_bound (k : nat) (data : list Z) :
  (0 < k)%nat → (length data ≤ k * ((length data + k - 1) / k))%nat.
Proof.
  intros Hk. pose proof (Nat.div_mod_eq (length data + k - 1) k) as Hdiv.
  pose proof (Nat.mod_upper_bound (length data + k - 1) k). lia.
Qed.

(** [encode] never throws: the data slices, followed by [m] parity
    blocks of the same size. *)
Lemma encode_blocks (k m : nat) (data : list Z) :
  (0 < k)%nat → data ≠ [] →
  let block_size := ((length data + k - 1) / k)%nat in
  let padded := data ++ replicate (k * block_size - length data) 0%Z in
  ∃ parity,
    encode k m data
    = Ok (map (fun i => take block_size (drop (i * block_size) padded)) (seq 0 k) ++ parity)
    ∧ length parity = m
    ∧ Forall (fun b => length b = block_size) parity.
Proof.
  intros Hk Hdata block_size padded. unfold encode.
  rewrite bool_decide_eq_false_2 by done. cbv zeta.
  fold block_size. fold padded.
  set (slices := map (fun i => take block_size (drop (i * block_size) padded)) (seq 0 k)).
  set (dot := fun (i j : nat) =>
    fold_left (fun acc c =>
                 gf_add acc
                   (gf_multiply (nth c (nth i (createVandermondeMatrix (k + m) k) []) 0%Z)
                      (nth c (map (fun r => get slices r j) (seq 0 k)) 0%Z)))
              (seq 0 (length (nth i (createVandermondeMatrix (k + m) k) []))) 0%Z).
  exists (map (fun i => map (dot i) (seq 0 block_size)) (seq k m)).
  split; [|split].
  - erewrite (mapR_ok _ (fun i => map (dot i) (seq 0 block_size))); [done|].
    intros i Hi. apply elem_of_seq in Hi.
    erewrite (mapR_ok _ (dot i)); [done|].
    intros j _. unfold matrixVectorMultiply. cbn [nth].
    rewrite vandermonde_row by lia. rewrite length_map, length_seq, Nat.eqb_refl.
    cbn. unfold dot. by rewrite vandermonde_row by lia.
  - by rewrite length_map, length_seq.
  - apply Forall_forall. intros b Hb. apply list_elem_of_fmap in Hb as (i & -> & _).
    by rewrite length_map, length_seq.
Qed.

(** [decode] with every data block at hand returns the first [k] blocks
    one after the other. *)
Lemma decode_systematic (k m : nat) (blocks : list (list Z)) (availability : list bool) :
  length blocks = (k + m)%nat → length availability = (k + m)%nat →
  (∀ i, (i < k)%nat → nth i availability false = true) →
  decode k m blocks availability
  = Ok (concat (map (fun i => nth i blocks []) (seq 0 k))).
Proof.
  intros Hblocks Hlen Hall. unfold decode. rewrite Hblocks, Hlen, !Nat.eqb_refl.
  cbn [negb orb]. rewrite <- Hlen.
  destruct (Nat.ltb_spec
              (length (List.filter (fun i => nth i availability false)
                                   (seq 0 (length availability)))) k) as [Hfew|_].
  { pose proof (all_data_counted k availability ltac:(lia) Hall). lia. }
  assert (forallb (fun i => nth i availability false) (seq 0 k) = true) as ->; [|done].
  apply forallb_forall. intros i Hi. apply in_seq in Hi. apply Hall. lia.
Qed.

(** X.  For a chunk that is not empty, [encode] returns [k + m] blocks
    of ceil(n / k) bytes each, the first [k] of which are the input
    followed by zero bytes; and [decode], given those blocks with every
    data block marked available (any parity blocks may be missing),
    returns the padded input, from which [removePadding] gives the input. *)
Theorem encode_is_systematic (k m : nat) (data : list Z) :
  (0 < k)%nat → data ≠ [] →
  let block_size := ((length data + k - 1) / k)%nat in
  let padded := data ++ replicate (k * block_size - length data) 0%Z in
  ∃ blocks,
    encode k m data = Ok blocks
    ∧ length blocks = (k + m)%nat
    ∧ Forall (fun b => length b = block_size) blocks
    ∧ concat (take k blocks) = padded
    ∧ ∀ availability, length availability = (k + m)%nat →
        (∀ i, (i < k)%nat → nth i availability false = true) →
        decode k m blocks availability = Ok padded
        ∧ removePadding padded (Z.of_nat (length data)) = data.
Proof.
  intros Hk Hdata block_size padded.
  destruct (encode_blocks k m data Hk Hdata) as (parity & Hencode & Hparity & Hsizes).
  fold block_size in Hencode, Hsizes. fold padded in Hencode.
  pose proof (block_size_bound k data Hk) as Hbound. fold block_size in Hbound.
  assert (Hpadded : length padded = (k * block_size)%nat).
  { subst padded. rewrite length_app, length_replicate. lia. }
  set (slices := map (fun i => take block_size (drop (i * block_size) padded)) (seq 0 k))
    in *.
  assert (Hslices : length slices = k) by (subst slices; by rewrite length_map, length_seq).
  exists (slices ++ parity). split; [done|]. split; [rewrite length_app; lia|].
  split.
  { apply Forall_app. split; [|done]. apply Forall_forall. intros b Hb.
    apply list_elem_of_fmap in Hb as (i & -> & Hi). apply elem_of_seq in Hi.
    rewrite length_take, length_drop. nia. }
  split.
  { rewrite take_app_length' by done. by apply slices_concat. }
  intros availability Hlen Hall. split.
  - rewrite decode_systematic by (rewrite ?length_app; lia || done). f_equal.
    transitivity (concat slices); [|by apply slices_concat]. f_equal.
    apply map_ext_in. intros i Hi. apply in_seq in Hi.
    rewrite app_nth1 by lia. subst slices.
    rewrite (nth_indep _ [] (take block_size (drop (0 * block_size) padded)))
      by (rewrite length_map, length_seq; lia).
    rewrite (map_nth (fun i => take block_size (drop (i * block_size) padded))).
    by rewrite seq_nth by lia.
  - unfold removePadding.
    destruct (Z.ltb_spec (Z.of_nat (length data)) 0); [lia|].
    destruct (Z.ltb_spec (Z.of_nat (length padded)) (Z.of_nat (length data))); [lia|].
    cbn [orb]. rewrite Nat2Z.id. subst padded. by rewrite take_app_length.
Qed.

Lemma encode_is_systematic_witness :
  ∃ blocks, encode 4 2 [1; 2; 3; 4; 5]%Z = Ok blocks
            ∧ take 4 blocks = [[1; 2]; [3; 4]; [5; 0]; [0; 0]]%Z
            ∧ decode 4 2 blocks [true; true; true; true; false; true]
              = Ok [1; 2; 3; 4; 5; 0; 0; 0]%Z.
Proof.
  destruct (encode_is_systematic 4 2 [1; 2; 3; 4; 5]%Z) as (blocks & Hencode & _ & _ & _ & Hdecode);
    [lia | done |].
  exists blocks. split; [exact Hencode|]. split.
  - revert Hencode. vm_compute. by intros [= <-].
  - apply (Hdecode [true; true; true; true; false; true]); [done|].
    intros [|[|[|[|i]]]] Hi; done || lia.
Defined.


(** ** The chunk manager *)

Lemma insert_by_index_perm (c : CodedChunk) (l : list CodedChunk) :
  insert_by_index c l ≡ₚ c :: l.
Proof.
  induction l as [|d l IH]; cbn; [done|].
  destruct (block_index d <? block_index c)%Z; [|done].
  rewrite IH. apply perm_swap.
Qed.

Lemma sort_by_index_perm (l : list CodedChunk) : sort_by_index l ≡ₚ l.
Proof.
  induction l as [|c l IH]; cbn; [done|].
  by rewrite insert_by_index_perm, IH.
Qed.

(** The placing loop of [decodeChunk]: a slot that only blocks with the
    bytes [d] are placed in, and at least one is, ends up holding [d] and
    marked available. *)
Lemma place_blocks_slot (total : nat) (l : list CodedChunk)
    (st : list (list Z) * list bool) (i : nat) (d : list Z) :
  (i < total)%nat → length st.1 = total → length st.2 = total →
  (∀ c, c ∈ l → block_index c = Z.of_nat i → cc_data c = d) →
  (∃ c, c ∈ l ∧ block_index c = Z.of_nat i)
  ∨ (nth i st.1 [] = d ∧ nth i st.2 false = true) →
  let st' := fold_left (place_block total) l st in
  length st'.1 = total ∧ length st'.2 = total
  ∧ nth i st'.1 [] = d ∧ nth i st'.2 false = true.
Proof.
  intros Hi. revert st. induction l as [|c l IH]; intros st Hlen1 Hlen2 Hdata Hsome.
  - cbn. destruct Hsome as [(c & Hc & _)|[? ?]]; [by apply elem_of_nil in Hc | done].
  - cbn [fold_left]. apply IH.
    + unfold place_block. destruct (_ && _); [|done]. cbn. by rewrite length_insert.
    + unfold place_block. destruct (_ && _); [|done]. cbn. by rewrite length_insert.
    + intros c' Hc'. apply Hdata. apply elem_of_cons. by right.
    + destruct (decide (block_index c = Z.of_nat i)) as [Hidx|Hidx].
      * right. unfold place_block. rewrite Hidx, Nat2Z.id.
        destruct (Z.leb_spec 0 (Z.of_nat i)); [|lia].
        destruct (Z.ltb_spec (Z.of_nat i) (Z.of_nat total)); [|lia]. cbn.
        rewrite !nth_lookup, !list_lookup_insert_eq by lia. cbn.
        split; [|done]. apply Hdata; [apply elem_of_cons; by left | done].
      * destruct Hsome as [(c' & Hc' & Hidx')|[Hblock Hav]].
        -- left. exists c'. split; [|done].
           apply elem_of_cons in Hc' as [->|?]; done.
        -- right. unfold place_block. destruct (_ && _) eqn:Hrange; [|done]. cbn.
           apply andb_true_iff in Hrange as [Hlow Hhigh].
           rewrite !nth_lookup, !list_lookup_insert_ne by lia.
           by rewrite <- !nth_lookup.
Qed.

Section Manager.
Context `{HashOracle}.

(** The blocks of an encoded chunk that are left, every data block among
    them, decode to the chunk. *)
Lemma decodeChunk_of_kept_blocks (k m : nat) (chunkId : string) (data : list Z)
    (group : CodeGroup) (keep : CodedChunk → bool) (kept : list CodedChunk) :
  (0 < k)%nat → data ≠ [] →
  encodeChunk k m chunkId data = Ok group →
  (∀ c, c ∈ blocks group → is_parity c = false → keep c = true) →
  kept ≡ₚ List.filter keep (blocks group) →
  length (blocks group) = (k + m)%nat
  ∧ canDecodeChunk k {| group_id := group_id group; blocks := kept;
                        data_blocks := data_blocks group;
                        parity_blocks := parity_blocks group;
                        original_size := original_size group |} = true
  ∧ decodeChunk k m {| group_id := group_id group; blocks := kept;
                       data_blocks := data_blocks group;
                       parity_blocks := parity_blocks group;
                       original_size := original_size group |} = Ok data.
Proof.
  intros Hk Hdata Hencode Hkeep Hkept.
  unfold encodeChunk in Hencode.
  destruct (encode_is_systematic k m data Hk Hdata)
    as (encoded & Henc & Hlen & _ & Hconcat & Hdecode).
  set (block_size := ((length data + k - 1) / k)%nat) in *.
  set (padded := data ++ replicate (k * block_size - length data) 0%Z) in *.
  rewrite Henc in Hencode. cbn in Hencode. injection Hencode as <-. cbn [blocks data_blocks parity_blocks] in *.
  set (chunk := fun (i : nat) (b : list Z) =>
         {| cc_chunk_id := chunkId +:+ "_block_" +:+ pretty i;
            block_index := Z.of_nat i; is_parity := (k <=? i)%nat;
            cc_data := b; cc_checksum := calculateSHA256 b |}) in *.
  assert (Hin : ∀ c, c ∈ kept ↔ keep c = true ∧ ∃ i b, encoded !! i = Some b ∧ c = chunk i b).
  { intros c. rewrite Hkept, list_elem_of_In, filter_In, <- list_elem_of_In.
    rewrite elem_of_lookup_imap. naive_solver. }
  assert (Hdata_in : ∀ i, (i < k)%nat →
            ∃ b, encoded !! i = Some b ∧ chunk i b ∈ kept).
  { intros i Hi. destruct (lookup_lt_is_Some_2 encoded i) as [b Hb]; [lia|].
    exists b. split; [done|]. apply Hin. split; [|by eauto].
    apply Hkeep; [by apply (elem_of_lookup_imap_2 chunk)|]. cbn. apply Nat.leb_gt. lia. }
  split; [by rewrite length_imap|].
  assert (Hplaced : ∀ i, (i < k)%nat →
            let st' := fold_left (place_block (k + m)) (sort_by_index kept)
                         (replicate (k + m) [], replicate (k + m) false) in
            length st'.1 = (k + m)%nat ∧ length st'.2 = (k + m)%nat
            ∧ nth i st'.1 [] = nth i encoded [] ∧ nth i st'.2 false = true).
  { intros i Hi. destruct (Hdata_in i Hi) as (b & Hb & Hc).
    apply place_blocks_slot; [lia|apply length_replicate..| |].
    - intros c Hc' Hidx. rewrite sort_by_index_perm in Hc'.
      apply Hin in Hc' as (_ & j & b' & Hb' & ->). cbn in Hidx.
      apply Nat2Z.inj in Hidx. subst j. cbn. by rewrite (nth_lookup_Some _ _ _ _ Hb').
    - left. exists (chunk i b). split; [by rewrite sort_by_index_perm | done]. }
  split.
  + unfold canDecodeChunk, canDecode. cbn [blocks data_blocks parity_blocks].
    apply Nat.leb_le.
    set (av := fold_left _ kept _).
    assert (Hav : length av = (k + m)%nat ∧ ∀ i, (i < k)%nat → nth i av false = true).
    { subst av.
      assert (Hgen : ∀ l (av0 : list bool), length av0 = (k + m)%nat →
                let av := fold_left (fun av chunk =>
                            if (0 <=? block_index chunk)%Z
                               && (block_index chunk <? Z.of_nat (k + m))%Z
                            then <[Z.to_nat (block_index chunk) := true]> av else av)
                            l av0 in
                length av = (k + m)%nat
                ∧ ∀ i, (i < k + m)%nat →
                    (nth i av0 false = true
                     ∨ ∃ c, c ∈ l ∧ block_index c = Z.of_nat i) →
                    nth i av false = true).
      { induction l as [|c l IH]; intros av0 Hlen0; cbn [fold_left].
        - split; [done|]. intros i _ [?|(c & Hc & _)]; [done|].
          by apply elem_of_nil in Hc.
        - destruct (IH (if (0 <=? block_index c)%Z
                           && (block_index c <? Z.of_nat (k + m))%Z
                        then <[Z.to_nat (block_index c) := true]> av0 else av0))
            as [Hlen' Hslots].
          { destruct (_ && _); [by rewrite length_insert | done]. }
          split; [done|]. intros i Hi Hsome. apply Hslots; [done|].
          destruct (decide (block_index c = Z.of_nat i)) as [Hidx|Hidx].
          + left. rewrite Hidx, Nat2Z.id.
            destruct (Z.leb_spec 0 (Z.of_nat i)); [|lia].
            destruct (Z.ltb_spec (Z.of_nat i) (Z.of_nat (k + m))); [|lia]. cbn.
            by rewrite nth_lookup, list_lookup_insert_eq by lia.
          + destruct Hsome as [Hav|(c' & Hc' & Hidx')].
            * left. destruct (_ && _) eqn:Hrange; [|done].
              apply andb_true_iff in Hrange as [Hlow Hhigh].
              rewrite nth_lookup, list_lookup_insert_ne by lia.
              by rewrite <- nth_lookup.
            * right. exists c'. split; [|done].
              apply elem_of_cons in Hc' as [->|?]; done. }
      destruct (Hgen kept (replicate (k + m) false)) as [Hlen' Hslots];
        [by rewrite length_replicate|].
      split; [done|]. intros i Hi. apply Hslots; [lia|]. right.
      destruct (Hdata_in i Hi) as (b & _ & Hc). by exists (chunk i b). }
    destruct Hav as [Hlen' Hall].
    rewrite <- available_indices_count. by apply all_data_counted; [lia|].
  + unfold decodeChunk. cbn [blocks data_blocks parity_blocks original_size].
    rewrite bool_decide_eq_false_2.
    2: { intros ->. destruct (Hdata_in 0%nat Hk) as (b & _ & Hc).
         by apply elem_of_nil in Hc. }
    destruct (fold_left (place_block (k + m)) (sort_by_index kept)
                (replicate (k + m) [], replicate (k + m) false))
      as [blks availability] eqn:Hfold.
    destruct (Hplaced 0%nat Hk) as (Hlen1 & Hlen2 & _). cbn [fst snd] in Hlen1, Hlen2.
    rewrite decode_systematic; [|done|done|].
    2: { intros i Hi. by destruct (Hplaced i Hi) as (_ & _ & _ & ?). }
    cbn. f_equal.
    assert (concat (map (fun i => nth i blks []) (seq 0 k)) = padded) as ->.
    { rewrite <- Hconcat. f_equal.
      apply list_eq. intros i. rewrite list_lookup_fmap.
      destruct (decide (i < k)%nat) as [Hi|Hi].
      - rewrite lookup_seq_lt by done. cbn.
        destruct (Hplaced i Hi) as (_ & _ & Hblock & _). cbn [fst] in Hblock.
        rewrite Hblock, lookup_take_lt by done.
        destruct (lookup_lt_is_Some_2 encoded i) as [b Hb]; [lia|].
        by rewrite Hb, (nth_lookup_Some _ _ _ _ Hb).
      - rewrite lookup_seq_ge by lia. cbn. symmetry. apply lookup_ge_None_2.
        rewrite length_take. lia. }
    apply (Hdecode (replicate (k + m) true)); [by rewrite length_replicate|].
    intros i Hi. by rewrite nth_lookup, lookup_replicate_2 by lia.
Qed.

(** X.  A chunk that is not empty and was encoded by [encodeChunk] is
    returned by [decodeChunk] from the blocks of the group that are
    left, in any order, as long as every data block is among them; any
    of the parity blocks may be lost.  An empty chunk is encoded into a
    group without blocks, which [decodeChunk] refuses. *)
Theorem decodeChunk_returns_encoded_chunk (k m : nat) (chunkId : string) (data : list Z)
    (group : CodeGroup) (keep : CodedChunk → bool) (kept : list CodedChunk) :
  (0 < k)%nat →
  encodeChunk k m chunkId data = Ok group →
  (∀ c, c ∈ blocks group → is_parity c = false → keep c = true) →
  kept ≡ₚ List.filter keep (blocks group) →
  let left_over := {| group_id := group_id group; blocks := kept;
                      data_blocks := data_blocks group;
                      parity_blocks := parity_blocks group;
                      original_size := original_size group |} in
  if bool_decide (data = [])
  then decodeChunk k m left_over = Throw NoBlocksAvailable
  else length (blocks group) = (k + m)%nat
       ∧ canDecodeChunk k left_over = true
       ∧ decodeChunk k m left_over = Ok data.
Proof.
  intros Hk Hencode Hkeep Hkept left_over. subst left_over.
  case_bool_decide as Hdata.
  - subst data. cbn in Hencode. injection Hencode as <-. cbn in Hkept.
    apply Permutation_nil_r in Hkept. subst kept. done.
  - by apply (decodeChunk_of_kept_blocks k m chunkId data group keep).
Qed.

(** X.  [repairMissingBlocks] rebuilds a lost parity block with the
    bytes and the checksum of the original, but under another chunk id:
    the group is encoded again under its group id, so the id of the
    repaired block has [_group] in it and is not the id of the block
    that was lost. *)
Theorem repaired_block_has_another_id (k m : nat) (chunkId : string) (data : list Z)
    (group : CodeGroup) (i : nat) :
  (0 < k)%nat → data ≠ [] →
  encodeChunk k m chunkId data = Ok group →
  (k ≤ i < k + m)%nat →
  ∃ original repaired,
    blocks group !! i = Some original
    ∧ repairMissingBlocks k m (lose_block (Z.of_nat i) group) [Z.of_nat i] = Ok [repaired]
    ∧ cc_data repaired = cc_data original
    ∧ cc_checksum repaired = cc_checksum original
    ∧ block_index repaired = block_index original
    ∧ cc_chunk_id original = chunkId +:+ "_block_" +:+ pretty i
    ∧ cc_chunk_id repaired = (chunkId +:+ "_group") +:+ "_block_" +:+ pretty i
    ∧ cc_chunk_id repaired ≠ cc_chunk_id original.
Proof.
  intros Hk Hdata Hencode Hi.
  destruct (decodeChunk_of_kept_blocks k m chunkId data group
              (fun c => negb (block_index c =? Z.of_nat i)%Z)
              (List.filter (fun c => negb (block_index c =? Z.of_nat i)%Z) (blocks group))
              Hk Hdata Hencode) as (Hlen & _ & Hdecode); [|done|].
  { intros c Hc Hparity. unfold encodeChunk in Hencode.
    destruct (encode k m data) as [encoded|]; [|done]. cbn in Hencode.
    injection Hencode as <-. cbn in Hc.
    apply elem_of_lookup_imap in Hc as (j & b & -> & _). cbn in Hparity |- *.
    apply Nat.leb_gt in Hparity. apply negb_true_iff, Z.eqb_neq. lia. }
  unfold repairMissingBlocks, lose_block. rewrite Hdecode. cbn [mbind result_bind group_id].
  unfold encodeChunk in Hencode |- *.
  destruct (encode k m data) as [encoded|]; [|done]. cbn in Hencode |- *.
  injection Hencode as <-. cbn in Hlen |- *. rewrite length_imap in Hlen |- *.
  destruct (lookup_lt_is_Some_2 encoded i) as [b Hb]; [lia|].
  eexists _, _. split; [by rewrite list_lookup_imap, Hb|].
  destruct (Z.leb_spec 0 (Z.of_nat i)); [|lia].
  destruct (Z.ltb_spec (Z.of_nat i) (Z.of_nat (length encoded))); [|lia].
  cbn. rewrite Nat2Z.id, list_lookup_imap, Hb. cbn.
  split; [done|]. cbn. repeat (split; [done|]).
  rewrite ChunkIdProps.append_assoc. intros Hsame.
  assert (Hcancel : ∀ p s1 s2 : string, p +:+ s1 = p +:+ s2 → s1 = s2).
  { induction p as [|c p IH]; intros s1 s2; [done|].
    change (String c (p +:+ s1) = String c (p +:+ s2) → s1 = s2).
    intros [= Heq]. by apply IH. }
  apply Hcancel in Hsame. discriminate Hsame.
Qed.

End Manager.

Lemma decodeChunk_returns_encoded_chunk_witness :
  (group ← encodeChunk (H := hex_print_hash) 4 2 "c" [1; 2; 3; 4; 5]%Z;
   decodeChunk 4 2 (lose_block 5 (lose_block 4 group)))
  = Ok [1; 2; 3; 4; 5]%Z.
Proof.
  destruct (encodeChunk (H := hex_print_hash) 4 2 "c" [1; 2; 3; 4; 5]%Z)
    as [group|] eqn:Hencode; [|by vm_compute in Hencode].
  pose proof Hencode as Hvalue. vm_compute in Hvalue. injection Hvalue as Hvalue.
  pose proof (decodeChunk_returns_encoded_chunk (H := hex_print_hash) 4 2 "c"
                [1; 2; 3; 4; 5]%Z group
                (fun c => negb (block_index c =? 5)%Z && negb (block_index c =? 4)%Z)
                (blocks (lose_block 5 (lose_block 4 group)))) as Hround.
  cbv zeta in Hround. rewrite bool_decide_eq_false_2 in Hround by done.
  apply Hround.
  - lia.
  - done.
  - intros c Hc. rewrite <- Hvalue in Hc. cbn [blocks] in Hc.
    repeat (apply elem_of_cons in Hc as [->|Hc]); try done.
    by apply elem_of_nil in Hc.
  - rewrite <- Hvalue. vm_compute. reflexivity.
Defined.

Lemma repaired_block_has_another_id_witness :
  ∃ group repaired,
    encodeChunk (H := hex_print_hash) 4 2 "c" [1; 2; 3; 4; 5]%Z = Ok group
    ∧ cc_chunk_id <$> blocks group !! 5%nat = Some "c_block_5"
    ∧ repairMissingBlocks (H := hex_print_hash) 4 2 (lose_block 5 group) [5%Z]
      = Ok [repaired]
    ∧ cc_chunk_id repaired = "c_group_block_5".
Proof.
  destruct (encodeChunk (H := hex_print_hash) 4 2 "c" [1; 2; 3; 4; 5]%Z)
    as [group|] eqn:Hencode; [|by vm_compute in Hencode].
  destruct (repaired_block_has_another_id (H := hex_print_hash) 4 2 "c" [1; 2; 3; 4; 5]%Z
              group 5) as (original & repaired & Hblock & Hrepair & _ & _ & _ & Hid & Hid' & _);
    [lia | done | done | lia |].
  exists group, repaired. split; [done|]. split; [|split].
  - rewrite Hblock. cbn. by rewrite Hid.
  - exact Hrepair.
  - by rewrite Hid'.
Defined.

End CodecProps.

(** * Properties of the key manager and of the key file *)

Module KeyProps.
Import Crypto KeyFile CryptoProps.

Section WithCipher.
Context `{AesGcm}.

(** X.  With a key of 32 characters stored under [keyId], a chunk that
    the cipher seals is encrypted as IV, ciphertext and tag (28 bytes
    more than the ciphertext) and [decryptChunk] returns the chunk.
    Under a key id that holds no key, or a key of another length, both
    directions return the empty vector. *)
Theorem stored_key_encrypts_and_decrypts (keys_ : gmap string string)
    (keyId key : string) (iv_entropy chunk : list Z) :
  let keys' := storeKey keys_ keyId key in
  hasKey keys' keyId = true
  ∧ (String.length key = 32%nat →
     ∀ ct tag, gcm_seal key (generateRandomIV iv_entropy) chunk = Some (ct, tag) →
       encryptChunk keys' iv_entropy chunk keyId = generateRandomIV iv_entropy ++ ct ++ tag
       ∧ length (encryptChunk keys' iv_entropy chunk keyId) = (28 + length ct)%nat
       ∧ decryptChunk keys' (encryptChunk keys' iv_entropy chunk keyId) keyId = chunk)
  ∧ (String.length key ≠ 32%nat →
     ∀ data, encryptChunk keys' iv_entropy chunk keyId = []
             ∧ decryptChunk keys' data keyId = [])
  ∧ (∀ other data, hasKey keys' other = false →
       encryptChunk keys' iv_entropy chunk other = []
       ∧ decryptChunk keys' data other = []).
Proof.
  intros keys'. subst keys'. unfold storeKey.
  assert (Hget : getKey (<[keyId := key]> keys_) keyId = key).
  { unfold getKey. by rewrite lookup_insert_eq. }
  split; [|split; [|split]].
  - unfold hasKey. apply bool_decide_eq_true_2. rewrite lookup_insert_eq. by eexists.
  - intros Hlen ct tag Hseal.
    assert (Hne : key ≠ EmptyString) by (intros ->; done).
    destruct (encrypt_layout iv_entropy chunk key ct tag Hlen Hseal) as (Hlayout & Hiv & Htag).
    assert (Henc : encryptChunk (<[keyId := key]> keys_) iv_entropy chunk keyId
                   = generateRandomIV iv_entropy ++ ct ++ tag).
    { unfold encryptChunk. rewrite Hget. by rewrite bool_decide_eq_false_2. }
    split; [done|]. split.
    + rewrite Henc, !length_app, Hiv, Htag. lia.
    + unfold decryptChunk. rewrite Hget, bool_decide_eq_false_2 by done.
      rewrite Henc, <- Hlayout. apply decrypt_encrypt; [done|].
      rewrite Hlayout. intros Hnil. apply (f_equal length) in Hnil.
      rewrite !length_app, Hiv in Hnil. cbn in Hnil. lia.
  - intros Hlen data. unfold encryptChunk, decryptChunk, encrypt, decrypt. rewrite Hget.
    apply Nat.eqb_neq in Hlen. unfold KEY_SIZE. rewrite Hlen. cbn [negb orb].
    by case_bool_decide.
  - intros other data Hmissing. unfold hasKey in Hmissing.
    apply bool_decide_eq_false_1 in Hmissing.
    assert (Hnone : getKey (<[keyId := key]> keys_) other = EmptyString).
    { unfold getKey. destruct (<[keyId := key]> keys_ !! other) eqn:Hlookup; [|done].
      destruct Hmissing. by eexists. }
    unfold encryptChunk, decryptChunk. rewrite Hnone.
    by rewrite (bool_decide_eq_true_2 (EmptyString = EmptyString)).
Qed.

(** The key that [deriveKeyFromPassword] returns has 64 characters or
    none. *)
Lemma deriveKeyFromPassword_length (kdf : string → list Z → option (list Z))
    (password : string) (salt : list Z) :
  String.length (deriveKeyFromPassword kdf password salt) = 64%nat
  ∨ deriveKeyFromPassword kdf password salt = EmptyString.
Proof.
  unfold deriveKeyFromPassword. destruct (kdf password salt) as [derived|]; [left | by right].
  by rewrite to_hex_length, rand_vector_length.
Qed.


(** X.  [loadKeysFromFile] never succeeds and never changes the keys in
    memory, whatever [keys.dat] holds and whatever the password is: the
    derived key has 64 characters and [decrypt] wants 32.  On a file
    shorter than the salt it does not even return. *)
Theorem loadKeysFromFile_never_succeeds (keys_ : gmap string string)
    (masterPassword : string) (kdf : string → list Z → option (list Z))
    (file : option (list Z)) :
  match file with
  | Some content =>
      if (length content <? 16)%nat
      then loadKeysFromFile keys_ masterPassword kdf file = LengthError
      else loadKeysFromFile keys_ masterPassword kdf file = Loaded false keys_
  | None => loadKeysFromFile keys_ masterPassword kdf file = Loaded false keys_
  end.
Proof.
  destruct file as [content|]; [|done]. unfold loadKeysFromFile, SALT_SIZE.
  destruct (length content <? 16)%nat; [done|].
  assert (Hdecrypt : ∀ ct salt, decrypt ct (deriveKeyFromPassword kdf masterPassword salt) = []).
  { intros ct salt. unfold decrypt.
    by destruct (deriveKeyFromPassword_length kdf masterPassword salt) as [-> | ->]. }
  by rewrite Hdecrypt, (bool_decide_eq_true_2 ([] = [])).
Qed.

End WithCipher.

Lemma stored_key_encrypts_and_decrypts_witness :
  let keys' := storeKey ∅ "k" "0123456789abcdef0123456789abcdef" in
  decryptChunk (H := copy_cipher) keys'
    (encryptChunk (H := copy_cipher) keys' [] [104; 105]%Z "k") "k" = [104; 105]%Z
  ∧ encryptChunk (H := copy_cipher) (storeKey ∅ "k" "short") [] [104; 105]%Z "k" = [].
Proof.
  intros keys'. subst keys'.
  destruct (stored_key_encrypts_and_decrypts (H := copy_cipher) ∅ "k"
              "0123456789abcdef0123456789abcdef" [] [104; 105]%Z) as (_ & Hround & _).
  destruct (stored_key_encrypts_and_decrypts (H := copy_cipher) ∅ "k" "short" []
              [104; 105]%Z) as (_ & _ & Hshort & _).
  split.
  - by destruct (Hround eq_refl [104; 105]%Z (replicate 16 0%Z) eq_refl) as (_ & _ & ?).
  - by destruct (Hshort ltac:(done) []) as [? _].
Defined.


End KeyProps.

(** * Properties of the client's chunk cache *)

Module CacheProps.
Import CacheManager CacheAccount.

Lemma held_delete (entries : gmap string CacheEntry) (k : string) (entry : CacheEntry) :
  entries !! k = Some entry → held entries = (size entry + held (delete k entries))%nat.
Proof.
  intros Hk. unfold held.
  rewrite (map_fold_delete_L _ _ k entry entries); [done| |done].
  intros. lia.
Qed.

Lemma held_insert (entries : gmap string CacheEntry) (k : string) (entry : CacheEntry) :
  held (<[k := entry]> entries) = (size entry + held (delete k entries))%nat.
Proof.
  rewrite <- insert_delete_eq. unfold held.
  rewrite (map_fold_insert_L _ _ k entry (delete k entries)).
  - done.
  - intros. lia.
  - apply lookup_delete_eq.
Qed.

Lemma held_fresh (entries : gmap string CacheEntry) (k : string) :
  entries !! k = None → held (delete k entries) = held entries.
Proof. intros Hk. by rewrite delete_id. Qed.

(** The entry that [evictLRU] picks is in the cache and no entry was
    accessed earlier. *)
Lemma oldest_entry_spec (entries : list (string * CacheEntry)) :
  entries ≠ [] →
  ∃ oldest, oldest_entry entries = Some oldest ∧ oldest ∈ entries
            ∧ ∀ it, it ∈ entries → (last_accessed oldest.2 ≤ last_accessed it.2)%Z.
Proof.
  destruct entries as [|first rest]; [done|]. intros _. cbn [oldest_entry].
  eexists. split; [done|].
  assert (Hfold : ∀ (l : list (string * CacheEntry)) start,
            let oldest := fold_left (fun oldest it =>
                            if (last_accessed it.2 <? last_accessed oldest.2)%Z
                            then it else oldest) l start in
            (oldest = start ∨ oldest ∈ l)
            ∧ (last_accessed oldest.2 ≤ last_accessed start.2)%Z
            ∧ ∀ it, it ∈ l → (last_accessed oldest.2 ≤ last_accessed it.2)%Z).
  { induction l as [|x l IH]; intros start; cbn [fold_left].
    - split; [by left|]. split; [lia|]. intros it Hit. by apply elem_of_nil in Hit.
    - destruct (IH (if (last_accessed x.2 <? last_accessed start.2)%Z then x else start))
        as (Hin & Hle & Hall).
      split; [|split].
      + destruct Hin as [->|Hin]; [|right; apply elem_of_cons; by right].
        destruct (_ <? _)%Z; [right; apply elem_of_cons; by left | by left].
      + destruct (Z.ltb_spec (last_accessed x.2) (last_accessed start.2)); lia.
      + intros it Hit. apply elem_of_cons in Hit as [->|Hit]; [|by apply Hall].
        destruct (Z.ltb_spec (last_accessed x.2) (last_accessed start.2)); lia. }
  destruct (Hfold rest first) as (Hin & Hle & Hall). split.
  - destruct Hin as [->|Hin]; apply elem_of_cons; [by left | by right].
  - intros it Hit. apply elem_of_cons in Hit as [->|Hit]; [done | by apply Hall].
Qed.

(** X.  [evictLRU] on a cache that is not empty removes exactly one
    entry, one that no other entry was accessed before, and takes its
    size off the total. *)
Theorem evictLRU_evicts_least_recently_used (c : CacheManager.t) :
  cache_ c ≠ ∅ →
  ∃ k entry,
    cache_ c !! k = Some entry
    ∧ cache_ (evictLRU c) = delete k (cache_ c)
    ∧ total_size_ (evictLRU c) = (total_size_ c - size entry)%nat
    ∧ ∀ k' entry', cache_ c !! k' = Some entry' →
        (last_accessed entry ≤ last_accessed entry')%Z.
Proof.
  intros Hne. unfold evictLRU.
  destruct (oldest_entry_spec (map_to_list (cache_ c))) as ([k entry] & -> & Hin & Hall).
  { by rewrite map_to_list_empty_iff. }
  exists k, entry. cbn. split; [by apply elem_of_map_to_list|]. split; [done|].
  split; [done|]. intros k' entry' Hk'.
  apply (Hall (k', entry')). by apply elem_of_map_to_list.
Qed.

Lemma evictLRU_effect (c : CacheManager.t) :
  cache_ c ≠ ∅ →
  ∃ k entry, cache_ c !! k = Some entry
             ∧ cache_ (evictLRU c) = delete k (cache_ c)
             ∧ total_size_ (evictLRU c) = (total_size_ c - size entry)%nat
             ∧ max_size_ (evictLRU c) = max_size_ c.
Proof.
  intros Hne. unfold evictLRU.
  destruct (oldest_entry_spec (map_to_list (cache_ c))) as ([k entry] & -> & Hin & _).
  { by rewrite map_to_list_empty_iff. }
  exists k, entry. cbn. split; [by apply elem_of_map_to_list | done].
Qed.

Lemma evictLRU_accounted (c : CacheManager.t) : accounted c → accounted (evictLRU c).
Proof.
  intros [Htotal Hsizes]. destruct (decide (cache_ c = ∅)) as [Hempty|Hne].
  - unfold evictLRU. rewrite Hempty, map_to_list_empty. cbn. by split.
  - destruct (evictLRU_effect c Hne) as (k & entry & Hk & Hcache & Htotal' & _).
    split.
    + rewrite Htotal', Hcache, Htotal, (held_delete _ _ _ Hk). lia.
    + intros k' entry'. rewrite Hcache. intros Hk'.
      apply lookup_delete_Some in Hk' as [_ Hk']. by eapply Hsizes.
Qed.

(** The eviction loop of [put] stops with room for the incoming bytes or
    with an empty cache. *)
Lemma evict_until_fits_effect (rounds : nat) (c : CacheManager.t) (incoming : nat) :
  accounted c → (base.size (cache_ c) ≤ rounds)%nat →
  let c' := evict_until_fits rounds c incoming in
  accounted c' ∧ max_size_ c' = max_size_ c
  ∧ cache_hits_ c' = cache_hits_ c ∧ cache_misses_ c' = cache_misses_ c
  ∧ ((total_size_ c' + incoming ≤ max_size_ c')%nat ∨ cache_ c' = ∅)
  ∧ ((total_size_ c + incoming ≤ max_size_ c)%nat → c' = c).
Proof.
  revert c. induction rounds as [|rounds IH]; intros c Hacc Hsize; cbn [evict_until_fits].
  - split; [done|]. split; [done|]. split; [done|]. split; [done|]. split; [|done].
    right. apply map_size_empty_inv. lia.
  - destruct (Nat.ltb_spec (max_size_ c) (total_size_ c + incoming)) as [Hfull|Hfits];
      cbn [andb].
    2: { split; [done|]. split; [done|]. split; [done|]. split; [done|]. split; [by left | done]. }
    case_bool_decide as Hempty; cbn [negb].
    { split; [done|]. split; [done|]. split; [done|]. split; [done|]. split; [by right | done]. }
    destruct (evictLRU_effect c Hempty) as (k & entry & Hk & Hcache & _ & Hmax).
    destruct (IH (evictLRU c)) as (Hacc' & Hmax' & Hhits & Hmisses & Hroom & _).
    + by apply evictLRU_accounted.
    + rewrite Hcache, map_size_delete_Some by eauto.
      assert (base.size (cache_ c) ≠ 0)%nat by by apply map_size_non_empty_iff. lia.
    + split; [done|]. split; [by rewrite Hmax', Hmax|].
      assert (Hcounters : cache_hits_ (evictLRU c) = cache_hits_ c
                          ∧ cache_misses_ (evictLRU c) = cache_misses_ c).
      { unfold evictLRU. by destruct (oldest_entry _) as [[? ?]|]. }
      destruct Hcounters as [Hh Hm].
      split; [by rewrite Hhits|]. split; [by rewrite Hmisses|]. split; [done | lia].
Qed.

(** X.  The cache keeps its books: if [total_size_] is the sum of the
    entries' sizes before [put], [get], [remove], [clear] or [evictLRU],
    it is afterwards; and a new cache starts that way. *)
Theorem cache_accounting_is_kept (c : CacheManager.t) (chunk_id : string) (d : list Z)
    (now : Z) :
  accounted c →
  accounted (put c chunk_id d now)
  ∧ accounted (get c chunk_id now).2
  ∧ accounted (remove c chunk_id)
  ∧ accounted (clear c)
  ∧ accounted (evictLRU c).
Proof.
  intros Hacc. pose proof Hacc as [Htotal Hsizes].
  split; [|split; [|split; [|split]]].
  - unfold put. destruct (cache_ c !! chunk_id) as [entry|] eqn:Hentry.
    + split; cbn.
      * rewrite held_insert, Htotal, (held_delete _ _ _ Hentry). cbn. lia.
      * intros k entry'. destruct (decide (k = chunk_id)) as [->|Hne].
        -- rewrite lookup_insert_eq. by intros [= <-].
        -- rewrite lookup_insert_ne by done. apply Hsizes.
    + destruct (evict_until_fits_effect (map_size (cache_ c)) c (length d) Hacc (le_n _))
        as ([Htotal' Hsizes'] & _).
      set (c' := evict_until_fits _ c (length d)) in *.
      assert (Hfresh : cache_ c' !! chunk_id = None).
      { destruct (cache_ c' !! chunk_id) as [entry|] eqn:Hin; [|done].
        apply StoreProps.evict_until_fits_lookup in Hin. congruence. }
      split; cbn.
      * rewrite held_insert, held_fresh, Htotal' by done. cbn. lia.
      * intros k entry'. destruct (decide (k = chunk_id)) as [->|Hne].
        -- rewrite lookup_insert_eq. by intros [= <-].
        -- rewrite lookup_insert_ne by done. apply Hsizes'.
  - unfold get. destruct (cache_ c !! chunk_id) as [entry|] eqn:Hentry; [|done].
    split; cbn.
    + rewrite held_insert, Htotal, (held_delete _ _ _ Hentry). done.
    + intros k entry'. destruct (decide (k = chunk_id)) as [->|Hne].
      * rewrite lookup_insert_eq. intros [= <-]. cbn. by eapply Hsizes.
      * rewrite lookup_insert_ne by done. apply Hsizes.
  - unfold remove. destruct (cache_ c !! chunk_id) as [entry|] eqn:Hentry; [|done].
    split; cbn.
    + rewrite Htotal, (held_delete _ _ _ Hentry). lia.
    + intros k entry' Hk. apply lookup_delete_Some in Hk as [_ Hk]. by eapply Hsizes.
  - split; [done|]. intros k entry Hk. cbn in Hk. by apply lookup_empty_Some in Hk.
  - by apply evictLRU_accounted.
Qed.

Lemma new_accounted (max_cache_size_mb : nat) : accounted (new max_cache_size_mb).
Proof. split; [done|]. intros k entry Hk. cbn in Hk. by apply lookup_empty_Some in Hk. Qed.

(** X.  [put] of a chunk under a new id into a cache with correct books
    makes room first: if the chunk is no larger than the capacity, the
    total stays within the capacity, the chunk is then found, and [get]
    returns it.  A chunk larger than the capacity is stored all the
    same, alone, and the total exceeds the capacity; so does the total
    when an entry is replaced by a larger one, for which nothing is
    evicted. *)
Theorem put_makes_room (c : CacheManager.t) (chunk_id : string) (d : list Z) (now now' : Z) :
  accounted c →
  let c' := put c chunk_id d now in
  contains c' chunk_id = true
  ∧ (get c' chunk_id now').1 = d
  ∧ max_size_ c' = max_size_ c
  ∧ (cache_ c !! chunk_id = None →
     if (length d <=? max_size_ c)%nat
     then (total_size_ c' ≤ max_size_ c)%nat
     else cache_ c' = {[ chunk_id := {| data := d; last_accessed := now;
                                        size := length d |} ]}
          ∧ total_size_ c' = length d)
  ∧ (∀ entry, cache_ c !! chunk_id = Some entry →
       total_size_ c' = (total_size_ c - size entry + length d)%nat
       ∧ ∀ k, k ≠ chunk_id → cache_ c' !! k = cache_ c !! k).
Proof.
  intros Hacc c'. subst c'.
  assert (Hlookup : cache_ (put c chunk_id d now) !! chunk_id
                    = Some {| data := d; last_accessed := now; size := length d |}).
  { unfold put. destruct (cache_ c !! chunk_id); cbn; by rewrite lookup_insert_eq. }
  split; [|split; [|split; [|split]]].
  - unfold contains. apply bool_decide_eq_true_2. rewrite Hlookup. by eexists.
  - unfold get. by rewrite Hlookup.
  - unfold put. destruct (cache_ c !! chunk_id); [done|].
    destruct (evict_until_fits_effect (map_size (cache_ c)) c (length d) Hacc (le_n _))
      as (_ & Hmax & _).
    exact Hmax.
  - intros Hfresh. unfold put. rewrite Hfresh.
    destruct (evict_until_fits_effect (map_size (cache_ c)) c (length d) Hacc (le_n _))
      as ([Htotal _] & Hmax & _ & _ & Hroom & _).
    set (evicted := evict_until_fits _ c (length d)) in *. cbn.
    destruct (Nat.leb_spec (length d) (max_size_ c)) as [Hsmall|Hlarge].
    + destruct Hroom as [Hroom|Hempty]; [lia|].
      rewrite Htotal, Hempty. unfold held. rewrite map_fold_empty. lia.
    + destruct Hroom as [Hroom|Hempty]; [lia|].
      rewrite Htotal, Hempty. unfold held. rewrite map_fold_empty. done.
  - intros entry Hentry. unfold put. rewrite Hentry. cbn. split; [done|].
    intros k Hne. by rewrite lookup_insert_ne.
Qed.

Lemma cache_accounting_is_kept_witness :
  accounted (put (clear (new 0)) "c" [1; 2; 3]%Z 0)
  ∧ accounted (remove (put (clear (new 0)) "c" [1; 2; 3]%Z 0) "c").
Proof.
  destruct (cache_accounting_is_kept (new 0) "c" [] 0 (new_accounted 0))
    as (_ & _ & _ & Hclear & _).
  destruct (cache_accounting_is_kept (clear (new 0)) "c" [1; 2; 3]%Z 0 Hclear)
    as (Hput & _).
  split; [exact Hput|].
  by destruct (cache_accounting_is_kept _ "c" [] 0 Hput) as (_ & _ & Hremove & _).
Defined.

Lemma put_makes_room_witness :
  (get (put (new 0) "c" [1; 2; 3]%Z 0) "c" 1).1 = [1; 2; 3]%Z
  ∧ total_size_ (put (new 0) "c" [1; 2; 3]%Z 0) = 3%nat.
Proof.
  destruct (put_makes_room (new 0) "c" [1; 2; 3]%Z 0 1 (new_accounted 0))
    as (_ & Hget & _ & Hlarge & _).
  split; [exact Hget|]. by destruct (Hlarge eq_refl) as [_ Htotal].
Defined.

Lemma evictLRU_evicts_least_recently_used_witness :
  let c := put (put (new 0) "old" [1]%Z 5) "new" [2]%Z 9 in
  ∃ k entry, cache_ c !! k = Some entry ∧ cache_ (evictLRU c) = delete k (cache_ c).
Proof.
  intros c.
  destruct (evictLRU_evicts_least_recently_used c) as (k & entry & Hk & Hcache & _).
  - intros Hempty. apply (f_equal (lookup "new")) in Hempty. vm_compute in Hempty. done.
  - exists k, entry. split; [exact Hk | exact Hcache].
Defined.

End CacheProps.

(** * Properties of file deletion on the master *)

Module DeleteFileProps.
Import MetadataManager MetadataManagerProps.

Lemma removeChunkFromAllServers_files (st : t) (c : string) :
  files_ (removeChunkFromAllServers st c) = files_ st
  ∧ file_id_to_name_ (removeChunkFromAllServers st c) = file_id_to_name_ st.
Proof.
  unfold removeChunkFromAllServers.
  destruct (chunk_to_servers_ st !! c) as [set|]; [|done]. cbn.
  generalize (elements set). intros l. revert st.
  induction l as [|s l IH]; intros st; [done|]. cbn [fold_left].
  destruct (IH (unlink_server c st s)) as [-> ->]. done.
Qed.

(** The body of the loop of [deleteFile]. *)
Lemma erase_chunk_effect (st : t) (c : string) :
  let st1 := removeChunkFromAllServers st c in
  let st' := set_chunks st1 (delete c (chunks_ st1)) in
  files_ st' = files_ st
  ∧ file_id_to_name_ st' = file_id_to_name_ st
  ∧ chunks_ st' = delete c (chunks_ st)
  ∧ (∀ c0 s0, in_chunk_index st' c0 s0 = true → in_chunk_index st c0 s0 = true ∧ c0 ≠ c)
  ∧ (sides_agree st → sides_agree st').
Proof.
  intros st1 st'.
  destruct (removeChunkFromAllServers_files st c) as [Hfiles Hnames].
  destruct (removeChunkFromAllServers_effect st c) as (Hc & Hr & Hs & Hi1 & Hi2).
  fold st1 in Hfiles, Hnames, Hc, Hr, Hs, Hi1, Hi2.
  split; [done|]. split; [done|]. split; [subst st'; cbn; by rewrite Hc|].
  split.
  { intros c0 s0. change (in_chunk_index st' c0 s0) with (in_chunk_index st1 c0 s0).
    by rewrite Hi1. }
  rewrite !sides_agree_iff. intros Hagree c0 s0.
  change (stores st' c0 s0) with (stores st1 c0 s0).
  change (in_chunk_index st' c0 s0) with (in_chunk_index st1 c0 s0).
  change (in_server_index st' c0 s0) with (in_server_index st1 c0 s0).
  rewrite Hs, Hi1, Hi2.
  assert (HL : has_location st' c0 s0 = true ↔ has_location st c0 s0 = true ∧ c0 ≠ c).
  { unfold has_location. subst st'. cbn [set_chunks chunks_]. rewrite Hc.
    destruct (decide (c0 = c)) as [->|Hne].
    - rewrite lookup_delete_eq. naive_solver.
    - rewrite lookup_delete_ne by done. naive_solver. }
  rewrite HL. destruct (Hagree c0 s0) as [HLS HSI]. destruct (Hagree c s0) as [_ HSIc].
  destruct (decide (c0 = c)) as [->|Hne]; naive_solver.
Qed.

Lemma erase_chunks_effect (ids : list string) (st : t) :
  let st' := fold_left (fun st chunk_id =>
                          set_chunks (removeChunkFromAllServers st chunk_id)
                            (delete chunk_id
                               (chunks_ (removeChunkFromAllServers st chunk_id))))
                       ids st in
  files_ st' = files_ st
  ∧ file_id_to_name_ st' = file_id_to_name_ st
  ∧ (∀ c, chunks_ st' !! c = if bool_decide (c ∈ ids) then None else chunks_ st !! c)
  ∧ (∀ c s, in_chunk_index st' c s = true → in_chunk_index st c s = true ∧ c ∉ ids)
  ∧ (sides_agree st → sides_agree st').
Proof.
  revert st. induction ids as [|c0 ids IH]; intros st; cbn [fold_left].
  - split; [done|]. split; [done|]. split; [done|]. split; [|done].
    intros c s Hin. split; [done|]. apply not_elem_of_nil.
  - destruct (erase_chunk_effect st c0) as (Hfiles & Hnames & Hchunks & Hindex & Hagree).
    cbv zeta in Hfiles, Hnames, Hchunks, Hindex, Hagree.
    set (st1 := set_chunks (removeChunkFromAllServers st c0) _) in *.
    destruct (IH st1) as (Hfiles' & Hnames' & Hchunks' & Hindex' & Hagree').
    split; [by rewrite Hfiles'|]. split; [by rewrite Hnames'|]. split; [|split].
    + intros c. rewrite Hchunks', Hchunks.
      destruct (decide (c = c0)) as [->|Hne].
      * rewrite lookup_delete_eq.
        rewrite (bool_decide_eq_true_2 (c0 ∈ c0 :: ids)) by (apply elem_of_cons; by left).
        by case_bool_decide.
      * rewrite lookup_delete_ne by done.
        destruct (decide (c ∈ ids)) as [Hin|Hout].
        -- rewrite !bool_decide_eq_true_2; [done| by apply elem_of_cons; right | done].
        -- rewrite !bool_decide_eq_false_2; [done| |done].
           rewrite elem_of_cons. naive_solver.
    + intros c s Hin. destruct (Hindex' c s Hin) as [Hin1 Hout].
      destruct (Hindex c s Hin1) as [Hin0 Hne]. split; [done|].
      rewrite elem_of_cons. naive_solver.
    + intros H. by apply Hagree', Hagree.
Qed.

(** X.  [DeleteFile] of a file the master knows removes the file and
    every chunk on its list from the master's tables, and nothing else:
    the name is free again, the chunks have no record and no server,
    other files and chunks are as before, and tables that agreed before
    agree afterwards.  The key of an encrypted file stays in the key
    manager.  [DeleteFile] of an unknown name fails and changes nothing. *)
Theorem DeleteFile_removes_file_and_chunks (st : MasterServer.t) (filename : string) :
  let meta := MasterServer.metadata_manager_ st in
  let outcome := MasterServer.DeleteFile st filename in
  let meta' := MasterServer.metadata_manager_ outcome.2 in
  match getFileMetadata meta filename with
  | None => outcome = (false, st)
  | Some metadata =>
      outcome.1 = true
      ∧ MasterServer.GetFileInfo outcome.2 filename = None
      ∧ file_id_to_name_ meta' !! FileMetadata.file_id metadata = None
      ∧ (∀ other, other ≠ filename →
           getFileMetadata meta' other = getFileMetadata meta other)
      ∧ (∀ c, c ∈ FileMetadata.chunk_ids metadata →
           getChunkMetadata meta' c = None ∧ getServersForChunk meta' c = [])
      ∧ (∀ c, c ∉ FileMetadata.chunk_ids metadata →
           getChunkMetadata meta' c = getChunkMetadata meta c)
      ∧ (sides_agree meta →
         sides_agree meta'
         ∧ ∀ c s, c ∈ FileMetadata.chunk_ids metadata → stores meta' c s = false)
      ∧ MasterServer.keys_ outcome.2 = MasterServer.keys_ st
  end.
Proof.
  intros meta outcome meta'. subst outcome meta'.
  unfold MasterServer.DeleteFile, deleteFile, getFileMetadata. fold meta.
  destruct (files_ meta !! filename) as [metadata|] eqn:Hfile.
  2: { by destruct st. }
  destruct (erase_chunks_effect (FileMetadata.chunk_ids metadata) meta)
    as (Hfiles & Hnames & Hchunks & Hindex & Hagree).
  cbv zeta in Hfiles, Hnames, Hchunks, Hindex, Hagree.
  set (erased := fold_left _ (FileMetadata.chunk_ids metadata) meta) in *.
  change (fold_left _ (FileMetadata.chunk_ids metadata) meta) with erased.
  cbn [fst snd MasterServer.set_metadata MasterServer.metadata_manager_ MasterServer.keys_].
  assert (Hgone : ∀ c s, c ∈ FileMetadata.chunk_ids metadata →
            in_chunk_index erased c s = false).
  { intros c s Hin. apply not_true_is_false. intros Hidx.
    by destruct (Hindex c s Hidx). }
  split; [done|]. split.
  { unfold MasterServer.GetFileInfo, getFileMetadata. cbn. by rewrite lookup_delete_eq. }
  split; [cbn; by rewrite lookup_delete_eq|].
  split; [intros other Hne; cbn; by rewrite lookup_delete_ne, Hfiles|].
  split.
  { intros c Hin. unfold getChunkMetadata, getServersForChunk. cbn.
    rewrite Hchunks, bool_decide_eq_true_2 by done. split; [done|].
    destruct (chunk_to_servers_ erased !! c) as [set|] eqn:Hset; [|done].
    apply elements_empty_iff, elem_of_equiv_empty. intros s Hs.
    specialize (Hgone c s Hin). unfold in_chunk_index, index_in in Hgone.
    rewrite Hset in Hgone. by apply bool_decide_eq_false_1 in Hgone. }
  split.
  { intros c Hout. unfold getChunkMetadata. cbn.
    by rewrite Hchunks, bool_decide_eq_false_2. }
  split; [|done].
  intros Hsides. specialize (Hagree Hsides).
  assert (Hsame : ∀ files names, sides_agree (set_files erased files names)).
  { intros files names c s. apply (Hagree c s). }
  split; [apply Hsame|].
  intros c s Hin. destruct (Hagree c s) as [_ Hstores].
  change (stores (set_files erased _ _) c s) with (stores erased c s).
  by rewrite Hstores, Hgone.
Qed.

End DeleteFileProps.

(** * Properties of server selection and of reallocation *)

Module SelectionProps.
Import MetadataManager ChunkAllocator ChunkAllocatorProps.

(** What [getAvailableServers] lets through. *)
Lemma available_fit (meta : MetadataManager.t) (exclude : list string) (s : string) :
  keyed_by_id meta → s ∈ ids (getAvailableServers meta exclude) →
  (s ∉ exclude)
  ∧ ∃ sm, getServerMetadata meta s = Some sm
          ∧ ServerMetadata.is_healthy sm = true
          ∧ hasEnoughSpace sm Config.CHUNK_SIZE = true.
Proof.
  intros Hkeyed Hin. split; [by eapply available_servers_not_excluded|].
  apply list_elem_of_fmap in Hin as (sm & -> & Hsm).
  unfold getAvailableServers, getHealthyServers in Hsm.
  apply list_elem_of_In, filter_In in Hsm as [Hsm Hfit].
  apply andb_true_iff in Hfit as [_ Hspace].
  apply filter_In in Hsm as [Hsm Hhealthy].
  apply in_map_iff in Hsm as ([k sm'] & Heq & Hin). cbn in Heq. subst sm'.
  apply list_elem_of_In, elem_of_map_to_list in Hin.
  exists sm. unfold getServerMetadata. by rewrite (Hkeyed _ _ Hin).
Qed.

Lemma available_weaken (meta : MetadataManager.t) (exclude more : list string)
    (s : string) :
  s ∈ ids (getAvailableServers meta (exclude ++ more)) →
  s ∈ ids (getAvailableServers meta exclude).
Proof.
  intros Hin. apply list_elem_of_fmap in Hin as (sm & -> & Hsm).
  apply list_elem_of_fmap. exists sm. split; [done|].
  unfold getAvailableServers in *.
  apply list_elem_of_In, filter_In in Hsm as [Hsm Hfit].
  apply list_elem_of_In, filter_In. split; [done|].
  apply andb_true_iff in Hfit as [Hex Hspace]. apply andb_true_iff. split; [|done].
  apply negb_true_iff, bool_decide_eq_false_2.
  apply negb_true_iff, bool_decide_eq_false_1 in Hex.
  intros Hin. apply Hex, elem_of_app. by left.
Qed.

Lemma allocateLeastLoaded_from (meta : MetadataManager.t) (count : Z)
    (exclude : list string) :
  (length (allocateLeastLoaded meta count exclude) ≤ Z.to_nat count)%nat
  ∧ ∀ s, s ∈ allocateLeastLoaded meta count exclude →
         s ∈ ids (getAvailableServers meta exclude).
Proof.
  unfold allocateLeastLoaded. split.
  - rewrite length_map, length_take. lia.
  - intros s Hs. apply elem_of_ids_take in Hs.
    change (s ∈ ServerMetadata.server_id <$> sort_by_load (getAvailableServers meta exclude))
      in Hs.
    by rewrite (sort_by_load_perm (getAvailableServers meta exclude)) in Hs.
Qed.

Lemma allocateRandom_from (meta : MetadataManager.t) (count : Z)
    (exclude : list string) (draws : list nat) :
  (length (allocateRandom meta count exclude draws) ≤ Z.to_nat count)%nat
  ∧ ∀ s, s ∈ allocateRandom meta count exclude draws →
         s ∈ ids (getAvailableServers meta exclude).
Proof.
  unfold allocateRandom. split.
  - rewrite length_map, length_take. lia.
  - intros s Hs. apply elem_of_ids_take in Hs.
    change (s ∈ ServerMetadata.server_id
                  <$> shuffle draws (getAvailableServers meta exclude)) in Hs.
    by rewrite (shuffle_perm draws (getAvailableServers meta exclude)) in Hs.
Qed.

Lemma round_robin_loop_length (count : nat) (available : list ServerMetadata.t)
    (rr : nat) :
  (length (round_robin_loop count available rr).1 ≤ count)%nat.
Proof.
  revert available rr. induction count as [|count IH]; intros available rr; [done|].
  destruct (decide (available = [])) as [->|Hne]; [cbn; lia|].
  rewrite round_robin_loop_step by done. cbn [fst length].
  specialize (IH (delete (rr mod length available)%nat available)
                 (if (length (delete (rr mod length available)%nat available) <=? S rr)%nat
                     && negb (bool_decide (delete (rr mod length available)%nat available = []))
                  then 0%nat else S rr)).
  lia.
Qed.

Lemma allocateRoundRobin_from (a : ChunkAllocator.t) (meta : MetadataManager.t)
    (count : Z) (exclude : list string) :
  keyed_by_id meta →
  (length (allocateRoundRobin a meta count exclude).1 ≤ Z.to_nat count)%nat
  ∧ ∀ s, s ∈ (allocateRoundRobin a meta count exclude).1 →
         s ∈ ids (getAvailableServers meta exclude).
Proof.
  intros Hkeyed. unfold allocateRoundRobin.
  pose proof (round_robin_loop_length (Z.to_nat count) (getAvailableServers meta exclude)
                (round_robin_index_ a)) as Hlen.
  destruct (round_robin_loop_distinct (Z.to_nat count) (getAvailableServers meta exclude)
              (round_robin_index_ a) (available_servers_distinct meta exclude Hkeyed))
    as [_ Hin].
  by destruct (round_robin_loop _ _ _).
Qed.

Lemma zone_first_pass_length (a : ChunkAllocator.t) (count : Z)
    (available : list ServerMetadata.t) (result : list string) (used_zones : gset string) :
  (0 ≤ count)%Z → (length result ≤ Z.to_nat count)%nat →
  (length (zone_first_pass a count available result used_zones) ≤ Z.to_nat count)%nat.
Proof.
  intros Hcount. revert result used_zones.
  induction available as [|server rest IH]; intros result used_zones Hlen; [done|].
  cbn [zone_first_pass]. unfold zone_quota_reached.
  destruct (Z.leb_spec 0 count); [|lia]. cbn [andb].
  destruct (Z.leb_spec count (Z.of_nat (length result))); [done|].
  case_bool_decide; [by apply IH|]. apply IH. rewrite length_app. cbn. lia.
Qed.

Lemma allocateZoneAware_from (a : ChunkAllocator.t) (meta : MetadataManager.t)
    (count : Z) (exclude : list string) :
  keyed_by_id meta →
  ((0 ≤ count)%Z →
   (length (allocateZoneAware a meta count exclude) ≤ Z.to_nat count)%nat)
  ∧ ∀ s, s ∈ allocateZoneAware a meta count exclude →
         s ∈ ids (getAvailableServers meta exclude).
Proof.
  intros Hkeyed. unfold allocateZoneAware.
  destruct (zone_first_pass_distinct a count (getAvailableServers meta exclude) [] ∅)
    as [_ Hin].
  { by apply available_servers_distinct. }
  pose proof (fun Hcount => zone_first_pass_length a count
                (getAvailableServers meta exclude) [] ∅ Hcount ltac:(cbn; lia)) as Hlen.
  set (result := zone_first_pass a count (getAvailableServers meta exclude) [] ∅) in *.
  assert (Hfirst : ∀ s, s ∈ result → s ∈ ids (getAvailableServers meta exclude)).
  { intros s Hs. destruct (Hin s Hs) as [Habs|?]; [by inversion Habs | done]. }
  destruct (negb _); [|by split].
  destruct (allocateLeastLoaded_from meta (count - Z.of_nat (length result))
              (exclude ++ result)) as [Hlen2 Hin2].
  split.
  - intros Hcount. specialize (Hlen Hcount). rewrite length_app. lia.
  - intros s Hs. apply elem_of_app in Hs as [Hs|Hs]; [by apply Hfirst|].
    eapply available_weaken, Hin2, Hs.
Qed.

(** The servers that [allocateServersForChunk] returns are taken from
    [getAvailableServers], at most [replication_factor] of them. *)
Lemma allocateServersForChunk_from (a : ChunkAllocator.t) (meta : MetadataManager.t)
    (chunk_id : string) (replication_factor : Z) (exclude_servers : list string)
    (e : env) :
  keyed_by_id meta →
  let servers :=
    (allocateServersForChunk a meta chunk_id replication_factor exclude_servers e).1.1 in
  ((0 ≤ replication_factor)%Z → (length servers ≤ Z.to_nat replication_factor)%nat)
  ∧ ∀ s, s ∈ servers → s ∈ ids (getAvailableServers meta exclude_servers).
Proof.
  intros Hkeyed. unfold allocateServersForChunk.
  assert (Hfrom :
    let picked := (match strategy_ a with
             | ROUND_ROBIN => allocateRoundRobin a meta replication_factor exclude_servers
             | LEAST_LOADED =>
                 (allocateLeastLoaded meta replication_factor exclude_servers, a)
             | RANDOM =>
                 (allocateRandom meta replication_factor exclude_servers (shuffle_draws e), a)
             | ZONE_AWARE =>
                 (allocateZoneAware a meta replication_factor exclude_servers, a)
             end).1 in
    ((0 ≤ replication_factor)%Z → (length picked ≤ Z.to_nat replication_factor)%nat)
    ∧ ∀ s, s ∈ picked → s ∈ ids (getAvailableServers meta exclude_servers)).
  { destruct (strategy_ a); cbn [fst].
    - destruct (allocateRoundRobin_from a meta replication_factor exclude_servers Hkeyed).
      by split.
    - destruct (allocateLeastLoaded_from meta replication_factor exclude_servers).
      by split.
    - destruct (allocateRandom_from meta replication_factor exclude_servers
                  (shuffle_draws e)).
      by split.
    - by apply allocateZoneAware_from. }
  destruct (match strategy_ a with
            | ROUND_ROBIN => _ | LEAST_LOADED => _ | RANDOM => _ | ZONE_AWARE => _
            end) as [allocated_servers a'].
  cbn [fst] in Hfrom. case_bool_decide as Hempty; cbn [fst]; [|done].
  split; [cbn; lia|]. intros s Hs. by apply elem_of_nil in Hs.
Qed.

(** What [allocateServersForChunk] records. *)
Lemma allocateServersForChunk_chunk (a : ChunkAllocator.t) (meta : MetadataManager.t)
    (chunk_id : string) (replication_factor : Z) (exclude_servers : list string)
    (e : env) :
  let outcome :=
    allocateServersForChunk a meta chunk_id replication_factor exclude_servers e in
  if bool_decide (outcome.1.1 = []) then outcome.2 = meta
  else chunks_ outcome.2
       = <[chunk_id := {| ChunkMetadata.chunk_id := chunk_id;
                          ChunkMetadata.server_locations := outcome.1.1;
                          ChunkMetadata.size := 0;
                          ChunkMetadata.checksum := EmptyString;
                          ChunkMetadata.is_erasure_coded := false;
                          ChunkMetadata.erasure_group_id := EmptyString;
                          ChunkMetadata.erasure_block_index := 0;
                          ChunkMetadata.is_parity_block := false;
                          ChunkMetadata.created_time := now e;
                          ChunkMetadata.last_accessed_time := now e |}]> (chunks_ meta).
Proof.
  unfold allocateServersForChunk.
  destruct (match strategy_ a with
            | ROUND_ROBIN => _ | LEAST_LOADED => _ | RANDOM => _ | ZONE_AWARE => _
            end) as [allocated_servers a''].
  cbv zeta. destruct (decide (allocated_servers = [])) as [Hempty|Hempty].
  - rewrite (bool_decide_eq_true_2 (allocated_servers = [])) by done. cbn [fst snd].
    by rewrite bool_decide_eq_true_2.
  - rewrite (bool_decide_eq_false_2 (allocated_servers = [])) by done. cbn [fst snd].
    rewrite bool_decide_eq_false_2 by done. unfold addChunk.
    destruct (MetadataManagerProps.link_loop chunk_id allocated_servers
                (set_chunks meta (<[chunk_id := {|
                   ChunkMetadata.chunk_id := chunk_id;
                   ChunkMetadata.server_locations := allocated_servers;
                   ChunkMetadata.size := 0;
                   ChunkMetadata.checksum := EmptyString;
                   ChunkMetadata.is_erasure_coded := false;
                   ChunkMetadata.erasure_group_id := EmptyString;
                   ChunkMetadata.erasure_block_index := 0;
                   ChunkMetadata.is_parity_block := false;
                   ChunkMetadata.created_time := now e;
                   ChunkMetadata.last_accessed_time := now e |}]> (chunks_ meta))))
      as (Hchunks & _).
    cbn [ChunkMetadata.server_locations] in Hchunks |- *. by rewrite Hchunks.
Qed.

(** X.  Whatever the strategy, [allocateServersForChunk] returns at most
    [replication_factor] servers, all different, none of them excluded,
    each registered, marked healthy and with room for a chunk beyond
    the tenth of its space that is kept free; when it returns any, it
    records the chunk with exactly these locations. *)
Theorem allocated_servers_are_fit (a : ChunkAllocator.t) (meta : MetadataManager.t)
    (chunk_id : string) (replication_factor : Z) (exclude_servers : list string)
    (e : env) :
  keyed_by_id meta → (0 ≤ replication_factor)%Z →
  let outcome :=
    allocateServersForChunk a meta chunk_id replication_factor exclude_servers e in
  let servers := outcome.1.1 in
  (length servers ≤ Z.to_nat replication_factor)%nat
  ∧ NoDup servers
  ∧ (∀ s, s ∈ servers →
       (s ∉ exclude_servers)
       ∧ ∃ sm, getServerMetadata meta s = Some sm
               ∧ ServerMetadata.is_healthy sm = true
               ∧ hasEnoughSpace sm Config.CHUNK_SIZE = true)
  ∧ (if bool_decide (servers = []) then outcome.2 = meta
     else ChunkMetadata.server_locations <$> getChunkMetadata outcome.2 chunk_id
          = Some servers).
Proof.
  intros Hkeyed Hcount outcome servers. subst servers outcome.
  destruct (allocateServersForChunk_from a meta chunk_id replication_factor
              exclude_servers e Hkeyed) as [Hlen Hin].
  specialize (Hlen Hcount).
  pose proof (allocateServersForChunk_good a meta chunk_id replication_factor
                exclude_servers e Hkeyed) as Hgood.
  pose proof (allocateServersForChunk_chunk a meta chunk_id replication_factor
                exclude_servers e) as Hrec.
  destruct (allocateServersForChunk a meta chunk_id replication_factor exclude_servers e)
    as [[servers a'] meta'].
  cbn [fst snd] in *. destruct Hgood as [[Hnd _] _].
  split; [done|]. split; [done|]. split.
  { intros s Hs. by apply available_fit, Hin. }
  case_bool_decide; [done|].
  unfold getChunkMetadata. by rewrite Hrec, lookup_insert_eq.
Qed.

Lemma allocated_servers_are_fit_witness :
  let meta := MasterServer.metadata_manager_
                (MasterServer.with_servers ["s1"; "s2"; "s3"; "s4"]) in
  let servers :=
    (allocateServersForChunk init meta "c" 3 ["s2"]
       {| shuffle_draws := []; now := 0 |}).1.1 in
  (length servers ≤ 3)%nat ∧ NoDup servers ∧ ∀ s, s ∈ servers → s ∉ ["s2"].
Proof.
  intros meta servers.
  destruct (allocated_servers_are_fit init meta "c" 3 ["s2"]
              {| shuffle_draws := []; now := 0 |}
              (with_servers_keyed ["s1"; "s2"; "s3"; "s4"]) ltac:(lia))
    as (Hlen & Hnd & Hfit & _).
  split; [exact Hlen|]. split; [exact Hnd|].
  intros s Hs. by destruct (Hfit s Hs).
Defined.

(** ** Reallocation *)

Lemma append_longer (s suffix : string) : suffix ≠ EmptyString → s +:+ suffix ≠ s.
Proof.
  intros Hne Heq. apply (f_equal String.length) in Heq.
  assert (Hlen : ∀ a b : string,
            String.length (a +:+ b) = (String.length a + String.length b)%nat).
  { induction a as [|c a IH]; intros b; [done|].
    change (S (String.length (a +:+ b)) = S (String.length a + String.length b)).
    by rewrite IH. }
  rewrite Hlen in Heq. destruct suffix; [done|]. cbn in Heq. lia.
Qed.

(** X.  [reallocateChunk] of a recorded chunk that is short of
    locations picks the missing servers among those that are healthy,
    have room and do not hold the chunk, and appends them to the
    chunk's locations.  It also leaves a second chunk record behind,
    under the name [chunk_id + "_realloc"], placed on the new servers. *)
Theorem reallocateChunk_records_a_second_chunk (cfg : Config.t) (a : ChunkAllocator.t)
    (meta : MetadataManager.t) (chunk_id : string) (failed_servers : list string)
    (e : env) (chunk_metadata : ChunkMetadata.t) :
  keyed_by_id meta →
  getChunkMetadata meta chunk_id = Some chunk_metadata →
  let current := fold_left remove_location failed_servers
                   (ChunkMetadata.server_locations chunk_metadata) in
  let target := if ChunkMetadata.is_erasure_coded chunk_metadata then 1%Z
                else Config.replication_factor_ cfg in
  (Z.of_nat (length current) < target)%Z →
  let outcome := reallocateChunk cfg a meta chunk_id failed_servers e in
  let fresh := outcome.1.1 in
  NoDup fresh
  ∧ (Z.of_nat (length current + length fresh) ≤ target)%Z
  ∧ (∀ s, s ∈ fresh →
       (s ∉ current)
       ∧ ∃ sm, getServerMetadata meta s = Some sm
               ∧ ServerMetadata.is_healthy sm = true
               ∧ hasEnoughSpace sm Config.CHUNK_SIZE = true)
  ∧ ChunkMetadata.server_locations <$> getChunkMetadata outcome.2 chunk_id
    = Some (current ++ fresh)
  ∧ (fresh ≠ [] →
     ChunkMetadata.server_locations
       <$> getChunkMetadata outcome.2 (chunk_id +:+ "_realloc")
     = Some fresh).
Proof.
  intros Hkeyed Hchunk current target Hshort outcome fresh. subst fresh outcome.
  unfold reallocateChunk. rewrite Hchunk. fold current. fold target.
  destruct (Z.leb_spec (target - Z.of_nat (length current)) 0) as [|_]; [lia|].
  set (needed := (target - Z.of_nat (length current))%Z).
  assert (Hneeded : (0 ≤ needed)%Z) by (subst needed; lia).
  destruct (allocateServersForChunk_from a meta (chunk_id +:+ "_realloc") needed current e
              Hkeyed) as [Hlen Hin].
  specialize (Hlen Hneeded).
  pose proof (allocateServersForChunk_good a meta (chunk_id +:+ "_realloc") needed
                current e Hkeyed) as Hgood.
  pose proof (allocateServersForChunk_chunk a meta (chunk_id +:+ "_realloc") needed
                current e) as Hrec.
  destruct (allocateServersForChunk a meta (chunk_id +:+ "_realloc") needed current e)
    as [[fresh a'] meta1].
  cbn [fst snd] in *. destruct Hgood as [[Hnd _] _].
  split; [done|]. split; [subst needed; lia|]. split.
  { intros s Hs. by apply available_fit, Hin. }
  assert (Hname : chunk_id +:+ "_realloc" ≠ chunk_id) by by apply append_longer.
  assert (Hkept : chunks_ meta1 !! chunk_id = Some chunk_metadata).
  { case_bool_decide; [by subst meta1|]. by rewrite Hrec, lookup_insert_ne. }
  unfold updateChunkLocations. rewrite Hkept. cbn [snd].
  destruct (MetadataManagerProps.removeChunkFromAllServers_effect meta1 chunk_id)
    as (Hchunks1 & _).
  cbv zeta in Hchunks1.
  destruct (MetadataManagerProps.link_loop chunk_id (current ++ fresh)
              (set_chunks (removeChunkFromAllServers meta1 chunk_id)
                 (<[chunk_id := ChunkMetadata.with_server_locations chunk_metadata
                                  (current ++ fresh)]>
                    (chunks_ (removeChunkFromAllServers meta1 chunk_id)))))
    as (Hchunks2 & _).
  cbv zeta in Hchunks2. unfold getChunkMetadata. rewrite Hchunks2. cbn [set_chunks chunks_].
  rewrite Hchunks1. split.
  - by rewrite lookup_insert_eq.
  - intros Hfresh. rewrite lookup_insert_ne by done.
    rewrite bool_decide_eq_false_2 in Hrec by done.
    by rewrite Hrec, lookup_insert_eq.
Qed.

(** The theorem on a master with four servers: the chunk [c] has lost
    its copy on [s1], which is reported as corrupt; the new server is
    recorded for [c] and for [c_realloc]. *)
Lemma reallocateChunk_records_a_second_chunk_witness :
  let meta := MasterServer.metadata_manager_
                (MasterServer.with_servers ["s1"; "s2"; "s3"; "s4"]) in
  let placed := addChunk meta "c" (chunk_at "c" ["s1"; "s2"; "s3"]) in
  let outcome := reallocateChunk Config.default init placed "c" ["s1"]
                   {| shuffle_draws := []; now := 0 |} in
  ChunkMetadata.server_locations <$> getChunkMetadata outcome.2 "c"
  = Some (["s2"; "s3"] ++ outcome.1.1)
  ∧ (outcome.1.1 ≠ [] →
     ChunkMetadata.server_locations <$> getChunkMetadata outcome.2 "c_realloc"
     = Some outcome.1.1).
Proof.
  intros meta placed outcome.
  destruct (reallocateChunk_records_a_second_chunk Config.default init placed "c" ["s1"]
              {| shuffle_draws := []; now := 0 |} (chunk_at "c" ["s1"; "s2"; "s3"]))
    as (_ & _ & _ & Hlocations & Hsecond).
  - apply addChunk_keyed, with_servers_keyed.
  - unfold getChunkMetadata, placed, addChunk.
    destruct (MetadataManagerProps.link_loop "c" ["s1"; "s2"; "s3"]
                (set_chunks meta (<["c" := chunk_at "c" ["s1"; "s2"; "s3"]]> (chunks_ meta))))
      as (Hchunks & _).
    cbv zeta in Hchunks. cbn [ChunkMetadata.server_locations chunk_at] in Hchunks |- *.
    rewrite Hchunks. cbn. by rewrite lookup_insert_eq.
  - vm_compute. reflexivity.
  - split; [exact Hlocations | exact Hsecond].
Defined.

End SelectionProps.

(** * Properties of the handling of a failed server *)

Module FailureProps.
Import MetadataManager ChunkAllocator ChunkAllocatorProps Health SelectionProps.

Lemma same_servers_refl (servers : gmap string ServerMetadata.t) :
  same_servers servers servers.
Proof. intros k. destruct (servers !! k); by constructor. Qed.

Lemma same_servers_trans (s1 s2 s3 : gmap string ServerMetadata.t) :
  same_servers s1 s2 → same_servers s2 s3 → same_servers s1 s3.
Proof.
  intros H12 H23 k. specialize (H12 k). specialize (H23 k).
  destruct H12 as [sm1 sm2 (Hid & Hh & Hb & Ht & Hf)|];
    inversion H23 as [? sm3 (Hid' & Hh' & Hb' & Ht' & Hf')|]; subst; constructor.
  repeat split; congruence.
Qed.

Lemma same_servers_keyed (meta meta' : MetadataManager.t) :
  same_servers (servers_ meta) (servers_ meta') → keyed_by_id meta → keyed_by_id meta'.
Proof.
  intros Hsame Hkeyed k sm' Hk. specialize (Hsame k). rewrite Hk in Hsame.
  inversion Hsame as [sm ? (Hid & _) Hk0|]; subst. rewrite Hid. by apply Hkeyed.
Qed.

Lemma same_servers_down (meta meta' : MetadataManager.t) (s : string) :
  same_servers (servers_ meta) (servers_ meta') → down meta s → down meta' s.
Proof.
  intros Hsame Hdown sm' Hk. specialize (Hsame s). rewrite Hk in Hsame.
  inversion Hsame as [sm ? (_ & Hh & _) Hk0|]; subst. rewrite Hh. by apply Hdown.
Qed.

Lemma server_insert_chunk_same (servers : gmap string ServerMetadata.t) (s c : string) :
  same_servers servers (server_insert_chunk servers s c).
Proof.
  unfold server_insert_chunk. destruct (servers !! s) as [sm|] eqn:Hs;
    [|apply same_servers_refl].
  intros k. destruct (decide (k = s)) as [->|Hne].
  - rewrite lookup_insert_eq, Hs. by constructor.
  - rewrite lookup_insert_ne by done. apply same_servers_refl.
Qed.

Lemma server_erase_chunk_same (servers : gmap string ServerMetadata.t) (s c : string) :
  same_servers servers (server_erase_chunk servers s c).
Proof.
  unfold server_erase_chunk. destruct (servers !! s) as [sm|] eqn:Hs;
    [|apply same_servers_refl].
  intros k. destruct (decide (k = s)) as [->|Hne].
  - rewrite lookup_insert_eq, Hs. by constructor.
  - rewrite lookup_insert_ne by done. apply same_servers_refl.
Qed.

Lemma link_loop_same (c : string) (l : list string) (st : MetadataManager.t) :
  same_servers (servers_ st) (servers_ (fold_left (link c) l st)).
Proof.
  revert st. induction l as [|s l IH]; intros st; [apply same_servers_refl|].
  cbn [fold_left]. eapply same_servers_trans; [|apply IH].
  apply server_insert_chunk_same.
Qed.

Lemma unlink_server_loop_same (c : string) (l : list string) (st : MetadataManager.t) :
  same_servers (servers_ st) (servers_ (fold_left (unlink_server c) l st)).
Proof.
  revert st. induction l as [|s l IH]; intros st; [apply same_servers_refl|].
  cbn [fold_left]. eapply same_servers_trans; [|apply IH].
  apply server_erase_chunk_same.
Qed.

Lemma removeChunkFromAllServers_same (st : MetadataManager.t) (c : string) :
  same_servers (servers_ st) (servers_ (removeChunkFromAllServers st c)).
Proof.
  unfold removeChunkFromAllServers.
  destruct (chunk_to_servers_ st !! c) as [set|]; [|apply same_servers_refl].
  cbn. apply unlink_server_loop_same.
Qed.

Lemma addChunk_same (st : MetadataManager.t) (c : string) (m : ChunkMetadata.t) :
  same_servers (servers_ st) (servers_ (addChunk st c m)).
Proof. unfold addChunk. apply (link_loop_same c _ (set_chunks st _)). Qed.

Lemma updateChunkLocations_effect (st : MetadataManager.t) (c : string)
    (locations : list string) (cm : ChunkMetadata.t) :
  chunks_ st !! c = Some cm →
  chunks_ (updateChunkLocations st c locations).2
  = <[c := ChunkMetadata.with_server_locations cm locations]> (chunks_ st)
  ∧ same_servers (servers_ st) (servers_ (updateChunkLocations st c locations).2).
Proof.
  intros Hc. unfold updateChunkLocations. rewrite Hc. cbn [snd].
  destruct (MetadataManagerProps.removeChunkFromAllServers_effect st c) as (Hchunks1 & _).
  cbv zeta in Hchunks1.
  set (st2 := set_chunks (removeChunkFromAllServers st c)
                (<[c := ChunkMetadata.with_server_locations cm locations]>
                   (chunks_ (removeChunkFromAllServers st c)))).
  destruct (MetadataManagerProps.link_loop c locations st2) as (Hchunks2 & _).
  cbv zeta in Hchunks2. split.
  - rewrite Hchunks2. subst st2. cbn. by rewrite Hchunks1.
  - eapply same_servers_trans; [apply (removeChunkFromAllServers_same st c)|].
    apply (link_loop_same c locations st2).
Qed.

Lemma removeChunkFromServer_effect (st : MetadataManager.t) (c s : string) :
  same_servers (servers_ st) (servers_ (removeChunkFromServer st c s))
  ∧ ∀ c0, has_location (removeChunkFromServer st c s) c0 s = true →
          c0 ≠ c ∧ has_location st c0 s = true.
Proof.
  split; [apply server_erase_chunk_same|].
  intros c0. unfold has_location, removeChunkFromServer. cbn [chunks_].
  destruct (chunks_ st !! c) as [cm|] eqn:Hc.
  - destruct (decide (c0 = c)) as [->|Hne].
    + rewrite lookup_insert_eq. cbn. intros Hin. apply bool_decide_eq_true_1 in Hin.
      apply MetadataManagerProps.elem_of_remove_location in Hin. by destruct Hin.
    + by rewrite lookup_insert_ne.
  - intros Hin. split; [|done]. intros ->. by rewrite Hc in Hin.
Qed.

Lemma allocateServersForChunk_same (a : ChunkAllocator.t) (meta : MetadataManager.t)
    (chunk_id : string) (replication_factor : Z) (exclude_servers : list string)
    (e : env) :
  same_servers (servers_ meta)
    (servers_ (allocateServersForChunk a meta chunk_id replication_factor
                 exclude_servers e).2).
Proof.
  unfold allocateServersForChunk.
  destruct (match strategy_ a with
            | ROUND_ROBIN => _ | LEAST_LOADED => _ | RANDOM => _ | ZONE_AWARE => _
            end) as [allocated_servers a''].
  cbv zeta. destruct (decide (allocated_servers = [])) as [Hempty|Hempty].
  - rewrite (bool_decide_eq_true_2 (allocated_servers = [])) by done.
    apply same_servers_refl.
  - rewrite (bool_decide_eq_false_2 (allocated_servers = [])) by done.
    apply addChunk_same.
Qed.

(** A server without a healthy record is not among the available ones. *)
Lemma down_not_available (meta : MetadataManager.t) (exclude : list string) (s : string) :
  keyed_by_id meta → down meta s → s ∉ ids (getAvailableServers meta exclude).
Proof.
  intros Hkeyed Hdown Hin.
  destruct (available_fit meta exclude s Hkeyed Hin) as (_ & sm & Hsm & Hhealthy & _).
  unfold getServerMetadata in Hsm. apply Hdown in Hsm. congruence.
Qed.

(** [reallocateChunk] gives a server that is down no new location. *)
Lemma reallocateChunk_off_down_server (cfg : Config.t) (a : ChunkAllocator.t)
    (meta : MetadataManager.t) (c s : string) (e : env) :
  keyed_by_id meta → down meta s →
  let meta' := (reallocateChunk cfg a meta c [s] e).2 in
  same_servers (servers_ meta) (servers_ meta')
  ∧ ∀ c0, has_location meta' c0 s = true → has_location meta c0 s = true.
Proof.
  intros Hkeyed Hdown. unfold reallocateChunk, getChunkMetadata.
  destruct (chunks_ meta !! c) as [cm|] eqn:Hc; cbn [snd];
    [|split; [apply same_servers_refl | done]].
  cbn [fold_left].
  set (current := remove_location (ChunkMetadata.server_locations cm) s).
  set (needed := ((if ChunkMetadata.is_erasure_coded cm then 1
                   else Config.replication_factor_ cfg) - Z.of_nat (length current))%Z).
  assert (Hcurrent : s ∉ current).
  { subst current. rewrite MetadataManagerProps.elem_of_remove_location. by intros [_ ?]. }
  destruct (needed <=? 0)%Z; cbn [snd]; [split; [apply same_servers_refl | done]|].
  destruct (allocateServersForChunk_from a meta (c +:+ "_realloc") needed current e
              Hkeyed) as [_ Hin].
  pose proof (allocateServersForChunk_chunk a meta (c +:+ "_realloc") needed current e)
    as Hrec.
  pose proof (allocateServersForChunk_same a meta (c +:+ "_realloc") needed current e)
    as Hsame.
  destruct (allocateServersForChunk a meta (c +:+ "_realloc") needed current e)
    as [[fresh a'] meta1].
  cbn [fst snd] in *.
  assert (Hfresh : s ∉ fresh).
  { intros Hs. by apply (down_not_available meta current s Hkeyed Hdown), Hin. }
  assert (Hname : c +:+ "_realloc" ≠ c) by by apply append_longer.
  assert (Hkept : chunks_ meta1 !! c = Some cm).
  { case_bool_decide; [by subst meta1|]. by rewrite Hrec, lookup_insert_ne. }
  destruct (updateChunkLocations_effect meta1 c (current ++ fresh) cm Hkept)
    as [Hchunks Hsame'].
  split; [by eapply same_servers_trans|].
  intros c0. unfold has_location. rewrite Hchunks.
  destruct (decide (c0 = c)) as [->|Hne].
  { rewrite lookup_insert_eq. cbn. intros Hloc. apply bool_decide_eq_true_1 in Hloc.
    apply elem_of_app in Hloc as [?|?]; done. }
  rewrite lookup_insert_ne by done.
  case_bool_decide; [by subst meta1|]. rewrite Hrec.
  destruct (decide (c0 = c +:+ "_realloc")) as [->|Hne'].
  { rewrite lookup_insert_eq. cbn. intros Hloc. by apply bool_decide_eq_true_1 in Hloc. }
  by rewrite lookup_insert_ne.
Qed.

Lemma servers_marked_same (off : string → bool)
    (s1 s2 s3 : gmap string ServerMetadata.t) :
  servers_marked off s1 s2 → same_servers s2 s3 → servers_marked off s1 s3.
Proof.
  intros H12 H23 k. specialize (H12 k). specialize (H23 k).
  destruct H12 as [sm1 sm2 (Hid & Hh & Hb)|];
    inversion H23 as [? sm3 (Hid' & Hh' & Hb' & _)|]; subst; constructor.
  split; [congruence|]. split; congruence.
Qed.

Lemma servers_marked_trans (off off' : string → bool)
    (s1 s2 s3 : gmap string ServerMetadata.t) :
  servers_marked off s1 s2 → servers_marked off' s2 s3 →
  servers_marked (fun k => off k || off' k) s1 s3.
Proof.
  intros H12 H23 k. specialize (H12 k). specialize (H23 k).
  destruct H12 as [sm1 sm2 (Hid & Hh & Hb)|]; inversion H23 as [? sm3 (Hid' & Hh' & Hb')|];
    subst; constructor.
  split; [congruence|]. split; [|congruence].
  rewrite Hh', Hh, negb_orb. by rewrite andb_assoc.
Qed.

Lemma servers_marked_keyed (off : string → bool) (meta meta' : MetadataManager.t) :
  servers_marked off (servers_ meta) (servers_ meta') →
  keyed_by_id meta → keyed_by_id meta'.
Proof.
  intros Hsame Hkeyed k sm' Hk. specialize (Hsame k). rewrite Hk in Hsame.
  inversion Hsame as [sm ? (Hid & _) Hk0|]; subst. rewrite Hid. by apply Hkeyed.
Qed.

Section Failure.
Import MasterServer.
Variable cfg : Config.t.

(** One turn of the loops of [handleServerFailure] and
    [ReportChunkCorruption]. *)
Lemma replace_server_step (st : MasterServer.t) (c s : string)
    (target_replicas : ChunkMetadata.t → Z) (e : env) :
  keyed_by_id (metadata_manager_ st) → down (metadata_manager_ st) s →
  let st' := replace_server cfg st c s target_replicas e in
  same_servers (servers_ (metadata_manager_ st)) (servers_ (metadata_manager_ st'))
  ∧ ∀ c0, has_location (metadata_manager_ st') c0 s = true →
          c0 ≠ c ∧ has_location (metadata_manager_ st) c0 s = true.
Proof.
  intros Hkeyed Hdown. unfold replace_server.
  destruct (removeChunkFromServer_effect (metadata_manager_ st) c s) as [Hsame Hoff].
  set (meta1 := removeChunkFromServer (metadata_manager_ st) c s) in *.
  assert (Hkeyed1 : keyed_by_id meta1) by by eapply same_servers_keyed.
  assert (Hdown1 : down meta1 s) by by eapply same_servers_down.
  cbv zeta. destruct (getChunkMetadata meta1 c) as [metadata|]; [|by split].
  destruct (_ <? _)%Z; [|by split].
  destruct (reallocateChunk_off_down_server cfg (chunk_allocator_ (set_metadata st meta1))
              meta1 c s e Hkeyed1 Hdown1) as [Hsame' Hkeep].
  cbv zeta in Hsame', Hkeep.
  destruct (reallocateChunk cfg (chunk_allocator_ (set_metadata st meta1)) meta1 c [s] e)
    as [[new_servers a'] meta2].
  cbn [snd metadata_manager_] in *.
  split; [by eapply same_servers_trans|]. intros c0 Hloc. by apply Hoff, Hkeep.
Qed.

Lemma markServerUnhealthy_effect (meta : MetadataManager.t) (s : string) :
  let meta' := markServerUnhealthy meta s in
  servers_marked (fun k => bool_decide (k = s)) (servers_ meta) (servers_ meta')
  ∧ down meta' s
  ∧ chunks_ meta' = chunks_ meta
  ∧ server_to_chunks_ meta' = server_to_chunks_ meta.
Proof.
  assert (Hrefl : ∀ servers : gmap string ServerMetadata.t,
            servers !! s = None →
            servers_marked (fun k => bool_decide (k = s)) servers servers).
  { intros servers Hs k. destruct (decide (k = s)) as [->|Hne].
    - rewrite Hs. constructor.
    - rewrite bool_decide_eq_false_2 by done.
      destruct (servers !! k); constructor.
      split; [done|]. split; [|done]. cbn. by rewrite andb_true_r. }
  unfold markServerUnhealthy. destruct (servers_ meta !! s) as [sm|] eqn:Hs; cbn.
  - split; [|split; [|done]].
    + intros k. destruct (decide (k = s)) as [->|Hne].
      * rewrite lookup_insert_eq, Hs, bool_decide_eq_true_2 by done. constructor.
        split; [done|]. split; [|done]. cbn. by rewrite andb_false_r.
      * rewrite lookup_insert_ne, bool_decide_eq_false_2 by done.
        destruct (servers_ meta !! k); constructor.
        split; [done|]. split; [|done]. cbn. by rewrite andb_true_r.
    + intros sm'. cbn. rewrite lookup_insert_eq. by intros [= <-].
  - split; [by apply Hrefl|]. split; [|done]. intros sm'. by rewrite Hs.
Qed.

(** The loop of [handleServerFailure] over the chunks [chunks]. *)
Lemma failure_loop (s : string) (envs : nat → env) (chunks : list string)
    (st : MasterServer.t) (n : nat) :
  keyed_by_id (metadata_manager_ st) → down (metadata_manager_ st) s →
  let st' :=
    (fold_left
       (fun (acc : MasterServer.t * nat) chunk_id =>
          (replace_server cfg acc.1 chunk_id s
             (fun metadata => if ChunkMetadata.is_erasure_coded metadata then 1%Z
                              else Config.replication_factor_ cfg)
             (envs acc.2),
           S acc.2))
       chunks (st, n)).1 in
  same_servers (servers_ (metadata_manager_ st)) (servers_ (metadata_manager_ st'))
  ∧ ∀ c0, has_location (metadata_manager_ st') c0 s = true →
          (c0 ∉ chunks) ∧ has_location (metadata_manager_ st) c0 s = true.
Proof.
  revert st n. induction chunks as [|c chunks IH]; intros st n Hkeyed Hdown.
  { cbn. split; [apply same_servers_refl|]. intros c0 Hloc. split; [|done].
    apply not_elem_of_nil. }
  cbn [fold_left fst snd].
  destruct (replace_server_step st c s
              (fun metadata => if ChunkMetadata.is_erasure_coded metadata then 1%Z
                               else Config.replication_factor_ cfg)
              (envs n) Hkeyed Hdown) as [Hsame Hoff].
  cbv zeta in Hsame, Hoff.
  set (st1 := replace_server cfg st c s _ (envs n)) in *.
  destruct (IH st1 (S n)) as (Hsame' & Hrest).
  { by eapply same_servers_keyed. }
  { by eapply same_servers_down. }
  split; [by eapply same_servers_trans|]. intros c0 Hloc.
  destruct (Hrest c0 Hloc) as [Hnot Hloc1]. destruct (Hoff c0 Hloc1) as [Hne Hloc0].
  split; [|done]. rewrite not_elem_of_cons. by split.
Qed.

(** [handleServerFailure] on the server table: the failed server is
    marked, the other records keep their standing. *)
Lemma handleServerFailure_servers (st : MasterServer.t) (s : string) (envs : nat → env) :
  keyed_by_id (metadata_manager_ st) →
  let meta' := metadata_manager_ (handleServerFailure cfg st s envs) in
  servers_marked (fun k => bool_decide (k = s))
    (servers_ (metadata_manager_ st)) (servers_ meta')
  ∧ keyed_by_id meta' ∧ down meta' s.
Proof.
  intros Hkeyed. unfold handleServerFailure.
  destruct (markServerUnhealthy_effect (metadata_manager_ st) s)
    as (Hmarked & Hdown1 & _).
  cbv zeta in Hmarked, Hdown1.
  set (meta1 := markServerUnhealthy (metadata_manager_ st) s) in *.
  assert (Hkeyed1 : keyed_by_id meta1) by by eapply servers_marked_keyed.
  destruct (failure_loop s envs (getChunksForServer meta1 s)
              (set_metadata st meta1) 0 Hkeyed1 Hdown1) as (Hsame & _).
  cbv zeta in Hsame. cbv zeta.
  set (st' := (fold_left _ (getChunksForServer meta1 s) (set_metadata st meta1, 0%nat)).1)
    in *.
  cbn [set_metadata metadata_manager_] in Hsame.
  split; [by eapply servers_marked_same|].
  split; [by eapply same_servers_keyed | by eapply same_servers_down].
Qed.

(** [handleServerFailure] on the chunk table. *)
Lemma handleServerFailure_locations (st : MasterServer.t) (s : string) (envs : nat → env) :
  keyed_by_id (metadata_manager_ st) → sides_agree (metadata_manager_ st) →
  ∀ c, has_location (metadata_manager_ (handleServerFailure cfg st s envs)) c s = false.
Proof.
  intros Hkeyed Hagree c. unfold handleServerFailure.
  destruct (markServerUnhealthy_effect (metadata_manager_ st) s)
    as (Hmarked & Hdown1 & Hchunks & Hindex).
  cbv zeta in Hmarked, Hdown1, Hchunks, Hindex.
  set (meta1 := markServerUnhealthy (metadata_manager_ st) s) in *.
  assert (Hkeyed1 : keyed_by_id meta1) by by eapply servers_marked_keyed.
  destruct (failure_loop s envs (getChunksForServer meta1 s)
              (set_metadata st meta1) 0 Hkeyed1 Hdown1) as (_ & Hoff).
  cbv zeta in Hoff. cbv zeta.
  set (st' := (fold_left _ (getChunksForServer meta1 s) (set_metadata st meta1, 0%nat)).1)
    in *.
  destruct (has_location (metadata_manager_ st') c s) eqn:Hloc; [|done].
  destruct (Hoff c Hloc) as [Hnot Hloc1]. exfalso. apply Hnot.
  cbn [set_metadata metadata_manager_] in Hloc1.
  assert (Hloc0 : has_location (metadata_manager_ st) c s = true).
  { unfold has_location in *. by rewrite <- Hchunks. }
  destruct (Hagree c s) as [H1 H2]. rewrite H1, H2 in Hloc0.
  apply andb_true_iff in Hloc0 as [_ Hidx].
  unfold in_server_index, index_in in Hidx. apply bool_decide_eq_true_1 in Hidx.
  unfold getChunksForServer. rewrite Hindex.
  destruct (server_to_chunks_ (metadata_manager_ st) !! s) as [set|];
    cbn in Hidx; [by apply elem_of_elements | by apply elem_of_empty in Hidx].
Qed.

(** X.  After [handleServerFailure], on a master whose tables agree, the
    failed server is marked unhealthy, no chunk lists it as a location any
    more, although new servers were recorded for the chunks that fell
    short, and no later allocation returns it. *)
Theorem failed_server_holds_no_chunk (st : MasterServer.t) (server_id : string)
    (envs : nat → env) :
  keyed_by_id (metadata_manager_ st) → sides_agree (metadata_manager_ st) →
  let meta' := metadata_manager_ (handleServerFailure cfg st server_id envs) in
  (∀ sm, getServerMetadata meta' server_id = Some sm →
         ServerMetadata.is_healthy sm = false)
  ∧ (∀ chunk_id, has_location meta' chunk_id server_id = false)
  ∧ (∀ a chunk_id replication_factor exclude_servers e,
       server_id ∉ (allocateServersForChunk a meta' chunk_id replication_factor
                      exclude_servers e).1.1).
Proof.
  intros Hkeyed Hagree.
  destruct (handleServerFailure_servers st server_id envs Hkeyed)
    as (_ & Hkeyed' & Hdown').
  cbv zeta in Hkeyed', Hdown'. cbv zeta.
  split; [exact Hdown'|]. split; [by apply handleServerFailure_locations|].
  intros a chunk_id rf exclude e Hin.
  destruct (allocateServersForChunk_from a _ chunk_id rf exclude e Hkeyed') as [_ Hfrom].
  by apply (down_not_available _ exclude server_id Hkeyed' Hdown'), Hfrom.
Qed.

(** X.  When the failed server sends a heartbeat again, it is healthy
    again and its record lists the chunks it reports, but the chunks do
    not get it back as a location: for the master the copies on the
    recovered server stay lost. *)
Theorem recovered_server_gets_no_chunk_back (st : MasterServer.t)
    (request : HeartbeatRequest) (envs : nat → env) (time : Z) :
  keyed_by_id (metadata_manager_ st) → sides_agree (metadata_manager_ st) →
  registered (metadata_manager_ st) (hb_server_id request) →
  let failed := handleServerFailure cfg st (hb_server_id request) envs in
  let outcome := SendHeartbeat failed request time in
  let meta' := metadata_manager_ outcome.2 in
  hb_success outcome.1 = true
  ∧ (∃ sm, getServerMetadata meta' (hb_server_id request) = Some sm
           ∧ ServerMetadata.is_healthy sm = true
           ∧ ServerMetadata.stored_chunks sm = list_to_set (hb_stored_chunks request))
  ∧ (∀ chunk_id, has_location meta' chunk_id (hb_server_id request) = false).
Proof.
  intros Hkeyed Hagree [sm0 Hreg].
  destruct (handleServerFailure_servers st (hb_server_id request) envs Hkeyed)
    as (Hmarked & _).
  pose proof (handleServerFailure_locations st (hb_server_id request) envs Hkeyed Hagree)
    as Hoff.
  cbv zeta in Hmarked. cbv zeta.
  set (failed := handleServerFailure cfg st (hb_server_id request) envs) in *.
  specialize (Hmarked (hb_server_id request)). rewrite Hreg in Hmarked.
  inversion Hmarked as [? sm1 _ Heq Hfailed|]; subst. symmetry in Hfailed.
  unfold SendHeartbeat, getServerMetadata, updateServerMetadata. rewrite Hfailed.
  cbn [fst snd hb_success set_metadata metadata_manager_ set_servers servers_].
  split; [done|]. split.
  - eexists. rewrite lookup_insert_eq. split; [done|]. by split.
  - intros c. exact (Hoff c).
Qed.

Section Sweep.
Variables (heartbeat_timeout current_time : Z).

Lemma servers_marked_ext (off off' : string → bool)
    (s1 s2 : gmap string ServerMetadata.t) :
  (∀ k, off k = off' k) → servers_marked off s1 s2 → servers_marked off' s1 s2.
Proof. intros Hext Hmarked k. rewrite <- Hext. apply Hmarked. Qed.

Lemma sweep_loop (envs : nat → nat → env) (servers : list ServerMetadata.t)
    (st : MasterServer.t) (n : nat) :
  keyed_by_id (metadata_manager_ st) →
  let st' :=
    (fold_left
       (fun (acc : MasterServer.t * nat) server =>
          (if ServerMetadata.is_healthy server
              && (heartbeat_timeout
                  <? current_time - ServerMetadata.last_heartbeat server)%Z
           then handleServerFailure cfg acc.1 (ServerMetadata.server_id server)
                  (envs acc.2)
           else acc.1,
           S acc.2))
       servers (st, n)).1 in
  servers_marked
    (fun k => existsb (fun server =>
                         bool_decide (k = ServerMetadata.server_id server)
                         && silent heartbeat_timeout current_time server) servers)
    (servers_ (metadata_manager_ st)) (servers_ (metadata_manager_ st')).
Proof.
  revert st n. induction servers as [|server servers IH]; intros st n Hkeyed.
  { cbn. intros k. destruct (servers_ (metadata_manager_ st) !! k); constructor.
    split; [done|]. split; [|done]. cbn. by rewrite andb_true_r. }
  cbn [fold_left fst snd existsb].
  change (ServerMetadata.is_healthy server
          && (heartbeat_timeout <? current_time - ServerMetadata.last_heartbeat server)%Z)
    with (silent heartbeat_timeout current_time server).
  set (st1 := if silent heartbeat_timeout current_time server
              then handleServerFailure cfg st (ServerMetadata.server_id server) (envs n)
              else st).
  assert (Hstep : servers_marked
            (fun k => bool_decide (k = ServerMetadata.server_id server)
                      && silent heartbeat_timeout current_time server)
            (servers_ (metadata_manager_ st)) (servers_ (metadata_manager_ st1))
          ∧ keyed_by_id (metadata_manager_ st1)).
  { subst st1. destruct (silent heartbeat_timeout current_time server).
    - destruct (handleServerFailure_servers st (ServerMetadata.server_id server) (envs n)
                  Hkeyed) as (Hmarked & Hkeyed' & _).
      split; [|done]. eapply servers_marked_ext; [|exact Hmarked].
      intros k. by rewrite andb_true_r.
    - split; [|done]. intros k. rewrite andb_false_r.
      destruct (servers_ (metadata_manager_ st) !! k); constructor.
      split; [done|]. split; [|done]. cbn. by rewrite andb_true_r. }
  destruct Hstep as [Hstep Hkeyed1].
  exact (servers_marked_trans _ _ _ _ _ Hstep (IH st1 (S n) Hkeyed1)).
Qed.

(** X.  One sweep of [monitorHeartbeats] marks exactly the silent
    servers: afterwards a server is healthy if and only if it was healthy
    and its last heartbeat is at most [heartbeat_timeout] old; no record
    is added or dropped, and no heartbeat time is changed. *)
Theorem sweep_marks_the_silent_servers (st : MasterServer.t)
    (envs : nat → nat → env) (server_id : string) :
  keyed_by_id (metadata_manager_ st) →
  let meta' := metadata_manager_
                 (monitorHeartbeats cfg heartbeat_timeout st current_time envs) in
  match getServerMetadata (metadata_manager_ st) server_id with
  | None => getServerMetadata meta' server_id = None
  | Some sm =>
      ∃ sm', getServerMetadata meta' server_id = Some sm'
             ∧ ServerMetadata.is_healthy sm'
               = ServerMetadata.is_healthy sm
                 && negb (heartbeat_timeout
                          <? current_time - ServerMetadata.last_heartbeat sm)%Z
             ∧ ServerMetadata.last_heartbeat sm' = ServerMetadata.last_heartbeat sm
  end.
Proof.
  intros Hkeyed. cbv zeta. unfold monitorHeartbeats, getServerMetadata.
  pose proof (sweep_loop envs (getAllServers (metadata_manager_ st)) st 0 Hkeyed
                server_id) as Hmarked.
  cbv zeta in Hmarked.
  destruct (servers_ (metadata_manager_ st) !! server_id) as [sm|] eqn:Hsm;
    inversion Hmarked as [? sm' (_ & Hhealth & Hbeat) Heq Hsm'|]; subst; [|done].
  exists sm'. split; [done|]. split; [|done]. rewrite Hhealth.
  assert (Hsilent :
    existsb (fun server => bool_decide (server_id = ServerMetadata.server_id server)
                           && silent heartbeat_timeout current_time server)
            (getAllServers (metadata_manager_ st))
    = silent heartbeat_timeout current_time sm).
  { apply eq_true_iff_eq. rewrite existsb_exists. split.
    - intros (server & Hin & Htest). apply andb_true_iff in Htest as [Hid Hsilent].
      apply bool_decide_eq_true_1 in Hid. unfold getAllServers in Hin.
      apply in_map_iff in Hin as ([k server'] & Hsnd & Hin). cbn in Hsnd. subst server'.
      apply list_elem_of_In, elem_of_map_to_list in Hin.
      pose proof (Hkeyed k server Hin) as Hk. subst k. rewrite <- Hid in Hin.
      congruence.
    - intros Hsilent. exists sm. split.
      + unfold getAllServers. apply in_map_iff. exists (server_id, sm). split; [done|].
        by apply list_elem_of_In, elem_of_map_to_list.
      + rewrite Hsilent, andb_true_r. apply bool_decide_eq_true_2.
        symmetry. by apply Hkeyed. }
  rewrite Hsilent. unfold Health.silent. by destruct (ServerMetadata.is_healthy sm).
Qed.

End Sweep.

End Failure.

Lemma one_server_keyed : keyed_by_id one_server.
Proof.
  intros k sm. unfold one_server, registerServer. cbn.
  destruct (decide (k = "s1")) as [->|Hne].
  - rewrite lookup_insert_eq. by intros [= <-].
  - rewrite lookup_insert_ne by done. intros Hk. by apply lookup_empty_Some in Hk.
Qed.

(** The theorem on a master with the one server [s1], which holds the
    chunk [c], when [s1] fails. *)
Lemma failed_server_holds_no_chunk_witness :
  let st := {| MasterServer.metadata_manager_ :=
                 addChunk one_server "c" (chunk_at "c" ["s1"]);
               MasterServer.chunk_allocator_ := ChunkAllocator.init;
               MasterServer.keys_ := ∅ |} in
  let meta' := MasterServer.metadata_manager_
                 (MasterServer.handleServerFailure Config.default st "s1"
                    (fun _ => {| shuffle_draws := []; now := 0 |})) in
  has_location (MasterServer.metadata_manager_ st) "c" "s1" = true
  ∧ has_location meta' "c" "s1" = false.
Proof.
  intros st meta'. split; [vm_compute; reflexivity|].
  destruct (failed_server_holds_no_chunk Config.default st "s1"
              (fun _ => {| shuffle_draws := []; now := 0 |}))
    as (_ & Hoff & _).
  - apply addChunk_keyed, one_server_keyed.
  - apply MetadataManagerProps.addChunk_keeps_agreement.
    + apply MetadataManagerProps.sides_agree_one_server.
    + reflexivity.
    + intros s Hs. apply list_elem_of_singleton in Hs as ->. by eexists.
  - exact (Hoff "c").
Defined.

(** The theorem on the same master, when [s1] reports the chunk [c] in
    its next heartbeat. *)
Lemma recovered_server_gets_no_chunk_back_witness :
  let st := {| MasterServer.metadata_manager_ :=
                 addChunk one_server "c" (chunk_at "c" ["s1"]);
               MasterServer.chunk_allocator_ := ChunkAllocator.init;
               MasterServer.keys_ := ∅ |} in
  let request := {| MasterServer.hb_server_id := "s1";
                    MasterServer.hb_free_space := 1000000000;
                    MasterServer.hb_chunk_count := 1;
                    MasterServer.hb_cpu_usage := 0.0%float;
                    MasterServer.hb_memory_usage := 0.0%float;
                    MasterServer.hb_stored_chunks := ["c"] |} in
  let failed := MasterServer.handleServerFailure Config.default st "s1"
                  (fun _ => {| shuffle_draws := []; now := 0 |}) in
  let outcome := MasterServer.SendHeartbeat failed request 1000 in
  let meta' := MasterServer.metadata_manager_ outcome.2 in
  MasterServer.hb_success outcome.1 = true
  ∧ (∃ sm, getServerMetadata meta' "s1" = Some sm
           ∧ ServerMetadata.is_healthy sm = true
           ∧ ServerMetadata.stored_chunks sm = list_to_set ["c"])
  ∧ (∀ chunk_id, has_location meta' chunk_id "s1" = false).
Proof.
  intros st request failed outcome meta'.
  apply (recovered_server_gets_no_chunk_back Config.default st request
           (fun _ => {| shuffle_draws := []; now := 0 |}) 1000).
  - apply addChunk_keyed, one_server_keyed.
  - apply MetadataManagerProps.addChunk_keeps_agreement.
    + apply MetadataManagerProps.sides_agree_one_server.
    + reflexivity.
    + intros s Hs. apply list_elem_of_singleton in Hs as ->. by eexists.
  - unfold registered. vm_compute. eexists. reflexivity.
Defined.

(** The theorem on a master with two servers that registered at time 0,
    swept at time 100000 with a timeout of 30000. *)
Lemma sweep_marks_the_silent_servers_witness :
  let st := MasterServer.with_servers ["s1"; "s2"] in
  let meta' := MasterServer.metadata_manager_
                 (MasterServer.monitorHeartbeats Config.default 30000 st 100000
                    (fun _ _ => {| shuffle_draws := []; now := 0 |})) in
  match getServerMetadata (MasterServer.metadata_manager_ st) "s1" with
  | None => getServerMetadata meta' "s1" = None
  | Some sm =>
      ∃ sm', getServerMetadata meta' "s1" = Some sm'
             ∧ ServerMetadata.is_healthy sm'
               = ServerMetadata.is_healthy sm
                 && negb (30000 <? 100000 - ServerMetadata.last_heartbeat sm)%Z
             ∧ ServerMetadata.last_heartbeat sm' = ServerMetadata.last_heartbeat sm
  end.
Proof.
  intros st meta'.
  exact (sweep_marks_the_silent_servers Config.default 30000 100000 st
           (fun _ _ => {| shuffle_draws := []; now := 0 |}) "s1"
           (with_servers_keyed ["s1"; "s2"])).
Defined.

End FailureProps.

(** * Properties of a corruption report *)

Module ReportProps.
Import MetadataManager ChunkAllocator ChunkAllocatorProps Health SelectionProps
       FailureProps.

(** ** Allocation finds a server when there is one *)

Lemma round_robin_loop_finds (count : nat) (available : list ServerMetadata.t) (rr : nat) :
  (0 < count)%nat → available ≠ [] → (round_robin_loop count available rr).1 ≠ [].
Proof.
  intros Hcount Hne. destruct count as [|count]; [lia|].
  by rewrite round_robin_loop_step.
Qed.

Lemma take_ids_finds (n : nat) (l : list ServerMetadata.t) :
  (0 < n)%nat → l ≠ [] → map ServerMetadata.server_id (take n l) ≠ [].
Proof. intros Hn Hne. destruct n; [lia|]. by destruct l. Qed.

Lemma zone_first_pass_extends (a : ChunkAllocator.t) (count : Z)
    (available : list ServerMetadata.t) (result : list string) (used_zones : gset string) :
  ∃ more, zone_first_pass a count available result used_zones = result ++ more.
Proof.
  revert result used_zones. induction available as [|server rest IH];
    intros result used_zones; cbn [zone_first_pass].
  { exists []. by rewrite app_nil_r. }
  destruct (zone_quota_reached _ _); [exists []; by rewrite app_nil_r|].
  case_bool_decide; [apply IH|].
  destruct (IH (result ++ [ServerMetadata.server_id server])
               ({[getServerZone a (ServerMetadata.server_id server)]} ∪ used_zones))
    as [more ->].
  exists (ServerMetadata.server_id server :: more). by rewrite <- app_assoc.
Qed.

Lemma allocateZoneAware_finds (a : ChunkAllocator.t) (meta : MetadataManager.t)
    (count : Z) (exclude : list string) :
  (1 ≤ count)%Z → getAvailableServers meta exclude ≠ [] →
  allocateZoneAware a meta count exclude ≠ [].
Proof.
  intros Hcount Hne. unfold allocateZoneAware.
  assert (Hfirst : zone_first_pass a count (getAvailableServers meta exclude) [] ∅ ≠ []).
  { destruct (getAvailableServers meta exclude) as [|server rest]; [done|].
    cbn [zone_first_pass]. unfold zone_quota_reached at 1. cbn [length].
    destruct (Z.leb_spec count (Z.of_nat 0)) as [|_]; [lia|]. rewrite andb_false_r.
    rewrite bool_decide_eq_false_2 by set_solver.
    destruct (zone_first_pass_extends a count rest
                ([] ++ [ServerMetadata.server_id server])
                ({[getServerZone a (ServerMetadata.server_id server)]} ∪ ∅))
      as [more ->].
    done. }
  destruct (negb _); [|done].
  intros Heq. apply app_eq_nil in Heq as [Heq _]. done.
Qed.

Lemma allocateServersForChunk_finds (a : ChunkAllocator.t) (meta : MetadataManager.t)
    (chunk_id : string) (replication_factor : Z) (exclude_servers : list string)
    (e : env) :
  (1 ≤ replication_factor)%Z → getAvailableServers meta exclude_servers ≠ [] →
  (allocateServersForChunk a meta chunk_id replication_factor exclude_servers e).1.1 ≠ [].
Proof.
  intros Hcount Hne. unfold allocateServersForChunk.
  assert (Hfound :
    (match strategy_ a with
     | ROUND_ROBIN => allocateRoundRobin a meta replication_factor exclude_servers
     | LEAST_LOADED =>
         (allocateLeastLoaded meta replication_factor exclude_servers, a)
     | RANDOM =>
         (allocateRandom meta replication_factor exclude_servers (shuffle_draws e), a)
     | ZONE_AWARE =>
         (allocateZoneAware a meta replication_factor exclude_servers, a)
     end).1 ≠ []).
  { assert (Hn : (0 < Z.to_nat replication_factor)%nat) by lia.
    destruct (strategy_ a); cbn [fst].
    - unfold allocateRoundRobin.
      pose proof (round_robin_loop_finds (Z.to_nat replication_factor)
                    (getAvailableServers meta exclude_servers) (round_robin_index_ a)
                    Hn Hne) as Hrr.
      by destruct (round_robin_loop _ _ _).
    - unfold allocateLeastLoaded. apply take_ids_finds; [done|].
      intros Heq. apply Hne, Permutation_nil_r.
      rewrite <- Heq. symmetry. apply sort_by_load_perm.
    - unfold allocateRandom. apply take_ids_finds; [done|].
      intros Heq. apply Hne, Permutation_nil_r.
      rewrite <- Heq. symmetry. apply shuffle_perm.
    - by apply allocateZoneAware_finds. }
  destruct (match strategy_ a with
            | ROUND_ROBIN => _ | LEAST_LOADED => _ | RANDOM => _ | ZONE_AWARE => _
            end) as [allocated_servers a''].
  cbn [fst] in Hfound. cbv zeta.
  by rewrite (bool_decide_eq_false_2 (allocated_servers = [])).
Qed.

(** X.  [allocateServersForChunk], asked for at least one server,
    comes back empty-handed exactly when no server is available: none
    that is healthy, not excluded and with room for a chunk. *)
Theorem allocation_fails_only_without_servers (a : ChunkAllocator.t)
    (meta : MetadataManager.t) (chunk_id : string) (replication_factor : Z)
    (exclude_servers : list string) (e : env) :
  keyed_by_id meta → (1 ≤ replication_factor)%Z →
  (allocateServersForChunk a meta chunk_id replication_factor exclude_servers e).1.1 = []
  ↔ getAvailableServers meta exclude_servers = [].
Proof.
  intros Hkeyed Hcount. split.
  - intros Hempty. destruct (decide (getAvailableServers meta exclude_servers = []));
      [done|].
    by destruct (allocateServersForChunk_finds a meta chunk_id replication_factor
                   exclude_servers e Hcount).
  - intros Hnone.
    destruct (allocateServersForChunk_from a meta chunk_id replication_factor
                exclude_servers e Hkeyed) as [_ Hin].
    cbv zeta in Hin. rewrite Hnone in Hin.
    destruct (allocateServersForChunk a meta chunk_id replication_factor
                exclude_servers e).1.1 as [|s l]; [done|].
    specialize (Hin s ltac:(left)). by apply elem_of_nil in Hin.
Qed.

Lemma allocation_fails_only_without_servers_witness :
  let meta := MasterServer.metadata_manager_ (MasterServer.with_servers ["s1"; "s2"]) in
  (allocateServersForChunk init meta "c" 3 [] {| shuffle_draws := []; now := 0 |}).1.1 = []
  ↔ getAvailableServers meta [] = [].
Proof.
  intros meta.
  apply (allocation_fails_only_without_servers init meta "c" 3 []
           {| shuffle_draws := []; now := 0 |} (with_servers_keyed ["s1"; "s2"])).
  lia.
Defined.

(** ** The reported server as its own replacement *)

Lemma remove_location_shorter (locations : list string) (s : string) :
  s ∈ locations → (length (remove_location locations s) < length locations)%nat.
Proof.
  unfold remove_location. induction locations as [|x l IH]; intros Hin.
  { by apply elem_of_nil in Hin. }
  cbn [List.filter]. destruct (decide (x = s)) as [->|Hne].
  - rewrite bool_decide_eq_true_2 by done. cbn [negb length].
    pose proof (filter_length_le (fun s0 => negb (bool_decide (s0 = s))) l). lia.
  - rewrite bool_decide_eq_false_2 by done. cbn [negb length].
    apply elem_of_cons in Hin as [->|Hin]; [done|]. specialize (IH Hin). lia.
Qed.

Lemma remove_location_twice (locations : list string) (s : string) :
  remove_location (remove_location locations s) s = remove_location locations s.
Proof.
  unfold remove_location. induction locations as [|x l IH]; [done|].
  cbn [List.filter]. destruct (negb (bool_decide (x = s))) eqn:Hx; [|done].
  cbn [List.filter]. by rewrite Hx, IH.
Qed.

Lemma available_intro (meta : MetadataManager.t) (exclude : list string) (k : string)
    (sm : ServerMetadata.t) :
  servers_ meta !! k = Some sm → ServerMetadata.is_healthy sm = true →
  hasEnoughSpace sm Config.CHUNK_SIZE = true → ServerMetadata.server_id sm ∉ exclude →
  sm ∈ getAvailableServers meta exclude.
Proof.
  intros Hk Hhealthy Hspace Hex. unfold getAvailableServers, getHealthyServers.
  apply list_elem_of_In, filter_In. split.
  - apply filter_In. split; [|done]. apply in_map_iff. exists (k, sm). split; [done|].
    by apply list_elem_of_In, elem_of_map_to_list.
  - rewrite Hspace, bool_decide_eq_false_2 by done. done.
Qed.

Lemma only_one (l : list string) (s : string) :
  NoDup l → l ≠ [] → (∀ x, x ∈ l → x = s) → l = [s].
Proof.
  intros Hnd Hne Hall. destruct l as [|x l]; [done|].
  rewrite (Hall x) by left. f_equal. destruct l as [|y l]; [done|].
  apply NoDup_cons in Hnd as [Hx _]. exfalso. apply Hx.
  rewrite (Hall x), (Hall y); [left | right; left | left].
Qed.

Section Report.
Import MasterServer.
Variable cfg : Config.t.

(** X.  [ReportChunkCorruption] does not keep the reported server away
    from the chunk: when the chunk has no more locations than the
    replication factor, the reported server is healthy with room, and
    every available server holds the chunk already, the report ends with
    the chunk recorded on the reported server again, now as the last of
    its locations.  (For a chunk that is not erasure coded.) *)
Theorem reported_server_is_chosen_again (st : MasterServer.t)
    (chunk_id server_id : string) (e : env)
    (metadata : ChunkMetadata.t) (server : ServerMetadata.t) :
  let meta := metadata_manager_ st in
  let locations := ChunkMetadata.server_locations metadata in
  keyed_by_id meta →
  getChunkMetadata meta chunk_id = Some metadata →
  server_id ∈ locations →
  ChunkMetadata.is_erasure_coded metadata = false →
  (Z.of_nat (length locations) ≤ Config.replication_factor_ cfg)%Z →
  getServerMetadata meta server_id = Some server →
  ServerMetadata.is_healthy server = true →
  hasEnoughSpace server Config.CHUNK_SIZE = true →
  (∀ s, s ∈ ids (getAvailableServers meta []) → s ∈ locations) →
  ChunkMetadata.server_locations
    <$> getChunkMetadata
          (metadata_manager_ (ReportChunkCorruption cfg st chunk_id server_id e)) chunk_id
  = Some (remove_location locations server_id ++ [server_id]).
Proof.
  intros meta locations Hkeyed Hchunk Hin Hplain Hlen Hserver Hhealthy Hspace Hnospare.
  unfold ReportChunkCorruption, replace_server. fold meta.
  destruct (removeChunkFromServer_effect meta chunk_id server_id) as [Hsame _].
  assert (Hchunk1 : getChunkMetadata (removeChunkFromServer meta chunk_id server_id) chunk_id
                    = Some (ChunkMetadata.with_server_locations metadata
                              (remove_location locations server_id))).
  { unfold getChunkMetadata, removeChunkFromServer in *. cbn [chunks_].
    by rewrite Hchunk, lookup_insert_eq. }
  set (meta1 := removeChunkFromServer meta chunk_id server_id) in *.
  set (current := remove_location locations server_id) in *.
  assert (Hkeyed1 : keyed_by_id meta1) by by eapply same_servers_keyed.
  pose proof (remove_location_shorter locations server_id Hin) as Hshort.
  fold current in Hshort.
  cbv zeta. rewrite Hchunk1. cbn [ChunkMetadata.server_locations
                                    ChunkMetadata.with_server_locations].
  destruct (Z.ltb_spec (Z.of_nat (length current)) (Config.replication_factor_ cfg))
    as [_|]; [|lia].
  unfold reallocateChunk. rewrite Hchunk1.
  cbn [fold_left ChunkMetadata.server_locations ChunkMetadata.with_server_locations].
  subst current. rewrite remove_location_twice.
  set (current := remove_location locations server_id) in *.
  cbn [ChunkMetadata.is_erasure_coded ChunkMetadata.with_server_locations].
  rewrite Hplain.
  set (needed := (Config.replication_factor_ cfg - Z.of_nat (length current))%Z).
  destruct (Z.leb_spec needed 0) as [|_]; [subst needed; lia|].
  assert (Hcurrent : server_id ∉ current).
  { subst current. rewrite MetadataManagerProps.elem_of_remove_location. by intros [_ ?]. }
  (* the record of the reported server after [removeChunkFromServer] *)
  pose proof (Hsame server_id) as Hrecord. unfold getServerMetadata in Hserver.
  rewrite Hserver in Hrecord.
  inversion Hrecord as [? server1 (Hid1 & Hhealthy1 & _ & Htotal1 & Hfree1) Heq Hserver1|];
    subst. symmetry in Hserver1.
  assert (Havailable : getAvailableServers meta1 current ≠ []).
  { assert (Hfit : server1 ∈ getAvailableServers meta1 current).
    { apply (available_intro meta1 current server_id); [done|congruence| |].
      - unfold hasEnoughSpace in *. by rewrite Htotal1, Hfree1.
      - by rewrite (Hkeyed1 _ _ Hserver1). }
    intros Hnone. rewrite Hnone in Hfit. by apply elem_of_nil in Hfit. }
  assert (Honly : ∀ s, s ∈ ids (getAvailableServers meta1 current) → s = server_id).
  { intros s Hs.
    destruct (available_fit meta1 current s Hkeyed1 Hs)
      as (Hnot & sm1 & Hsm1 & Hh1 & Hs1).
    unfold getServerMetadata in Hsm1. pose proof (Hsame s) as Hrel.
    rewrite Hsm1 in Hrel.
    inversion Hrel as [sm0 ? (Hid & Hh & _ & Ht & Hf) Hsm0|]; subst. symmetry in Hsm0.
    assert (Hs0 : s ∈ locations).
    { apply Hnospare. apply list_elem_of_fmap. exists sm0. split.
      - symmetry. by apply Hkeyed.
      - apply (available_intro meta [] s); [done|congruence| |].
        + unfold hasEnoughSpace in *. by rewrite <- Ht, <- Hf.
        + apply not_elem_of_nil. }
    destruct (decide (s = server_id)) as [|Hne]; [done|]. exfalso. apply Hnot.
    subst current. by apply MetadataManagerProps.elem_of_remove_location. }
  destruct (allocateServersForChunk_from (chunk_allocator_ (set_metadata st meta1)) meta1
              (chunk_id +:+ "_realloc") needed current e Hkeyed1) as [_ Hfrom].
  pose proof (allocateServersForChunk_finds (chunk_allocator_ (set_metadata st meta1)) meta1
                (chunk_id +:+ "_realloc") needed current e ltac:(lia) Havailable) as Hfound.
  pose proof (allocateServersForChunk_good (chunk_allocator_ (set_metadata st meta1)) meta1
                (chunk_id +:+ "_realloc") needed current e Hkeyed1) as Hgood.
  pose proof (allocateServersForChunk_chunk (chunk_allocator_ (set_metadata st meta1)) meta1
                (chunk_id +:+ "_realloc") needed current e) as Hrec.
  destruct (allocateServersForChunk (chunk_allocator_ (set_metadata st meta1)) meta1
              (chunk_id +:+ "_realloc") needed current e) as [[fresh a'] meta2].
  cbn [fst snd] in *. destruct Hgood as [[Hnd _] _].
  assert (Hfresh : fresh = [server_id]).
  { apply only_one; [done|done|]. intros s Hs. by apply Honly, Hfrom. }
  subst fresh.
  assert (Hname : chunk_id +:+ "_realloc" ≠ chunk_id) by by apply append_longer.
  assert (Hkept : chunks_ meta2 !! chunk_id
                  = Some (ChunkMetadata.with_server_locations metadata current)).
  { rewrite bool_decide_eq_false_2 in Hrec by done.
    by rewrite Hrec, lookup_insert_ne. }
  destruct (updateChunkLocations_effect meta2 chunk_id (current ++ [server_id]) _ Hkept)
    as [Hchunks _].
  cbn [metadata_manager_]. unfold getChunkMetadata. rewrite Hchunks.
  by rewrite lookup_insert_eq.
Qed.

End Report.

(** The theorem on a master with the one server [s1], which holds the
    only copy of the chunk [c] and is reported for it. *)
Lemma reported_server_is_chosen_again_witness :
  let st := {| MasterServer.metadata_manager_ :=
                 addChunk one_server "c" (chunk_at "c" ["s1"]);
               MasterServer.chunk_allocator_ := ChunkAllocator.init;
               MasterServer.keys_ := ∅ |} in
  ChunkMetadata.server_locations
    <$> getChunkMetadata
          (MasterServer.metadata_manager_
             (MasterServer.ReportChunkCorruption Config.default st "c" "s1"
                {| shuffle_draws := []; now := 0 |})) "c"
  = Some ["s1"].
Proof.
  intros st.
  eapply (reported_server_is_chosen_again Config.default st "c" "s1"
            {| shuffle_draws := []; now := 0 |} (chunk_at "c" ["s1"])).
  - apply addChunk_keyed, one_server_keyed.
  - vm_compute. reflexivity.
  - left.
  - reflexivity.
  - vm_compute. discriminate.
  - reflexivity.
  - reflexivity.
  - reflexivity.
  - intros s Hs. vm_compute in Hs. exact Hs.
Defined.

End ReportProps.
